(** * libtiff/tiff_file.py: a shallow embedding of [TIFFfile], [IFD] and
    [IFDEntry], and the properties of the directory reader and of
    [get_samples].

    The file is read through a [numpy.memmap] of unsigned bytes.  Values
    taken out of it are numpy scalars and arrays, whose arithmetic is done
    in the element type of the operands (with wrap-around) and not in
    Python's unbounded integers; the embedding keeps the element type of
    every number for that reason. *)

From Stdlib Require Import ZArith String Ascii Bool Lia List.
From Stdlib Require Import Strings.Byte.
From Stdlib Require Import Sorting.Sorted Sorting.Permutation.
Import ListNotations.
Open Scope Z_scope.

(** ** Outcomes *)

(** The exceptions the module and numpy raise.  The string of
    [ValueError] and [NotImplementedError] is the message, or, where the
    code passes the repr of some values, the names of those values. *)
Inductive exn : Type :=
| ValueError (msg : string)
| NotImplementedError (msg : string)
| IndexError
| AttributeError
| TypeError
| AssertionError
| NameError
| ZeroDivisionError.

(** [Beyond] marks an input that leaves the fragment of numpy embedded
    here (floating point and structured elements used as numbers, an
    array where the code computes with a scalar).  No theorem below
    reads it as a failure or as a success of the code. *)
Inductive result (A : Type) : Type :=
| Ok (a : A)
| Raise (e : exn)
| Beyond.
Arguments Ok {A} a.
Arguments Raise {A} e.
Arguments Beyond {A}.

Definition bind {A B} (r : result A) (k : A -> result B) : result B :=
  match r with
  | Ok a => k a
  | Raise e => Raise e
  | Beyond => Beyond
  end.

Declare Scope py_scope.
Delimit Scope py_scope with py.
Notation "x <- c ;; k" := (bind c (fun x => k))
  (at level 61, c at next level, right associativity) : py_scope.
Notation "'py_assert' b ';;' k" := (if b then k else Raise AssertionError)
  (at level 61, b at next level, right associativity) : py_scope.
Open Scope py_scope.

Definition is_ok {A} (r : result A) : bool :=
  match r with Ok _ => true | _ => false end.

(** ** Python sequences *)

(** An index of a slice [l[a:b]]: negative indices count from the end,
    and both ends are clipped to the sequence. *)
Definition norm_index (len i : Z) : Z :=
  if i <? 0 then Z.max 0 (i + len) else Z.min i len.

Definition py_slice {A} (l : list A) (a b : Z) : list A :=
  let len := Z.of_nat (length l) in
  let a' := norm_index len a in
  let b' := norm_index len b in
  firstn (Z.to_nat (b' - a')) (skipn (Z.to_nat a') l).

(** [l[i]], with Python's negative indices. *)
Definition py_index {A} (l : list A) (i : Z) : result A :=
  let len := Z.of_nat (length l) in
  let j := if i <? 0 then i + len else i in
  if (j <? 0) || (len <=? j) then Raise IndexError
  else match nth_error l (Z.to_nat j) with
       | Some x => Ok x
       | None => Raise IndexError
       end.

(** [l[a:b:s]] for a positive step. *)
Fixpoint every_nth {A} (s : nat) (skip : nat) (l : list A) : list A :=
  match l with
  | [] => []
  | x :: l' =>
      match skip with
      | O => x :: every_nth s (Nat.pred s) l'
      | S k => every_nth s k l'
      end
  end.

Definition py_slice_step {A} (l : list A) (a b s : Z) : list A :=
  every_nth (Z.to_nat s) 0 (py_slice l a b).

Fixpoint chunks_aux {A} (fuel w : nat) (l : list A) : list (list A) :=
  match fuel with
  | O => []
  | S fuel' =>
      match l with
      | [] => []
      | _ => firstn w l :: chunks_aux fuel' w (skipn w l)
      end
  end.

(** The list cut into consecutive pieces of [w] elements. *)
Definition chunks {A} (w : nat) (l : list A) : list (list A) :=
  chunks_aux (length l) w l.

Fixpoint range_from (a : Z) (n : nat) : list Z :=
  match n with
  | O => []
  | S n' => a :: range_from (a + 1) n'
  end.

(** [range(n)]. *)
Definition range (n : Z) : list Z := range_from 0 (Z.to_nat n).

Fixpoint mapM {A B} (f : A -> result B) (l : list A) : result (list B) :=
  match l with
  | [] => Ok []
  | x :: l' => y <- f x ;; ys <- mapM f l' ;; Ok (y :: ys)
  end.

Fixpoint foldM {A S} (f : S -> A -> result S) (l : list A) (s : S)
  : result S :=
  match l with
  | [] => Ok s
  | x :: l' => s' <- f s x ;; foldM f l' s'
  end.

(** ** numpy element types and numbers *)

Inductive dtype : Type :=
| uint8 | uint16 | uint32 | int8 | int16 | int32 | int64
| float32 | float64 | rational | srational.

Definition dtype_eqb (a b : dtype) : bool :=
  match a, b with
  | uint8, uint8 | uint16, uint16 | uint32, uint32
  | int8, int8 | int16, int16 | int32, int32 | int64, int64
  | float32, float32 | float64, float64
  | rational, rational | srational, srational => true
  | _, _ => false
  end.

Definition itemsize (d : dtype) : Z :=
  match d with
  | uint8 | int8 => 1
  | uint16 | int16 => 2
  | uint32 | int32 | float32 => 4
  | int64 | float64 | rational | srational => 8
  end.

(** Signedness and width of the integer types; [None] for the others. *)
Definition int_kind (d : dtype) : option (bool * Z) :=
  match d with
  | uint8 => Some (false, 8)
  | uint16 => Some (false, 16)
  | uint32 => Some (false, 32)
  | int8 => Some (true, 8)
  | int16 => Some (true, 16)
  | int32 => Some (true, 32)
  | int64 => Some (true, 64)
  | _ => None
  end.

Definition signed_of_bits (b : Z) : dtype :=
  if b <=? 8 then int8 else if b <=? 16 then int16
  else if b <=? 32 then int32 else int64.

Definition unsigned_of_bits (b : Z) : dtype :=
  if b <=? 8 then uint8 else if b <=? 16 then uint16 else uint32.

(** numpy's result type of an operation on two integer scalars. *)
Definition promote (a b : dtype) : option dtype :=
  match int_kind a, int_kind b with
  | Some (false, x), Some (false, y) => Some (unsigned_of_bits (Z.max x y))
  | Some (true, x), Some (true, y) => Some (signed_of_bits (Z.max x y))
  | Some (true, s), Some (false, u)
  | Some (false, u), Some (true, s) =>
      Some (if u <? s then signed_of_bits s else signed_of_bits (2 * u))
  | _, _ => None
  end.

(** The value an integer type keeps of [z]: the low bits, read as
    unsigned or as two's complement. *)
Definition wrap (d : dtype) (z : Z) : Z :=
  match int_kind d with
  | Some (false, b) => z mod 2 ^ b
  | Some (true, b) => (z + 2 ^ (b - 1)) mod 2 ^ b - 2 ^ (b - 1)
  | None => z
  end.

(** A number at run time: a Python integer or a numpy scalar. *)
Inductive num : Type :=
| PyInt (z : Z)
| Np (d : dtype) (z : Z).

Definition num_val (n : num) : Z :=
  match n with PyInt z => z | Np _ z => z end.

(** In an operation with a numpy scalar a Python integer counts as an
    [int64] (the C long of the platforms this Python 2 module ran on). *)
Definition num_dtype (n : num) : dtype :=
  match n with PyInt _ => int64 | Np d _ => d end.

Definition is_int_num (n : num) : bool :=
  match int_kind (num_dtype n) with Some _ => true | None => false end.

Definition arith (f : Z -> Z -> Z) (a b : num) : result num :=
  match a, b with
  | PyInt x, PyInt y => Ok (PyInt (f x y))
  | _, _ =>
      match promote (num_dtype a) (num_dtype b) with
      | Some d => Ok (Np d (wrap d (f (num_val a) (num_val b))))
      | None => Beyond
      end
  end.

Definition np_add := arith Z.add.
Definition np_sub := arith Z.sub.
Definition np_mul := arith Z.mul.

(** [a // b]: Python raises on a zero divisor, numpy gives 0. *)
Definition np_floordiv (a b : num) : result num :=
  match a, b with
  | PyInt x, PyInt y =>
      if y =? 0 then Raise ZeroDivisionError else Ok (PyInt (x / y))
  | _, _ => arith (fun x y => if y =? 0 then 0 else x / y) a b
  end.

(** Comparisons are by value. *)
Definition np_cmp (f : Z -> Z -> bool) (a b : num) : result bool :=
  if is_int_num a && is_int_num b then Ok (f (num_val a) (num_val b))
  else Beyond.

Definition np_eq := np_cmp Z.eqb.
Definition np_ne := np_cmp (fun x y => negb (x =? y)).
Definition np_ge := np_cmp Z.geb.
Definition np_gt := np_cmp Z.gtb.
Definition np_le := np_cmp Z.leb.

(** A number used as an index, a length or a [range] bound. *)
Definition as_index (n : num) : result Z :=
  if is_int_num n then Ok (num_val n) else Beyond.

(** The value of a tag: a numpy scalar or a one-dimensional array. *)
Inductive npvalue : Type :=
| NScalar (d : dtype) (z : Z)
| NArray (d : dtype) (l : list Z).

Definition is_ndarray (v : npvalue) : bool :=
  match v with NArray _ _ => true | NScalar _ _ => false end.

(** [v[i]]; a numpy scalar cannot be indexed. *)
Definition np_getitem (v : npvalue) (i : Z) : result num :=
  match v with
  | NScalar _ _ => Raise IndexError
  | NArray d l => z <- py_index l i ;; Ok (Np d z)
  end.

(** What Python knows of a tag's value: [None], a number or an array. *)
Inductive pyval : Type :=
| PNone
| PNum (n : num)
| PArr (d : dtype) (l : list Z).

Definition of_npvalue (v : npvalue) : pyval :=
  match v with
  | NScalar d z => PNum (Np d z)
  | NArray d l => PArr d l
  end.

(** ** Text *)

Definition digit_char (d : Z) : ascii :=
  ascii_of_nat (Z.to_nat (if d <? 10 then 48 + d else 87 + d)).

Fixpoint digits (fuel : nat) (base n : Z) (acc : string) : string :=
  match fuel with
  | O => acc
  | S fuel' =>
      let acc' := String (digit_char (n mod base)) acc in
      if n / base =? 0 then acc' else digits fuel' base (n / base) acc'
  end.

(** ['%s' % n] and [hex(n)] for a natural number [n]. *)
Definition to_dec (n : Z) : string := digits (S (Z.to_nat n)) 10 n "".
Definition to_hex (n : Z) : string :=
  ("0x" ++ digits (S (Z.to_nat n)) 16 n "")%string.

(** ** The tables of libtiff/tiff_data.py *)

(** Modelled from the spec: [type2bytes] of tiff_data.py, which is not
    part of the sources at hand; the spec gives the widths
    1,1,2,4,8,1,1,2,4,8,4,8 for the type codes 1 to 12. *)
Definition type2bytes (t : Z) : option Z :=
  match t with
  | 1 | 2 | 6 | 7 => Some 1
  | 3 | 8 => Some 2
  | 4 | 9 | 11 => Some 4
  | 5 | 10 | 12 => Some 8
  | _ => None
  end.

(** Modelled from the spec: [type2dtype] of tiff_data.py.  The spec
    fixes the widths only; the element types are those of the TIFF field
    types, which the module itself names ([get_short = get_uint16],
    [get_long = get_uint32], [get_double = get_float64]). *)
Definition type2dtype (t : Z) : option dtype :=
  match t with
  | 1 | 2 | 7 => Some uint8
  | 3 => Some uint16
  | 4 => Some uint32
  | 5 => Some rational
  | 6 => Some int8
  | 8 => Some int16
  | 9 => Some int32
  | 10 => Some srational
  | 11 => Some float32
  | 12 => Some float64
  | _ => None
  end.

(** Modelled from the spec: [type2name] and [name2type] of tiff_data.py,
    with the names of the TIFF field types. *)
Definition type_names : list (Z * string) :=
  [(1, "BYTE"); (2, "ASCII"); (3, "SHORT"); (4, "LONG"); (5, "RATIONAL");
   (6, "SBYTE"); (7, "UNDEFINED"); (8, "SSHORT"); (9, "SLONG");
   (10, "SRATIONAL"); (11, "FLOAT"); (12, "DOUBLE")]%string.

Definition type2name (t : Z) : option string :=
  option_map snd (find (fun p => fst p =? t) type_names).

Definition name2type (s : string) : option Z :=
  option_map fst (find (fun p => String.eqb (snd p) s) type_names).

(** ** Records *)

Inductive endianness : Type := little | big.

(** A recorded memory area: first byte, end, what it holds. *)
Definition region : Type := (Z * Z * string)%type.

Record IFDEntry : Type := mkIFDEntry {
  tag : Z;
  type : Z;
  count : Z;
  offset : option Z;
  value : option npvalue;       (* [None]: the attribute is not set *)
  bytes : Z;
  tag_name : string;
  type_name : string;
  entry_memory_usage : list region
}.

Record IFD : Type := mkIFD { entries : list IFDEntry }.

Record TIFFfile : Type := mkTIFFfile {
  first_byte : Z;
  data : list byte;
  memory_usage : list region;
  endian : endianness;
  IFD0 : Z;
  IFD_list : list IFD
}.

(** What [IFDEntry.__init__] has read when the init hooks run. *)
Record entry_head : Type := mkHead { h_tag : Z; h_type : Z; h_count : Z }.

(** What the module takes from outside libtiff/tiff_file.py. *)
Record environment : Type := mkEnv {
  (* sys.byteorder: numpy's uint16, uint32, ... are native-order types *)
  byteorder : endianness;
  (* tiff_data.tag_value2name *)
  tag_value2name : Z -> option string;
  (* the hooks lsm.register adds to IFDEntry_init_hooks *)
  init_hooks : list (entry_head -> entry_head);
  (* the hooks it adds to IFDEntry_finalize_hooks *)
  finalize_hooks : list (IFD -> IFDEntry -> result IFDEntry);
  (* TIFFfile.is_lsm and lsminfo.get('data channel name') *)
  is_lsm : TIFFfile -> bool;
  lsm_channel_names : TIFFfile -> list string;
  (* tif_lzw.decode *)
  tif_lzw_decode : list byte -> Z -> list byte
}.

(** ** TIFFfile: typed reads *)

Definition byte_val (b : byte) : Z := Z.of_N (Byte.to_N b).

(** The unsigned number whose least significant byte comes first. *)
Fixpoint le_value (bs : list byte) : Z :=
  match bs with
  | [] => 0
  | b :: bs' => byte_val b + 256 * le_value bs'
  end.

(** The argument [typ] of [get_values]: a numpy dtype (or scalar
    class), the name of a TIFF type, or a TIFF type code. *)
Inductive typ_arg : Type :=
| TDtype (d : dtype)
| TName (s : string)
| TCode (c : Z).

Section Reader.

Variable env : environment.

(** One element of a view: the integer it holds for the integer types,
    and the unsigned number made of its bytes for the other types. *)
Definition decode_elem (d : dtype) (bs : list byte) : Z :=
  let u := le_value (match byteorder env with
                     | little => bs
                     | big => rev bs
                     end) in
  match int_kind d with
  | Some (true, b) => if 2 ^ (b - 1) <=? u then u - 2 ^ b else u
  | _ => u
  end.

(** [s.view(dtype=d)] for a run of bytes [s]. *)
Definition np_view (d : dtype) (s : list byte) : result (list Z) :=
  if Z.of_nat (length s) mod itemsize d =? 0
  then Ok (map (decode_elem d) (chunks (Z.to_nat (itemsize d)) s))
  else Raise (ValueError "new type not compatible with array").

Section Reads.

Variable data : list byte.

(** [self.data[offset:offset+w].view(dtype=d)[0]].  The offsets the
    module computes with these scalars are int64 sums of numbers below
    2^32 and are kept as plain integers. *)
Definition get_scalar (d : dtype) (offset : Z) : result Z :=
  l <- np_view d (py_slice data offset (offset + itemsize d)) ;;
  py_index l 0.

Definition get_uint16 := get_scalar uint16.
Definition get_uint32 := get_scalar uint32.
Definition get_int16 := get_scalar int16.
Definition get_int32 := get_scalar int32.

(** [get_values]: [Ok None] is the bare [return] after the message on
    stderr. *)
Definition get_values (offset : Z) (typ : typ_arg) (count : Z)
  : result (option npvalue) :=
  let view d w :=
    l <- np_view d (py_slice data offset (offset + w * count)) ;;
    Ok (Some (NArray d l)) in
  match typ with
  | TDtype d => view d (itemsize d)
  | _ =>
      let code := match typ with
                  | TName s => name2type s
                  | TCode c => Some c
                  | TDtype _ => None
                  end in
      match code with
      | None => Ok None
      | Some c =>
          match type2dtype c, type2bytes c with
          | Some d, Some w => view d w
          | _, _ => Ok None
          end
      end
  end.

Definition get_value (offset : Z) (typ : typ_arg)
  : result (option npvalue) :=
  values <- get_values offset typ 1 ;;
  match values with
  | Some (NArray d l) => z <- py_index l 0 ;; Ok (Some (NScalar d z))
  | Some (NScalar d z) => Raise IndexError
  | None => Ok None
  end.

(** ** IFDEntry.__init__ *)

Definition IFDEntry_init (entry_offset : Z) : result IFDEntry :=
  tag0 <- get_uint16 entry_offset ;;
  type0 <- get_uint16 (entry_offset + 2) ;;
  count0 <- get_uint32 (entry_offset + 4) ;;
  let h := fold_left (fun h hook => hook h) (init_hooks env)
                     (mkHead tag0 type0 count0) in
  let bytes := match type2bytes (h_type h) with
               | Some b => b
               | None => 0
               end in
  ov <- (if (h_count h =? 1) && (1 <=? bytes) && (bytes <=? 4)
         then v <- get_value (entry_offset + 8) (TCode (h_type h)) ;;
              Ok (None, v)
         else o <- get_int32 (entry_offset + 8) ;;
              v <- get_values o (TCode (h_type h)) (h_count h) ;;
              Ok (Some o, v)) ;;
  let tag_name := match tag_value2name env (h_tag h) with
                  | Some s => s
                  | None => ("TAG" ++ to_hex (h_tag h))%string
                  end in
  let type_name := match type2name (h_type h) with
                   | Some s => s
                   | None => ("TYPE" ++ to_dec (h_type h))%string
                   end in
  Ok {| tag := h_tag h; type := h_type h; count := h_count h;
        offset := fst ov; value := snd ov; bytes := bytes;
        tag_name := tag_name; type_name := type_name;
        entry_memory_usage :=
          match fst ov with
          | Some o => [(o, o + bytes * h_count h, tag_name)]
          | None => []
          end |}.

End Reads.

(** ** IFD *)

(** [IFD.get]: the first entry with the tag name, or [None]. *)
Definition IFD_get (ifd : IFD) (name : string) : option IFDEntry :=
  find (fun e => String.eqb (tag_name e) name) (entries ifd).

(** [entry.value]: an [AttributeError] when [__init__] did not set it. *)
Definition entry_value (e : IFDEntry) : result pyval :=
  match value e with
  | Some v => Ok (of_npvalue v)
  | None => Raise AttributeError
  end.

(** [ifd.get(name).value] *)
Definition IFD_get_dot_value (ifd : IFD) (name : string) : result pyval :=
  match IFD_get ifd name with
  | Some e => entry_value e
  | None => Raise AttributeError
  end.

(** [IFD.get_value] *)
Definition IFD_get_value (ifd : IFD) (name : string) (default : pyval)
  : result pyval :=
  match IFD_get ifd name with
  | Some e => entry_value e
  | None => Ok default
  end.

Definition IFD_memory_usage (ifd : IFD) : list region :=
  flat_map entry_memory_usage (entries ifd).

(** [v[i]] for the value of a tag. *)
Definition getitem (v : pyval) (i : Z) : result num :=
  match v with
  | PArr d l => z <- py_index l i ;; Ok (Np d z)
  | PNum _ => Raise IndexError
  | PNone => Raise TypeError
  end.

(** The loop of [IFD.is_contiguous] over [range(len(strip_offsets)-1)]. *)
Fixpoint contiguous_loop (strip_offsets strip_nbytes : pyval) (idx : list Z)
  : result bool :=
  match idx with
  | [] => Ok true
  | i :: idx' =>
      o <- getitem strip_offsets i ;;
      n <- getitem strip_nbytes i ;;
      e <- np_add o n ;;
      o' <- getitem strip_offsets (i + 1) ;;
      differ <- np_ne e o' ;;
      if differ then Ok false
      else contiguous_loop strip_offsets strip_nbytes idx'
  end.

(** [IFD.is_contiguous] *)
Definition IFD_is_contiguous (ifd : IFD) : result bool :=
  strip_offsets <- IFD_get_dot_value ifd "StripOffsets" ;;
  strip_nbytes <- IFD_get_dot_value ifd "StripByteCounts" ;;
  match strip_offsets with
  | PArr d offs =>
      contiguous_loop strip_offsets strip_nbytes
                      (range (Z.of_nat (length offs) - 1))
  | _ => Ok true
  end.

(** [StripOffsets_hook], the finalize hook defined in the module. *)
Definition StripOffsets_hook (ifd : IFD) (e : IFDEntry) : result IFDEntry :=
  if String.eqb (tag_name e) "StripOffsets" then
    let add_regions rs :=
      Ok {| tag := tag e; type := type e; count := count e;
            offset := offset e; value := value e; bytes := bytes e;
            tag_name := tag_name e; type_name := type_name e;
            entry_memory_usage := entry_memory_usage e ++ rs |} in
    let counts_value :=
      match IFD_get ifd "StripByteCounts" with
      | Some c => entry_value c
      | None => Raise AttributeError
      end in
    match offset e with
    | Some _ =>
        cs <- counts_value ;;
        os <- entry_value e ;;
        match cs, os with
        | PArr dc lc, PArr d_o lo =>
            rs <- mapM (fun ico =>
                          let '(i, (c, o)) := ico in
                          s <- np_add (Np d_o o) (Np dc c) ;;
                          Ok (o, num_val s, ("strip " ++ to_dec i)%string))
                       (combine (range (Z.of_nat (length lc)))
                                (combine lc lo)) ;;
            add_regions rs
        | _, _ => Raise TypeError
        end
    | None =>
        o <- entry_value e ;;
        cs <- counts_value ;;
        match o, cs with
        | PNum o, PNum c =>
            s <- np_add o c ;;
            add_regions [(num_val o, num_val s, "strip"%string)]
        | _, _ => Beyond
        end
    end
  else Ok e.

Definition IFDEntry_finalize_hooks
  : list (IFD -> IFDEntry -> result IFDEntry) :=
  StripOffsets_hook :: finalize_hooks env.

(** [IFD.finalize]: every hook on every entry, in order; a hook sees
    the directory with what the earlier hooks have changed. *)
Fixpoint finalize_from (done todo : list IFDEntry) : result (list IFDEntry) :=
  match todo with
  | [] => Ok done
  | e :: rest =>
      e' <- foldM (fun e hook => hook (mkIFD (done ++ e :: rest)) e)
                  IFDEntry_finalize_hooks e ;;
      finalize_from (done ++ [e']) rest
  end.

Definition IFD_finalize (ifd : IFD) : result IFD :=
  es <- finalize_from [] (entries ifd) ;; Ok (mkIFD es).

(** ** TIFFfile.__init__ *)

(** The directory at [IFD_offset]: its number of entries, the entries
    after the finalize hooks, and the offset of the next directory. *)
Definition directory_at (data : list byte) (IFD_offset : Z)
  : result (Z * IFD * Z) :=
  n <- get_uint16 data IFD_offset ;;
  es <- mapM (fun i => IFDEntry_init data (IFD_offset + 2 + i * 12))
             (range n) ;;
  ifd <- IFD_finalize (mkIFD es) ;;
  next <- get_uint32 data (IFD_offset + 2 + n * 12) ;;
  Ok (n, ifd, next).

(** One turn of the [while IFD_offset:] loop: the directory, the memory
    area it is recorded with, and the next offset.  [k] is
    [len(IFD_list)] after the directory is appended. *)
Definition read_directory (data : list byte) (IFD_offset : Z) (k : nat)
  : result (IFD * region * Z) :=
  d <- directory_at data IFD_offset ;;
  let '(n, ifd, next) := d in
  let area := (IFD_offset, IFD_offset + 2 + n * 12 + 4,
               ("IFD" ++ to_dec (Z.of_nat k) ++ " entries ("
                ++ to_dec (Z.of_nat (length (entries ifd))) ++ ")")%string) in
  Ok (ifd, area, next).

(** The loop itself.  Python's loop has no bound; here [None] says that
    [fuel] turns were not enough to reach a zero offset. *)
Fixpoint walk (fuel : nat) (data : list byte) (IFD_offset : Z)
  (IFDs : list IFD) (usage : list region)
  : option (result (list IFD * list region)) :=
  if IFD_offset =? 0 then Some (Ok (IFDs, usage))
  else
    match fuel with
    | O => None
    | S fuel' =>
        match read_directory data IFD_offset (S (length IFDs)) with
        | Ok (ifd, area, next) =>
            walk fuel' data next (IFDs ++ [ifd]) (usage ++ [area])
        | Raise e => Some (Raise e)
        | Beyond => Some Beyond
        end
    end.

(** What [__init__] does before the loop. *)
Definition read_header (data : list byte) (first_byte : Z)
  : result (endianness * Z) :=
  byteorder <- get_uint16 data first_byte ;;
  endian <- (if byteorder =? 0x4949 then Ok little
             else if byteorder =? 0x4d4d then Ok big
             else Raise (ValueError "unrecognized byteorder")) ;;
  magic <- get_uint16 data (first_byte + 2) ;;
  if negb (magic =? 42)
  then Raise (ValueError "wrong magic number for TIFF file")
  else
    off <- get_uint32 data (first_byte + 4) ;;
    let IFD0 := first_byte + off in
    n <- get_uint16 data IFD0 ;;
    Ok (endian, IFD0).

Definition TIFFfile_init (fuel : nat) (data : list byte) (mode : string)
  (first_byte : Z) : option (result TIFFfile) :=
  if negb (String.eqb mode "r") then Some (Raise (NotImplementedError "mode"))
  else if Nat.eqb (length data) 0
  then Some (Raise (ValueError "cannot mmap an empty file"))
  else
    let nbytes := Z.of_nat (length data) in
    match read_header data first_byte with
    | Ok (endian, IFD0) =>
        let usage := [(nbytes, nbytes, "eof"%string);
                      (first_byte, first_byte + 8, "file header"%string)] in
        match walk fuel data IFD0 [] usage with
        | Some (Ok (IFDs, usage')) =>
            Some (Ok {| first_byte := first_byte; data := data;
                        memory_usage := usage'; endian := endian;
                        IFD0 := IFD0; IFD_list := IFDs |})
        | Some (Raise e) => Some (Raise e)
        | Some Beyond => Some Beyond
        | None => None
        end
    | Raise e => Some (Raise e)
    | Beyond => Some Beyond
    end.

(** ** TIFFfile.get_samples: the loop over the selected directories *)

(** A value the code computes with as one number. *)
Definition as_num (v : pyval) : result num :=
  match v with
  | PNum n => Ok n
  | PNone => Raise TypeError
  | PArr _ _ => Beyond
  end.

(** [a == b] where the code expects one truth value. *)
Definition eq_scalar (a b : pyval) : result bool :=
  match a, b with
  | PNum x, PNum y => np_eq x y
  | PNone, PNone => Ok true
  | PNone, PNum _ | PNum _, PNone => Ok false
  | _, _ => Beyond
  end.

(** The element types [getattr(numpy, '%s%s' % (format, bits))] names. *)
Inductive sample_format : Type := f_uint | f_int | f_float | f_complex.

Definition sample_dtype : Type := (sample_format * Z)%type.

Definition sample_itemsize (d : sample_dtype) : Z := snd d / 8.

(** The attribute lookup: the names every numpy has, an
    [AttributeError] for the names none has; the names that depend on
    the numpy version or on the platform (uint0, float16, float128, ...)
    are left out. *)
Definition numpy_getattr (f : sample_format) (bits : pyval)
  : result sample_dtype :=
  match bits with
  | PNone => Raise AttributeError
  | PArr _ _ => Raise AttributeError
  | PNum n =>
      if negb (is_int_num n) then Beyond
      else
        let b := num_val n in
        let known := match f with
                     | f_uint | f_int => [8; 16; 32; 64]
                     | f_float => [32; 64]
                     | f_complex => [64; 128]
                     end in
        let varies := match f with
                      | f_uint | f_int => [0]
                      | f_float => [16; 80; 96; 128; 256]
                      | f_complex => [32; 160; 192; 256; 512]
                      end in
        if existsb (Z.eqb b) known then Ok (f, b)
        else if existsb (Z.eqb b) varies then Beyond
        else Raise AttributeError
  end.

(** What the first selected directory fixes. *)
Record params : Type := mkParams {
  compression : pyval;
  width : num;
  length_ : num;
  samples_per_pixel : num;
  planar_config : pyval;
  bits_per_sample : pyval;
  strips_per_image : Z;
  dtype_lst : list sample_dtype;
  bits_per_pixel : num;
  bytes_per_pixel : num;
  bytes_per_row : num;
  strip_length : num;
  bytes_per_image : num;
  rows_per_strip : num
}.

(** The variables of the loop: [l], [i], [step], [can_return_memmap],
    and the names bound in the first turn. *)
Record loop_state : Type := mkState {
  st_l : list (num * num);
  st_i : Z;
  st_step : num;
  can_return_memmap : bool;
  st_first : option params
}.

Definition initial_state : loop_state :=
  {| st_l := []; st_i := 0; st_step := PyInt 0; can_return_memmap := true;
     st_first := None |}.

(** [{1:'uint', 2:'int', 3:'float', None:'uint', 6:'complex'}.get(...)],
    with the fallback to uint after the warning. *)
Definition format_of (v : pyval) : result sample_format :=
  match v with
  | PNone => Ok f_uint
  | PArr _ _ => Raise TypeError
  | PNum n =>
      if negb (is_int_num n) then Beyond
      else Ok (match num_val n with
               | 2 => f_int
               | 3 => f_float
               | 6 => f_complex
               | _ => f_uint
               end)
  end.

(** The byte span of a directory's strips, as appended to [l]. *)
Definition strip_span (ifd : IFD) : result (num * num) :=
  strip_offsets <- IFD_get_value ifd "StripOffsets" PNone ;;
  strip_nbytes <- IFD_get_value ifd "StripByteCounts" PNone ;;
  match strip_offsets with
  | PArr _ _ =>
      a <- getitem strip_offsets 0 ;;
      b <- getitem strip_offsets (-1) ;;
      n <- getitem strip_nbytes (-1) ;;
      e <- np_add b n ;;
      Ok (a, e)
  | _ =>
      o <- as_num strip_offsets ;;
      n <- as_num strip_nbytes ;;
      e <- np_add o n ;;
      Ok (o, e)
  end.

(** The element types and [bits_per_pixel] of the first directory. *)
Definition sample_types (f : sample_format) (bits_per_sample : pyval)
  (samples_per_pixel : num) : result (list sample_dtype * num) :=
  match bits_per_sample with
  | PArr _ _ =>
      n <- as_index samples_per_pixel ;;
      foldM (fun acc j =>
               bits <- getitem bits_per_sample j ;;
               total <- np_add (snd acc) bits ;;
               d <- numpy_getattr f (PNum bits) ;;
               Ok (fst acc ++ [d], total))
            (range n) ([], PyInt 0)
  | _ =>
      d <- numpy_getattr f bits_per_sample ;;
      bpp <- as_num bits_per_sample ;;
      Ok ([d], bpp)
  end.

(** The branch [if i==0:] of the loop; [span] is [l[-1]]. *)
Definition first_turn (tiff : TIFFfile) (ifd : IFD) (span : num * num)
  : result (params * bool) :=
  compression <- IFD_get_value ifd "Compression" PNone ;;
  compressed <- (match compression with
                 | PNone => Ok true
                 | PNum n => np_ne n (PyInt 1)
                 | PArr _ _ => Beyond
                 end) ;;
  width <- IFD_get_value ifd "ImageWidth" PNone ;;
  image_length <- IFD_get_value ifd "ImageLength" PNone ;;
  spp <- IFD_get_value ifd "SamplesPerPixel" (PNum (PyInt 1)) ;;
  planar_config <- IFD_get_value ifd "PlanarConfiguration" PNone ;;
  bits_per_sample <- IFD_get_value ifd "BitsPerSample" PNone ;;
  sample_format <- IFD_get_value ifd "SampleFormat" PNone ;;
  strip_offsets <- IFD_get_value ifd "StripOffsets" PNone ;;
  let strips_per_image :=
    match strip_offsets with
    | PArr _ offs => if is_lsm env tiff then 1 else Z.of_nat (length offs)
    | _ => 1
    end in
  format <- format_of sample_format ;;
  spp <- as_num spp ;;
  tys <- sample_types format bits_per_sample spp ;;
  let bits_per_pixel := snd tys in
  bytes_per_pixel <- np_floordiv bits_per_pixel (PyInt 8) ;;
  back <- np_mul (PyInt 8) bytes_per_pixel ;;
  exact <- np_eq back bits_per_pixel ;;
  py_assert exact ;;
  width <- as_num width ;;
  bytes_per_row <- np_mul width bytes_per_pixel ;;
  strip_length <- np_sub (snd span) (fst span) ;;
  image_length <- as_num image_length ;;
  bytes_per_image <- np_mul image_length bytes_per_row ;;
  per_strip <- np_mul bytes_per_row (PyInt strips_per_image) ;;
  rows_per_strip <- np_floordiv bytes_per_image per_strip ;;
  declared <- IFD_get_value ifd "RowsPerStrip" (PNum rows_per_strip) ;;
  same <- eq_scalar (PNum rows_per_strip) declared ;;
  py_assert same ;;
  Ok ({| compression := compression; width := width;
         length_ := image_length;
         samples_per_pixel := spp; planar_config := planar_config;
         bits_per_sample := bits_per_sample;
         strips_per_image := strips_per_image; dtype_lst := fst tys;
         bits_per_pixel := bits_per_pixel;
         bytes_per_pixel := bytes_per_pixel;
         bytes_per_row := bytes_per_row; strip_length := strip_length;
         bytes_per_image := bytes_per_image;
         rows_per_strip := rows_per_strip |}, negb compressed).

(** [(bits_per_sample == other).all()] and [bits_per_sample == other]
    as the assertion of the later turns reads them. *)
Definition same_bits (mine other : pyval) : result bool :=
  match mine, other with
  | PArr d1 l1, PArr d2 l2 =>
      if (length l1 =? length l2)%nat
      then bs <- mapM (fun p => np_eq (Np d1 (fst p)) (Np d2 (snd p)))
                      (combine l1 l2) ;;
           Ok (forallb (fun b => b) bs)
      else Beyond
  | PArr d1 l1, PNum n =>
      bs <- mapM (fun z => np_eq (Np d1 z) n) l1 ;;
      Ok (forallb (fun b => b) bs)
  | PNum n, PArr d2 l2 =>
      match l2 with
      | [] => Ok false
      | [z] => np_eq n (Np d2 z)
      | _ => Raise (ValueError "truth value of an array is ambiguous")
      end
  | _, _ => eq_scalar mine other
  end.

(** The branch [else:] of the loop: the assertions of the later turns. *)
Definition later_turn (p : params) (ifd : IFD) (span : num * num)
  : result unit :=
  w <- IFD_get_value ifd "ImageWidth" (PNum (width p)) ;;
  same_w <- eq_scalar (PNum (width p)) w ;;
  py_assert same_w ;;
  h <- IFD_get_value ifd "ImageLength" (PNum (length_ p)) ;;
  same_h <- eq_scalar (PNum (length_ p)) h ;;
  py_assert same_h ;;
  pc <- IFD_get_value ifd "PlanarConfiguration" (planar_config p) ;;
  same_pc <- eq_scalar (planar_config p) pc ;;
  py_assert same_pc ;;
  len <- np_sub (snd span) (fst span) ;;
  same_len <- np_eq (strip_length p) len ;;
  py_assert same_len ;;
  b <- IFD_get_value ifd "BitsPerSample" (bits_per_sample p) ;;
  same_b <- same_bits (bits_per_sample p) b ;;
  py_assert same_b ;;
  Ok tt.

(** The branch [if i>0:]: the new [step] and [can_return_memmap];
    [prev] is [l[-2]] and [span] is [l[-1]]. *)
Definition update_step (st : loop_state) (prev span : num * num)
  : result (num * bool) :=
  if st_i st =? 1 then
    s <- np_sub (fst span) (snd prev) ;;
    nonneg <- np_ge s (PyInt 0) ;;
    py_assert nonneg ;;
    Ok (s, can_return_memmap st)
  else
    gap <- np_sub (fst span) (snd prev) ;;
    differ <- np_ne (st_step st) gap ;;
    Ok (st_step st, if differ then false else can_return_memmap st).

(** One turn of [for ifd in ifd_lst:]. *)
Definition loop_body (tiff : TIFFfile) (st : loop_state) (ifd : IFD)
  : result loop_state :=
  contiguous <- IFD_is_contiguous ifd ;;
  if negb contiguous
  then Raise (NotImplementedError "none contiguous strips")
  else
    span <- strip_span ifd ;;
    pm <- (if st_i st =? 0 then
             r <- first_turn tiff ifd span ;;
             Ok (fst r, can_return_memmap st && snd r)
           else
             match st_first st with
             | Some p => _ <- later_turn p ifd span ;;
                         Ok (p, can_return_memmap st)
             | None => Raise NameError
             end) ;;
    let st1 := {| st_l := st_l st ++ [span]; st_i := st_i st;
                  st_step := st_step st; can_return_memmap := snd pm;
                  st_first := Some (fst pm) |} in
    sm <- (if 0 <? st_i st then
             prev <- py_index (st_l st) (-1) ;;
             update_step st1 prev span
           else Ok (st_step st1, can_return_memmap st1)) ;;
    Ok {| st_l := st_l st1; st_i := st_i st + 1; st_step := fst sm;
          can_return_memmap := snd sm; st_first := st_first st1 |}.

(** The test of the list comprehension that selects the directories. *)
Definition selected (subfile_type : Z) (ifd : IFD) : result bool :=
  v <- IFD_get_value ifd "NewSubfileType" (PNum (PyInt subfile_type)) ;;
  match v with
  | PNum n => np_eq n (PyInt subfile_type)
  | PArr d [] => Ok false
  | PArr d [z] => np_eq (Np d z) (PyInt subfile_type)
  | PArr _ _ => Raise (ValueError "truth value of an array is ambiguous")
  | PNone => Ok false
  end.

Fixpoint filterM {A} (f : A -> result bool) (xs : list A)
  : result (list A) :=
  match xs with
  | [] => Ok []
  | x :: xs' =>
      keep <- f x ;;
      rest <- filterM f xs' ;;
      Ok (if keep then x :: rest else rest)
  end.

Definition select_ifds (tiff : TIFFfile) (subfile_type : Z)
  : result (list IFD) :=
  filterM (selected subfile_type) (IFD_list tiff).

(** ** TIFFfile.get_samples: building the channels *)

(** One channel: its element type, its shape [(depth, length, width)]
    and its elements, each one the bytes it is made of. *)
Record sample : Type := mkSample {
  s_dtype : sample_dtype;
  s_shape : Z * Z * Z;
  s_array : list (list (list (list byte)))
}.

(** [r] rows of [c] elements each. *)
Definition split_rows {A} (r c : Z) (xs : list A) : list (list A) :=
  if c =? 0 then repeat [] (Z.to_nat r) else chunks (Z.to_nat c) xs.

(** [bs.reshape((r, c))] for a run of bytes.  A negative dimension
    (numpy infers a dimension given as -1) is left out. *)
Definition reshape2 (bs : list byte) (r c : Z) : result (list (list byte)) :=
  if (r <? 0) || (c <? 0) then Beyond
  else if Z.of_nat (length bs) =? r * c then Ok (split_rows r c bs)
  else Raise (ValueError "total size of new array must be unchanged").

(** [bs.view(dtype=d).reshape((depth, length, width))] *)
Definition view_reshape3 (d : sample_dtype) (bs : list byte)
  (depth len wid : Z) : result sample :=
  let w := sample_itemsize d in
  if negb (Z.of_nat (length bs) mod w =? 0)
  then Raise (ValueError "new type not compatible with array")
  else
    let elems := chunks (Z.to_nat w) bs in
    if (depth <? 0) || (len <? 0) || (wid <? 0) then Beyond
    else if negb (Z.of_nat (length elems) =? depth * len * wid)
    then Raise (ValueError "total size of new array must be unchanged")
    else Ok {| s_dtype := d; s_shape := (depth, len, wid);
               s_array := map (split_rows len wid)
                              (split_rows depth (len * wid) elems) |}.

(** [arr[i:i+len(d)] = d] on an array of which some bytes may not have
    been written yet ([numpy.empty]). *)
Definition assign (arr : list (option byte)) (i : Z) (d : list byte)
  : result (list (option byte)) :=
  let len := Z.of_nat (length arr) in
  let a := norm_index len i in
  let b := norm_index len (i + Z.of_nat (length d)) in
  let m := Z.max 0 (b - a) in
  let put ds := firstn (Z.to_nat a) arr ++ map Some ds
                ++ skipn (Z.to_nat (a + m)) arr in
  if Z.of_nat (length d) =? m then Ok (put d)
  else match d with
       | [x] => Ok (put (repeat x (Z.to_nat m)))
       | _ => Raise (ValueError "could not broadcast input array")
       end.

(** The branch [if not can_return_memmap:]. *)
Definition slow_path (tiff : TIFFfile) (st : loop_state) (p : params)
  (sample_names : list string) : result (list sample * list string) :=
  let depth := st_i st in
  chunky <- eq_scalar (planar_config p) (PNum (PyInt 1)) ;;
  if chunky then
    one <- np_eq (samples_per_pixel p) (PyInt 1) ;;
    if one then
      size <- as_index (bytes_per_image p) ;;
      if size <? 0 then Raise (ValueError "negative dimensions are not allowed")
      else
        let arr := repeat (@None byte) (Z.to_nat size) in
        py_assert (Z.of_nat (length (st_l st)) =? strips_per_image p) ;;
        bytes_per_strip <- np_floordiv (bytes_per_image p)
                                       (PyInt (strips_per_image p)) ;;
        lzw <- eq_scalar (compression p) (PNum (PyInt 5)) ;;
        filled <- foldM (fun (acc : list (option byte) * Z) (se : num * num) =>
                           a <- as_index (fst se) ;;
                           b <- as_index (snd se) ;;
                           let raw := py_slice (data tiff) a b in
                           let d := if lzw
                                    then tif_lzw_decode env raw
                                           (num_val bytes_per_strip)
                                    else raw in
                           arr' <- assign (fst acc) (snd acc) d ;;
                           Ok (arr', snd acc + Z.of_nat (length d)))
                        (st_l st) (arr, 0) ;;
        bs <- mapM (fun c => match c with
                             | Some x => Ok x
                             | None => Beyond
                             end) (fst filled) ;;
        d0 <- py_index (dtype_lst p) 0 ;;
        len <- as_index (length_ p) ;;
        wid <- as_index (width p) ;;
        s <- view_reshape3 d0 bs depth len wid ;;
        Ok ([s], sample_names)
    else Raise (NotImplementedError "samples_per_pixel")
  else Raise (NotImplementedError "planar_config").

(** [sum(bits_per_sample[:samples_per_pixel]) // 8 * width * length]
    or [bits_per_sample // 8 * width * length]. *)
Definition plane_bytes (p : params) (bits : num) : result num :=
  q <- np_floordiv bits (PyInt 8) ;;
  qw <- np_mul q (width p) ;;
  np_mul qw (length_ p).

Definition chunky_bytes (p : params) : result num :=
  match bits_per_sample p with
  | PArr d bl =>
      n <- as_index (samples_per_pixel p) ;;
      total <- foldM (fun acc z => np_add acc (Np d z))
                     (py_slice bl 0 n) (PyInt 0) ;;
      plane_bytes p total
  | v => bits <- as_num v ;; plane_bytes p bits
  end.

(** The loop of the branch [elif planar_config==1:].  [k] grows by
    [bytes] in every turn, as in the planar branch above it. *)
Definition chunky_samples (p : params) (arr : list (list byte))
  (depth : Z) (k bytes : num) : result (list sample) :=
  n <- as_index (samples_per_pixel p) ;;
  len <- as_index (length_ p) ;;
  wid <- as_index (width p) ;;
  r <- foldM (fun (acc : list sample * num) j =>
                a <- np_add (snd acc) (PyInt j) ;;
                b <- np_add a bytes ;;
                a' <- as_index a ;;
                b' <- as_index b ;;
                let tmp := concat (map (fun row => py_slice_step row a' b' n)
                                       arr) in
                d <- py_index (dtype_lst p) j ;;
                s <- view_reshape3 d tmp depth len wid ;;
                k' <- np_add (snd acc) bytes ;;
                Ok (fst acc ++ [s], k'))
             (range n) ([], k) ;;
  Ok (fst r).

(** The loop of the LSM branch of [if planar_config==2:].  A view of
    another element width on columns that are not contiguous in memory
    is not accepted by every numpy and is left out. *)
Definition planar_samples (p : params) (arr : list (list byte))
  (depth : Z) (k : num) : result (list sample) :=
  len <- as_index (length_ p) ;;
  wid <- as_index (width p) ;;
  let channel (k : num) (bits : num) (j : Z) : result (sample * num) :=
    bytes <- plane_bytes p bits ;;
    b <- np_add k bytes ;;
    a' <- as_index k ;;
    b' <- as_index b ;;
    let cols := map (fun row => py_slice row a' b') arr in
    d <- py_index (dtype_lst p) j ;;
    let whole := forallb (fun row => (length (py_slice row a' b')
                                      =? length row)%nat) arr in
    if negb ((sample_itemsize d =? 1) || (depth <=? 1) || whole) then Beyond
    else
      s <- view_reshape3 d (concat cols) depth len wid ;;
      Ok (s, b) in
  match bits_per_sample p with
  | PArr _ _ =>
      n <- as_index (samples_per_pixel p) ;;
      r <- foldM (fun (acc : list sample * num) j =>
                    bits <- getitem (bits_per_sample p) j ;;
                    sk <- channel (snd acc) bits j ;;
                    Ok (fst acc ++ [fst sk], snd sk))
                 (range n) ([], k) ;;
      Ok (fst r)
  | v =>
      one <- np_eq (samples_per_pixel p) (PyInt 1) ;;
      py_assert one ;;
      bits <- as_num v ;;
      sk <- channel k bits 0 ;;
      Ok [fst sk]
  end.

(** The code after the slow path: the view on the mapped file and the
    channels cut out of it. *)
Definition fast_path (tiff : TIFFfile) (subfile_type : Z) (st : loop_state)
  (p : params) (sample_names : list string)
  : result (list sample * list string) :=
  let depth := st_i st in
  first_span <- py_index (st_l st) 0 ;;
  last_span <- py_index (st_l st) (-1) ;;
  let start := fst first_span in
  let end_ := snd last_span in
  row <- np_add (strip_length p) (st_step st) ;;
  row <- as_index row ;;
  before <- np_gt start (st_step st) ;;
  ak <- (if before then
           a <- np_sub start (st_step st) ;;
           a <- as_index a ;;
           b <- as_index end_ ;;
           arr <- reshape2 (py_slice (data tiff) a b) depth row ;;
           Ok (arr, st_step st)
         else
           room <- np_sub (PyInt (Z.of_nat (length (data tiff))))
                          (st_step st) ;;
           fits <- np_le end_ room ;;
           if fits then
             a <- as_index start ;;
             b <- np_add end_ (st_step st) ;;
             b <- as_index b ;;
             arr <- reshape2 (py_slice (data tiff) a b) depth row ;;
             Ok (arr, PyInt 0)
           else Raise (NotImplementedError "start, end, step")) ;;
  planar <- eq_scalar (planar_config p) (PNum (PyInt 2)) ;;
  if planar then
    if is_lsm env tiff then
      names <- (if subfile_type =? 0 then Ok (lsm_channel_names env tiff)
                else if subfile_type =? 1 then
                  three <- np_eq (samples_per_pixel p) (PyInt 3) ;;
                  py_assert three ;;
                  Ok ["red"; "green"; "blue"]%string
                else Raise (NotImplementedError "subfile_type")) ;;
      samples <- planar_samples p (fst ak) depth (snd ak) ;;
      Ok (samples, names)
    else Raise (NotImplementedError "planar_config, self.is_lsm")
  else
    chunky <- eq_scalar (planar_config p) (PNum (PyInt 1)) ;;
    if chunky then
      bytes <- chunky_bytes p ;;
      samples <- chunky_samples p (fst ak) depth (snd ak) bytes ;;
      Ok (samples, sample_names)
    else Raise (NotImplementedError "planar_config").

(** [TIFFfile.get_samples(subfile_type)], with [verbose] false. *)
Definition get_samples (tiff : TIFFfile) (subfile_type : Z)
  : result (list sample * list string) :=
  ifd_lst <- select_ifds tiff subfile_type ;;
  st <- foldM (loop_body tiff) ifd_lst initial_state ;;
  match st_first st with
  | None => Raise NameError
  | Some p =>
      n <- as_index (samples_per_pixel p) ;;
      let sample_names :=
        map (fun j => ("sample" ++ to_dec j)%string) (range n) in
      if negb (can_return_memmap st)
      then slow_path tiff st p sample_names
      else fast_path tiff subfile_type st p sample_names
  end.

End Reader.

(** ** Files and environments to run the reader on *)

Module Files.

(** The rows of [tag_value2name] for the tags the module names. *)
Definition tag_names : list (Z * string) :=
  [(254, "NewSubfileType"); (256, "ImageWidth"); (257, "ImageLength");
   (258, "BitsPerSample"); (259, "Compression"); (273, "StripOffsets");
   (277, "SamplesPerPixel"); (278, "RowsPerStrip");
   (279, "StripByteCounts"); (284, "PlanarConfiguration");
   (339, "SampleFormat")]%string.

(** A machine of the given byte order, with no LSM support registered
    and a codec that is never called on uncompressed files. *)
Definition plain_env (order : endianness) : environment :=
  {| byteorder := order;
     tag_value2name :=
       fun t => option_map snd (find (fun p => fst p =? t) tag_names);
     init_hooks := [];
     finalize_hooks := [];
     is_lsm := fun _ => false;
     lsm_channel_names := fun _ => [];
     tif_lzw_decode := fun d _ => d |}.

Definition byte_of (z : Z) : byte :=
  match Byte.of_N (Z.to_N (z mod 256)) with
  | Some b => b
  | None => x00
  end.

(** Little-endian fields, as a writer on a little-endian machine lays
    them out. *)
Definition u16 (z : Z) : list byte := [byte_of z; byte_of (z / 256)].
Definition u32 (z : Z) : list byte := u16 z ++ u16 (z / 65536).

Definition header_bytes (first_ifd : Z) : list byte :=
  [x49; x49] ++ u16 42 ++ u32 first_ifd.

(** One 12-byte entry: tag, type, count, value or offset. *)
Definition entry_bytes (e : Z * Z * Z * Z) : list byte :=
  let '(t, ty, c, v) := e in u16 t ++ u16 ty ++ u32 c ++ u32 v.

Definition directory_bytes (es : list (Z * Z * Z * Z)) (next : Z)
  : list byte :=
  u16 (Z.of_nat (length es)) ++ flat_map entry_bytes es ++ u32 next.

(** A chunky image of 2 by 2 pixels with two 8-bit samples per pixel,
    uncompressed, in one strip that holds the eight bytes [px]. *)
Definition two_channel_file (px : list byte) : list byte :=
  header_bytes 8
  ++ directory_bytes
       [(256, 3, 1, 2); (257, 3, 1, 2); (258, 3, 2, 110); (259, 3, 1, 1);
        (273, 4, 1, 114); (277, 3, 1, 2); (279, 4, 1, 8); (284, 3, 1, 1)] 0
  ++ u16 8 ++ u16 8
  ++ px.

(** A directory of a 1 by 1 image of one 8-bit sample whose strip of
    [nbytes] bytes starts at [strip]; [extra] are more entries. *)
Definition gray_directory (wid strip nbytes : Z)
  (extra : list (Z * Z * Z * Z)) (next : Z) : list byte :=
  directory_bytes
    ([(256, 3, 1, wid); (257, 3, 1, 1); (258, 3, 1, 8); (259, 3, 1, 1);
      (273, 4, 1, strip); (279, 4, 1, nbytes); (284, 3, 1, 1)] ++ extra)
    next.

(** Two directories; the strip of the second one (byte 188) lies before
    the end of the strip of the first one (byte 189). *)
Definition overlapping_file : list byte :=
  header_bytes 8
  ++ gray_directory 1 189 1 [] 98
  ++ gray_directory 1 188 1 [] 0
  ++ [x11; x22].

(** Three directories with strips one after the other; the third one
    declares the width [w2]. *)
Definition three_slice_file (w2 : Z) : list byte :=
  header_bytes 8
  ++ gray_directory 1 278 1 [] 98
  ++ gray_directory 1 279 1 [] 188
  ++ gray_directory w2 280 1 [] 0
  ++ [x11; x22; x33].

(** A directory without entries whose next-directory offset is its own
    offset. *)
Definition cyclic_file : list byte :=
  header_bytes 8 ++ directory_bytes [] 8.

(** Two bytes 01 02, then (from byte 2 on) a header that declares the
    big-endian order, and a directory without entries. *)
Definition big_header_file : list byte :=
  [x01; x02] ++ [x4d; x4d] ++ u16 42 ++ u32 8 ++ directory_bytes [] 0.

Definition little_header_file : list byte :=
  [x01; x02] ++ header_bytes 8 ++ directory_bytes [] 0.

(** An entry of type code 13, which no table resolves. *)
Definition unknown_type_file : list byte :=
  header_bytes 8 ++ directory_bytes [(256, 13, 1, 2)] 0.

(** An image of 1 by 2 pixels in two strips of one byte each, the
    second strip [gap] bytes after the end of the first one. *)
Definition two_strip_file (gap : Z) : list byte :=
  header_bytes 8
  ++ directory_bytes
       [(256, 3, 1, 1); (257, 3, 1, 2); (258, 3, 1, 8); (259, 3, 1, 1);
        (273, 4, 2, 110); (278, 3, 1, 1); (279, 4, 2, 118);
        (284, 3, 1, 1)] 0
  ++ u32 126 ++ u32 (127 + gap)
  ++ u32 1 ++ u32 1
  ++ repeat x55 (Z.to_nat (2 + gap)).

(** A directory that holds nothing but the strips of the given offsets
    and byte counts, as LONG arrays. *)
Definition strips_ifd (offs nbs : list Z) : IFD :=
  let entry t name l :=
    {| tag := t; type := 4; count := Z.of_nat (length l); offset := Some 0;
       value := Some (NArray uint32 l); bytes := 4; tag_name := name;
       type_name := "LONG"; entry_memory_usage := [] |} in
  mkIFD [entry 273 "StripOffsets"%string offs;
         entry 279 "StripByteCounts"%string nbs].

Definition opened (order : endianness) (fuel : nat) (file : list byte)
  (first_byte : Z) : option (result TIFFfile) :=
  TIFFfile_init (plain_env order) fuel file "r" first_byte.

(** Big-endian fields, as a writer on a big-endian machine lays them
    out; a SHORT stored in the value field of an entry takes its first
    two bytes. *)
Definition u16_be (z : Z) : list byte := rev (u16 z).
Definition u32_be (z : Z) : list byte := rev (u32 z).

Definition header_bytes_be (first_ifd : Z) : list byte :=
  [x4d; x4d] ++ u16_be 42 ++ u32_be first_ifd.

Definition entry_bytes_be (e : Z * Z * Z * Z) : list byte :=
  let '(t, ty, c, v) := e in
  u16_be t ++ u16_be ty ++ u32_be c
  ++ (if (ty =? 3) && (c =? 1) then u16_be v ++ [x00; x00] else u32_be v).

Definition directory_bytes_be (es : list (Z * Z * Z * Z)) (next : Z)
  : list byte :=
  u16_be (Z.of_nat (length es)) ++ flat_map entry_bytes_be es ++ u32_be next.

Definition gray_directory_be (wid strip nbytes : Z) (next : Z)
  : list byte :=
  directory_bytes_be
    [(256, 3, 1, wid); (257, 3, 1, 1); (258, 3, 1, 8); (259, 3, 1, 1);
     (273, 4, 1, strip); (279, 4, 1, nbytes); (284, 3, 1, 1)]
    next.

(** The file [three_slice_file 1] as a big-endian writer writes it:
    the same three directories at the same offsets, every field with
    its bytes in the other order. *)
Definition three_slice_file_be : list byte :=
  header_bytes_be 8
  ++ gray_directory_be 1 278 1 98
  ++ gray_directory_be 1 279 1 188
  ++ gray_directory_be 1 280 1 0
  ++ [x11; x22; x33].

(** An image of 100 by 150 pixels of one 8-bit sample in three strips
    of 50 rows (5000 bytes) each, offsets and byte counts stored as
    SHORT arrays.  The first strip lies at the end of the file, from
    byte 61000 to byte 66000; the other two follow each other from byte
    464 on. *)
Definition wrapping_strips_file : list byte :=
  header_bytes 8
  ++ directory_bytes
       [(256, 3, 1, 100); (257, 3, 1, 150); (258, 3, 1, 8); (259, 3, 1, 1);
        (273, 3, 3, 110); (278, 3, 1, 50); (279, 3, 3, 116);
        (284, 3, 1, 1)] 0
  ++ u16 61000 ++ u16 464 ++ u16 5464
  ++ u16 5000 ++ u16 5000 ++ u16 5000
  ++ repeat x00 (Z.to_nat 342)
  ++ repeat x55 (Z.to_nat 10000)
  ++ repeat x00 (Z.to_nat 50536)
  ++ repeat x55 (Z.to_nat 5000).

(** A directory of a chunky image of 1 by 1 pixel with three samples
    per pixel, uncompressed, in one strip of three bytes at [strip];
    BitsPerSample has [bits_count] values, stored at (or, for one
    value, equal to) [bits]. *)
Definition rgb_directory (bits_count bits strip next : Z) : list byte :=
  directory_bytes
    [(256, 3, 1, 1); (257, 3, 1, 1); (258, 3, bits_count, bits);
     (259, 3, 1, 1); (273, 4, 1, strip); (277, 3, 1, 3); (279, 4, 1, 3);
     (284, 3, 1, 1)] next.

(** Two such directories with strips one after the other; the first one
    declares the bits per sample 8, 8, 8 (three values, stored at byte
    212), the second one the single value 8. *)
Definition mixed_bits_file : list byte :=
  header_bytes 8
  ++ rgb_directory 3 212 218 110
  ++ rgb_directory 1 8 221 0
  ++ u16 8 ++ u16 8 ++ u16 8
  ++ [x11; x22; x33]
  ++ [x44; x55; x66].

End Files.

(** ** Notions the properties are stated with *)

(** The test [self.count==1 and 1<=bytes<=4] on the entry built. *)
Definition stored_inline (e : IFDEntry) : bool :=
  (count e =? 1) && (1 <=? bytes e) && (bytes e <=? 4).

(** [chain env file o dirs]: from the offset [o] on, the file holds the
    directories [dirs] (each with its offset), every one linked to the
    next by a nonzero next-directory offset, the last one by 0. *)
Inductive chain (env : environment) (file : list byte)
  : Z -> list (Z * IFD) -> Prop :=
| chain_end : chain env file 0 []
| chain_link (o n : Z) (ifd : IFD) (next : Z) (rest : list (Z * IFD)) :
    o <> 0 ->
    directory_at env file o = Ok (n, ifd, next) ->
    chain env file next rest ->
    chain env file o ((o, ifd) :: rest).

(** [closed_cycle env file cyc]: [cyc] is a set of nonzero offsets, each
    of a directory that decodes and whose next offset is in the set
    again: the next offsets run in a cycle. *)
Definition closed_cycle (env : environment) (file : list byte)
  (cyc : Z -> Prop) : Prop :=
  forall o, cyc o ->
    o <> 0 /\ exists n ifd next,
                directory_at env file o = Ok (n, ifd, next) /\ cyc next.

(** Opening the file returns, with a result or with an exception. *)
Definition opening_returns (env : environment) (file : list byte)
  (first_byte : Z) : Prop :=
  exists fuel r, TIFFfile_init env fuel file "r" first_byte = Some r.

(** The byte ranges [(start, end)] of strips given by their offsets and
    byte counts. *)
Definition strip_ranges (offs nbs : list Z) : list (Z * Z) :=
  map (fun on => (fst on, fst on + snd on)) (combine offs nbs).

(** The contiguity of the spec, on the list of byte ranges: the end of
    each range is the start of the next one. *)
Fixpoint ranges_contiguous (rs : list (Z * Z)) : bool :=
  match rs with
  | [] => true
  | r :: rest =>
      match rest with
      | [] => true
      | r' :: _ => (snd r =? fst r') && ranges_contiguous rest
      end
  end.

(** The byte ranges with the ends as [is_contiguous] computes them: the
    sum of an offset and a byte count is a numpy scalar of the integer
    type [dp] of the two arrays and wraps around at its width. *)
Definition numpy_strip_ranges (dp : dtype) (offs nbs : list Z)
  : list (Z * Z) :=
  map (fun on => (fst on, wrap dp (fst on + snd on))) (combine offs nbs).

(** The first directory of a file opened on a little-endian machine. *)
Definition first_directory (file : list byte) : IFD :=
  match Files.opened little 1 file 0 with
  | Some (Ok tiff) => nth 0 (IFD_list tiff) (mkIFD [])
  | _ => mkIFD []
  end.

(** The directory has an entry of this tag name, with this value. *)
Definition declares (ifd : IFD) (name : string) (v : pyval) : Prop :=
  exists e, IFD_get ifd name = Some e /\ entry_value e = Ok v.

Definition is_int (d : dtype) : bool :=
  match int_kind d with Some _ => true | None => false end.

(** Two declared values that the comparison [==] of numpy finds
    different: two integers that differ; two arrays of integers of one
    length that differ in an element; an array of integers and an
    integer that is not equal to every element of the array (the
    integer is compared with each element).  An array against an
    integer equal to all its elements is not found different, whatever
    the length of the array. *)
Definition different (v0 v : pyval) : Prop :=
  match v0, v with
  | PNum a, PNum b =>
      is_int_num a = true /\ is_int_num b = true /\ num_val a <> num_val b
  | PArr d0 l0, PArr d l =>
      is_int d0 = true /\ is_int d = true /\ length l0 = length l /\ l0 <> l
  | PArr d0 l0, PNum b =>
      is_int d0 = true /\ is_int_num b = true
      /\ Exists (fun z => z <> num_val b) l0
  | _, _ => False
  end.

(** The directory [ifd] declares a width, a height, a planar
    configuration or bits per sample that the comparison finds
    different from that of the directory [s0]. *)
Definition declares_other (s0 ifd : IFD) : Prop :=
  exists name v0 v,
    In name ["ImageWidth"; "ImageLength"; "PlanarConfiguration";
             "BitsPerSample"]%string
    /\ declares s0 name v0 /\ declares ifd name v /\ different v0 v.

(** The tag is absent from the directory or holds one integer. *)
Definition plain_tag (ifd : IFD) (name : string) : Prop :=
  IFD_get ifd name = None
  \/ exists n, declares ifd name (PNum n) /\ is_int_num n = true.

(** The bits per sample of [s0] are an integer or an array of integers,
    and those of [ifd] are absent or of the same kind (an array of the
    same length). *)
Definition plain_bits (s0 ifd : IFD) : Prop :=
  exists v0,
    declares s0 "BitsPerSample" v0
    /\ match v0 with
       | PNum a =>
           is_int_num a = true
           /\ (IFD_get ifd "BitsPerSample" = None
               \/ exists b, declares ifd "BitsPerSample" (PNum b)
                            /\ is_int_num b = true)
       | PArr d0 l0 =>
           is_int d0 = true
           /\ (IFD_get ifd "BitsPerSample" = None
               \/ (exists b, declares ifd "BitsPerSample" (PNum b)
                             /\ is_int_num b = true)
               \/ exists d l, declares ifd "BitsPerSample" (PArr d l)
                              /\ is_int d = true /\ length l0 = length l)
       | PNone => False
       end.

(** The four tags that the later turns of the loop compare are of the
    plain kind in [ifd] (and the last two in [s0]). *)
Definition plain_slice (s0 ifd : IFD) : Prop :=
  plain_tag ifd "ImageWidth" /\ plain_tag ifd "ImageLength"
  /\ plain_tag s0 "PlanarConfiguration"
  /\ plain_tag ifd "PlanarConfiguration"
  /\ plain_bits s0 ifd.

(** What the loop keeps of its first directory [s0]. *)
Definition records_first (s0 : IFD) (p : params) : Prop :=
  IFD_get_value s0 "ImageWidth" PNone = Ok (PNum (width p))
  /\ IFD_get_value s0 "ImageLength" PNone = Ok (PNum (length_ p))
  /\ IFD_get_value s0 "PlanarConfiguration" PNone = Ok (planar_config p)
  /\ IFD_get_value s0 "BitsPerSample" PNone = Ok (bits_per_sample p)
  /\ is_int_num (width p) = true
  /\ is_int_num (length_ p) = true
  /\ is_int_num (strip_length p) = true.

(** ** The other functions of the module *)

(** The bytes of a number of [n] bytes, least significant first. *)
Fixpoint le_bytes (n : nat) (z : Z) : list byte :=
  match n with
  | O => []
  | S n' => Files.byte_of z :: le_bytes n' (z / 256)
  end.

(** [a.tostring()]: the bytes of the elements, in the machine's order. *)
Definition tostring (env : environment) (a : npvalue) : list byte :=
  let enc d z :=
    let bs := le_bytes (Z.to_nat (itemsize d)) z in
    match byteorder env with little => bs | big => rev bs end in
  match a with
  | NScalar d z => enc d z
  | NArray d zs => flat_map (enc d) zs
  end.

(** The loop [while self.data[offset+i]: i += 1] of [get_string].  Every
    turn indexes the data once, and the index grows by one from
    [offset] on until it leaves the data, which is after at most
    [len(data) + |offset| + 1] turns; [fuel] counts them. *)
Fixpoint scan_zero (fuel : nat) (data : list byte) (offset i : Z)
  : result Z :=
  match fuel with
  | O => Raise IndexError
  | S fuel' =>
      b <- py_index data (offset + i) ;;
      if byte_val b =? 0 then Ok i
      else scan_zero fuel' data offset (i + 1)
  end.

(** [TIFFfile.get_string]; [None] is the default of [length]. *)
Definition get_string (env : environment) (data : list byte) (offset : Z)
  (length : option Z) : result (list byte) :=
  len <- (match length with
          | Some n => Ok n
          | None =>
              scan_zero (S (List.length data + Z.to_nat (Z.abs offset)))
                        data offset 0
          end) ;;
  values <- get_values env data offset (TName "BYTE") len ;;
  match values with
  | Some a => Ok (tostring env a)
  | None => Raise AttributeError
  end.

(** The range of the values of an element type. *)
Definition in_range (d : dtype) (v : Z) : Prop :=
  match int_kind d with
  | Some (false, b) => 0 <= v < 2 ^ b
  | Some (true, b) => - 2 ^ (b - 1) <= v < 2 ^ (b - 1)
  | None => 0 <= v < 2 ^ (8 * itemsize d)
  end.

(** [IFD.append] and [IFD.__len__] *)
Definition IFD_append (ifd : IFD) (e : IFDEntry) : IFD :=
  mkIFD (entries ifd ++ [e]).

Definition IFD_len (ifd : IFD) : nat := length (entries ifd).

(** What an entry holds apart from its recorded memory areas. *)
Definition entry_fields (e : IFDEntry)
  : Z * Z * Z * option Z * option npvalue * Z * string * string :=
  (tag e, type e, count e, offset e, value e, bytes e, tag_name e,
   type_name e).

(** The memory area [__init__] records for the directory at [o] with
    [n] entries: the count, the entries and the next offset. *)
Definition directory_area (env : environment) (file : list byte)
  (od : Z * IFD) (a : region) : Prop :=
  exists n, get_uint16 env file (fst od) = Ok n
            /\ fst (fst a) = fst od
            /\ snd (fst a) = fst od + 2 + n * 12 + 4.

(** How [IFD.finalize] may change an entry when no hook but
    [StripOffsets_hook] is registered: the fields stay, memory areas
    are added at the end, and only to a StripOffsets entry. *)
Definition finalized (e e' : IFDEntry) : Prop :=
  entry_fields e' = entry_fields e
  /\ (tag_name e <> "StripOffsets"%string -> e' = e)
  /\ exists rs, entry_memory_usage e' = entry_memory_usage e ++ rs.

(** The order of Python on the tuples [(start, end, resource)]: by the
    start, then by the end, then by the text. *)
Definition region_leb (a b : region) : bool :=
  let '(s1, e1, r1) := a in
  let '(s2, e2, r2) := b in
  (s1 <? s2)
  || ((s1 =? s2) && ((e1 <? e2) || ((e1 =? e2) && String.leb r1 r2))).

Fixpoint insert_region (r : region) (l : list region) : list region :=
  match l with
  | [] => [r]
  | x :: l' => if region_leb r x then r :: l else x :: insert_region r l'
  end.

(** [l.sort()].  The order is total and two tuples that are each below
    the other are equal, so the sorted list does not depend on how it
    is sorted ([sorted_regions_unique] below). *)
Definition sort_regions (l : list region) : list region :=
  fold_right insert_region [] l.

(** The loop of [check_memory_usage], with its variables [last_end]
    ([None] at first) and [ok]. *)
Fixpoint check_regions (last_end : option Z) (ok : bool) (l : list region)
  : bool :=
  match l with
  | [] => ok
  | (start, end_, _) :: l' =>
      let ok' :=
        match last_end with
        | None => ok
        | Some le =>
            if le =? 0 then ok
            else if negb (le =? start) then false else ok
        end in
      check_regions (Some end_) ok' l'
  end.

(** The areas [check_memory_usage] collects: those of the file, then
    those of every directory. *)
Definition recorded_areas (tiff : TIFFfile) : list region :=
  memory_usage tiff ++ flat_map IFD_memory_usage (IFD_list tiff).

(** [TIFFfile.check_memory_usage]: the value it returns ([verbose]
    only adds printing). *)
Definition check_memory_usage (tiff : TIFFfile) : bool :=
  check_regions None true (sort_regions (recorded_areas tiff)).

(** Two areas that follow each other in the sorted list pass the test
    of the loop: the first one ends at 0 (the test is skipped then) or
    where the second one starts. *)
Definition joins (a b : region) : Prop :=
  snd (fst a) = 0 \/ snd (fst a) = fst (fst b).






(** The nested lists of a channel have the shape it declares: as many
    planes as its depth, rows per plane as its length, elements per row
    as its width. *)
Definition well_shaped (s : sample) : Prop :=
  let '(depth, len, wid) := s_shape s in
  length (s_array s) = Z.to_nat depth
  /\ Forall (fun plane =>
               length plane = Z.to_nat len
               /\ Forall (fun row => length row = Z.to_nat wid) plane)
            (s_array s).

(** [strips_per_image] of [get_samples] for the first directory. *)
Definition strips_per_image_of (env : environment) (tiff : TIFFfile)
  (s0 : IFD) : Z :=
  match IFD_get_value s0 "StripOffsets" PNone with
  | Ok (PArr _ offs) => if is_lsm env tiff then 1 else Z.of_nat (length offs)
  | _ => 1
  end.

(** ** One-strip gray images

    The directory of an uncompressed 8-bit image stored in one strip, with
    the entries as [IFDEntry] holds them for values stored inline: the sizes
    and the strip as LONG, the rest as SHORT. *)
Definition gray_entry (t ty width : Z) (name ty_name : string)
  (d : dtype) (z : Z) : IFDEntry :=
  {| tag := t; type := ty; count := 1; offset := None;
     value := Some (NScalar d z); bytes := width;
     tag_name := name; type_name := ty_name;
     entry_memory_usage := [] |}.

Definition gray_ifd (w h o : Z) : IFD :=
  mkIFD [gray_entry 256 4 4 "ImageWidth" "LONG" uint32 w;
         gray_entry 257 4 4 "ImageLength" "LONG" uint32 h;
         gray_entry 258 3 2 "BitsPerSample" "SHORT" uint16 8;
         gray_entry 259 3 2 "Compression" "SHORT" uint16 1;
         gray_entry 273 4 4 "StripOffsets" "LONG" uint32 o;
         gray_entry 279 4 4 "StripByteCounts" "LONG" uint32 (w * h);
         gray_entry 284 3 2 "PlanarConfiguration" "SHORT" uint16 1].

Definition gray_tiff (data : list byte) (w h o : Z) : TIFFfile :=
  {| first_byte := 0; data := data; memory_usage := [];
     endian := little; IFD0 := 0; IFD_list := [gray_ifd w h o] |}.

(** What the directory loop of [get_samples] has collected after the one
    directory of [gray_tiff]. *)
Definition gray_state (w h o : Z) : loop_state :=
  {| st_l := [(Np uint32 o, Np uint32 (o + w * h))];
     st_i := 1; st_step := PyInt 0; can_return_memmap := true;
     st_first :=
       Some {| compression := PNum (Np uint16 1);
               width := Np uint32 w;
               length_ := Np uint32 h;
               samples_per_pixel := PyInt 1;
               planar_config := PNum (Np uint16 1);
               bits_per_sample := PNum (Np uint16 8);
               strips_per_image := 1;
               dtype_lst := [(f_uint, 8)];
               bits_per_pixel := Np uint16 8;
               bytes_per_pixel := Np int64 1;
               bytes_per_row := Np int64 w;
               strip_length := Np uint32 (w * h);
               bytes_per_image := Np int64 (h * w);
               rows_per_strip := Np int64 h |} |}.

(** * Properties *)

(** ** Sequences *)

Lemma bind_ok {A B} (r : result A) (k : A -> result B) (b : B) :
  bind r k = Ok b -> exists a, r = Ok a /\ k a = Ok b.
Proof.
  destruct r as [a | e | ]; simpl; intros H; try discriminate.
  exists a; split; [reflexivity | exact H].
Qed.

Lemma py_slice_length {A} (xs : list A) (a b : Z) :
  0 <= a <= b -> b <= Z.of_nat (length xs) ->
  Z.of_nat (length (py_slice xs a b)) = b - a.
Proof.
  intros Hab Hb. unfold py_slice, norm_index.
  destruct (a <? 0) eqn:Ha; [apply Z.ltb_lt in Ha; lia | ].
  destruct (b <? 0) eqn:Hb0; [apply Z.ltb_lt in Hb0; lia | ].
  rewrite (Z.min_l a), (Z.min_l b) by lia.
  rewrite length_firstn, length_skipn. lia.
Qed.

Lemma py_slice_prefix {A} (xs ys : list A) (n : Z) :
  n = Z.of_nat (length xs) -> py_slice (xs ++ ys) 0 n = xs.
Proof.
  intros ->. unfold py_slice, norm_index.
  rewrite length_app, Nat2Z.inj_add. simpl (0 <? 0).
  destruct (Z.of_nat (length xs) <? 0) eqn:H; [apply Z.ltb_lt in H; lia | ].
  rewrite Z.min_l, Z.min_l by lia. simpl skipn.
  rewrite Z.sub_0_r, Nat2Z.id, firstn_app, Nat.sub_diag, firstn_all.
  simpl. apply app_nil_r.
Qed.

Lemma py_index_nth {A} (xs : list A) (i : Z) (x : A) :
  0 <= i -> nth_error xs (Z.to_nat i) = Some x -> py_index xs i = Ok x.
Proof.
  intros Hi Hn. unfold py_index.
  assert (Hlt : (Z.to_nat i < length xs)%nat)
    by (apply nth_error_Some; congruence).
  destruct (i <? 0) eqn:H0; [apply Z.ltb_lt in H0; lia | ].
  destruct (i <? 0) eqn:H1; [discriminate | ].
  destruct (Z.of_nat (length xs) <=? i) eqn:H2;
    [apply Z.leb_le in H2; lia | ].
  simpl. now rewrite Hn.
Qed.

Lemma chunks_aux_length {A} (w : nat) :
  (0 < w)%nat ->
  forall (k : nat) (xs : list A) (fuel : nat),
    length xs = (k * w)%nat -> (length xs <= fuel)%nat ->
    length (chunks_aux fuel w xs) = k.
Proof.
  intros Hw. induction k as [ | k IH]; intros xs fuel Hlen Hfuel.
  - destruct xs; [ | discriminate]. destruct fuel; reflexivity.
  - rewrite Nat.mul_succ_l in Hlen.
    destruct xs as [ | x xs]; [cbn [length] in Hlen; lia | ].
    destruct fuel as [ | fuel]; [cbn [length] in Hfuel; lia | ].
    cbn [chunks_aux]. cbn [length]. f_equal. apply IH.
    + rewrite length_skipn. lia.
    + rewrite length_skipn. lia.
Qed.

Lemma chunks_length {A} (w k : nat) (xs : list A) :
  (0 < w)%nat -> length xs = (k * w)%nat -> length (chunks w xs) = k.
Proof.
  intros Hw Hlen. unfold chunks. now apply chunks_aux_length.
Qed.

Lemma itemsize_pos (d : dtype) : 0 < itemsize d.
Proof. destruct d; reflexivity. Qed.

(** A view holds as many elements as its bytes make. *)
Lemma np_view_length env (d : dtype) (s : list byte) (xs : list Z) :
  np_view env d s = Ok xs ->
  Z.of_nat (length xs) * itemsize d = Z.of_nat (length s).
Proof.
  unfold np_view. pose proof (itemsize_pos d) as Hpos.
  destruct (Z.of_nat (length s) mod itemsize d =? 0) eqn:Hmod;
    [ | discriminate].
  intros H; injection H as <-. apply Z.eqb_eq in Hmod.
  apply Z.mod_divide in Hmod; [ | lia]. destruct Hmod as [k Hk].
  rewrite length_map.
  rewrite (chunks_length (Z.to_nat (itemsize d)) (Z.to_nat k)); nia.
Qed.

(** ** Typed reads and byte order *)

Lemma TIFFfile_init_data env fuel file mode fb tiff :
  TIFFfile_init env fuel file mode fb = Some (Ok tiff) -> data tiff = file.
Proof.
  unfold TIFFfile_init. destruct (negb (mode =? "r")%string); [discriminate | ].
  destruct (length file =? 0)%nat; [discriminate | ].
  destruct (read_header env file fb) as [[en i0] | e | ]; try discriminate.
  destruct (walk env fuel file i0 _ _) as [[[ifds us] | e | ] | ];
    try discriminate.
  intros H; injection H as <-. reflexivity.
Qed.

Lemma get_uint16_at_0 env (b0 b1 : byte) (rest : list byte) :
  get_uint16 env (b0 :: b1 :: rest) 0
  = Ok (le_value (match byteorder env with
                  | little => [b0; b1]
                  | big => [b1; b0]
                  end)).
Proof.
  unfold get_uint16, get_scalar. simpl itemsize.
  change (b0 :: b1 :: rest) with ([b0; b1] ++ rest).
  rewrite py_slice_prefix by reflexivity.
  unfold np_view, decode_elem. destruct (byteorder env); reflexivity.
Qed.

(** C6, the claim at a concrete file: the header at byte 2 declares the
    big-endian order and the file opens on a little-endian machine, yet
    the bytes 01 02 at offset 0 are not read as 0x0102. *)
Lemma C6_big_header_not_honoured :
  ~ (forall tiff,
        Files.opened little 1 Files.big_header_file 2 = Some (Ok tiff) ->
        endian tiff = big ->
        get_uint16 (Files.plain_env little) (data tiff) 0 = Ok 0x0102).
Proof.
  intros H.
  destruct (Files.opened little 1 Files.big_header_file 2)
    as [[tiff | e | ] | ] eqn:Hopen; try (vm_compute in Hopen; discriminate).
  specialize (H tiff eq_refl).
  vm_compute in Hopen. injection Hopen as <-.
  specialize (H eq_refl). vm_compute in H. discriminate.
Qed.

(** A file written in the big-endian order (magic number 00 2A) is
    turned down on a little-endian machine, for its magic number. *)
Example big_endian_file_on_little_machine :
  Files.opened little 1
    ([x4d; x4d; x00; x2a; x00; x00; x00; x08; x00; x00; x00; x00; x00; x00])
    0
  = Some (Raise (ValueError "wrong magic number for TIFF file")).
Proof. vm_compute. reflexivity. Qed.

(** C6, as the code has it: a typed read decodes in the byte order of
    the machine, whatever order the header of the opened file declares;
    the bytes 01 02 at offset 0 give 0x0201 on a little-endian machine
    and 0x0102 on a big-endian one. *)
Theorem C6_reads_use_native_order env fuel file fb tiff rest :
  TIFFfile_init env fuel file "r" fb = Some (Ok tiff) ->
  file = x01 :: x02 :: rest ->
  get_uint16 env (data tiff) 0
  = Ok (match byteorder env with little => 0x0201 | big => 0x0102 end).
Proof.
  intros Hopen ->. rewrite (TIFFfile_init_data _ _ _ _ _ _ Hopen).
  rewrite get_uint16_at_0. destruct (byteorder env); reflexivity.
Qed.

Lemma C6_reads_use_native_order_witness :
  exists tiff,
    Files.opened little 1 Files.big_header_file 2 = Some (Ok tiff)
    /\ endian tiff = big
    /\ get_uint16 (Files.plain_env little) (data tiff) 0 = Ok 0x0201.
Proof.
  eexists. split; [vm_compute; reflexivity | ].
  split; [reflexivity | ].
  apply (C6_reads_use_native_order (Files.plain_env little) 1
           Files.big_header_file 2 _ (skipn 2 Files.big_header_file));
    vm_compute; reflexivity.
Defined.

(** ** get_values on a type it cannot resolve *)

(** C7, the claim at a concrete call: for the type code 13 the call
    raises nothing. *)
Lemma C7_unknown_type_raises_nothing :
  ~ (exists e,
        get_values (Files.plain_env little) Files.unknown_type_file 2
                   (TCode 13) 1 = Raise e).
Proof. intros [e H]. vm_compute in H. discriminate. Qed.

Lemma type_tables_agree (c : Z) :
  match type2dtype c with
  | Some d => type2bytes c = Some (itemsize d)
  | None => type2bytes c = None
  end.
Proof.
  destruct c as [ | p | p]; try reflexivity.
  do 4 (destruct p as [p | p | ]; try reflexivity).
Qed.

(** C7, as the code has it: for a type code without element type or
    byte width [get_values] returns None and raises nothing,
    [get_value] hands the None on, and the entry that [IFDEntry.__init__]
    builds from such a type code has no value. *)
Theorem C7_unknown_type_gives_none env file off c n :
  type2dtype c = None \/ type2bytes c = None ->
  get_values env file off (TCode c) n = Ok None
  /\ get_value env file off (TCode c) = Ok None
  /\ forall entry_offset e,
       IFDEntry_init env file entry_offset = Ok e -> type e = c ->
       value e = None /\ offset e <> None.
Proof.
  intros Hc.
  assert (Hb : type2bytes c = None).
  { destruct Hc as [Hd | Hb]; [ | exact Hb].
    pose proof (type_tables_agree c) as H. now rewrite Hd in H. }
  assert (Hv : forall o k, get_values env file o (TCode c) k = Ok None).
  { intros o k. unfold get_values. rewrite Hb.
    destruct (type2dtype c); reflexivity. }
  split; [apply Hv | ]. split; [unfold get_value; now rewrite Hv | ].
  intros eo e He Hty. unfold IFDEntry_init in He.
  apply bind_ok in He as (t0 & _ & He). apply bind_ok in He as (ty0 & _ & He).
  apply bind_ok in He as (c0 & _ & He). apply bind_ok in He as (ov & Hov & He).
  injection He as <-. cbn [type value offset] in *. rewrite Hty, Hb in Hov.
  change (1 <=? 0) with false in Hov.
  rewrite andb_false_r in Hov. cbn [andb] in Hov.
  apply bind_ok in Hov as (o & _ & Hov). rewrite Hv in Hov.
  injection Hov as <-. split; [reflexivity | discriminate].
Qed.

Lemma C7_unknown_type_gives_none_witness :
  get_values (Files.plain_env little) Files.unknown_type_file 2 (TCode 13) 1
  = Ok None
  /\ (e <- IFDEntry_init (Files.plain_env little) Files.unknown_type_file 10 ;;
      Ok (type e, value e, offset e)) = Ok (13, None, Some 2).
Proof.
  split.
  - apply (C7_unknown_type_gives_none (Files.plain_env little)
             Files.unknown_type_file 2 13 1).
    left. reflexivity.
  - vm_compute. reflexivity.
Defined.

(** ** The decoding rule of IFDEntry.__init__ *)

(** C2, the claim at a concrete entry: the entry at byte 10 of a file
    with a type code 13 is not stored inline, and it gets no value,
    where the claim promises a typed view. *)
Lemma C2_unknown_type_entry_has_no_view :
  (e <- IFDEntry_init (Files.plain_env little) Files.unknown_type_file 10 ;;
   Ok (stored_inline e, value e, entry_memory_usage e))
  = Ok (false, None, [(2, 2, "ImageWidth"%string)]).
Proof. vm_compute. reflexivity. Qed.

Lemma get_values_view env file o c d n :
  type2dtype c = Some d ->
  get_values env file o (TCode c) n
  = (zs <- np_view env d (py_slice file o (o + itemsize d * n)) ;;
     Ok (Some (NArray d zs))).
Proof.
  intros Hd. unfold get_values. pose proof (type_tables_agree c) as Hb.
  rewrite Hd in Hb |- *. now rewrite Hb.
Qed.

(** C2, as the code has it.  An entry with count 1 and a byte width
    from 1 to 4 has no offset and no memory area, and its value is the
    scalar read from the value field (byte 8 of the entry).  Any other
    entry has the signed 32-bit number of the value field as its offset
    and one memory area from there, [bytes * count] long, under its tag
    name; its value is the view of the bytes of that range when the
    type code resolves (of [count] elements when the range lies in the
    file), and no value is set when the type code does not resolve. *)
Theorem C2_decoding_rule env file entry_offset e :
  IFDEntry_init env file entry_offset = Ok e ->
  bytes e = match type2bytes (type e) with Some b => b | None => 0 end
  /\ if stored_inline e then
       offset e = None
       /\ entry_memory_usage e = []
       /\ exists d zs z,
            type2dtype (type e) = Some d
            /\ np_view env d (py_slice file (entry_offset + 8)
                                       (entry_offset + 8 + bytes e)) = Ok zs
            /\ py_index zs 0 = Ok z
            /\ value e = Some (NScalar d z)
     else
       exists o,
         get_int32 env file (entry_offset + 8) = Ok o
         /\ offset e = Some o
         /\ entry_memory_usage e = [(o, o + bytes e * count e, tag_name e)]
         /\ match type2dtype (type e) with
            | Some d =>
                exists zs,
                  np_view env d (py_slice file o (o + bytes e * count e))
                  = Ok zs
                  /\ value e = Some (NArray d zs)
                  /\ (0 <= o -> 0 <= count e ->
                      o + bytes e * count e <= Z.of_nat (length file) ->
                      Z.of_nat (length zs) = count e)
            | None => value e = None
            end.
Proof.
  intros He. unfold IFDEntry_init in He.
  apply bind_ok in He as (t0 & _ & He). apply bind_ok in He as (ty0 & _ & He).
  apply bind_ok in He as (c0 & _ & He). apply bind_ok in He as (ov & Hov & He).
  injection He as <-. unfold stored_inline. cbn [type value offset bytes count
    entry_memory_usage tag_name].
  set (h := fold_left _ _ _) in *.
  split; [reflexivity | ].
  pose proof (type_tables_agree (h_type h)) as Hb.
  set (w := match type2bytes (h_type h) with Some b => b | None => 0 end) in *.
  destruct ((h_count h =? 1) && (1 <=? w) && (w <=? 4)) eqn:Hin.
  - apply bind_ok in Hov as (v & Hv & Hov). injection Hov as <-.
    cbn [fst snd]. split; [reflexivity | ]. split; [reflexivity | ].
    destruct (type2dtype (h_type h)) as [d | ] eqn:Hd.
    + unfold get_value in Hv. rewrite (get_values_view _ _ _ _ d) in Hv
        by exact Hd.
      apply bind_ok in Hv as (vs & Hvs & Hv).
      apply bind_ok in Hvs as (zs & Hzs & Hvs). injection Hvs as <-.
      apply bind_ok in Hv as (z & Hz & Hv). injection Hv as <-.
      exists d, zs, z. subst w. rewrite Hb. rewrite Z.mul_1_r in Hzs.
      repeat split; assumption.
    + subst w. rewrite Hb in Hin. change (1 <=? 0) with false in Hin.
      rewrite andb_false_r in Hin. discriminate.
  - apply bind_ok in Hov as (o & Ho & Hov).
    apply bind_ok in Hov as (v & Hv & Hov). injection Hov as <-.
    cbn [fst snd]. exists o. repeat (split; [reflexivity || assumption | ]).
    destruct (type2dtype (h_type h)) as [d | ] eqn:Hd.
    + rewrite (get_values_view _ _ _ _ d) in Hv by exact Hd.
      apply bind_ok in Hv as (zs & Hzs & Hv). injection Hv as <-.
      subst w. rewrite Hb. exists zs. repeat split; try assumption.
      intros Ho0 Hc0 Hend. pose proof (itemsize_pos d) as Hpos.
      apply np_view_length in Hzs. rewrite py_slice_length in Hzs by nia.
      nia.
    + unfold get_values in Hv. rewrite Hd in Hv. now injection Hv as <-.
Qed.

Lemma C2_decoding_rule_witness :
  exists e,
    IFDEntry_init (Files.plain_env little)
                  (Files.two_channel_file (repeat x00 8)) 34 = Ok e
    /\ stored_inline e = false
    /\ offset e = Some 110
    /\ value e = Some (NArray uint16 [8; 8])
    /\ entry_memory_usage e = [(110, 114, "BitsPerSample"%string)].
Proof.
  eexists. split; [vm_compute; reflexivity | ].
  pose proof (C2_decoding_rule (Files.plain_env little)
                (Files.two_channel_file (repeat x00 8)) 34 _ eq_refl) as H.
  destruct H as [_ H]. vm_compute in H.
  destruct H as (o & Ho & Hoff & Hmu & zs & Hzs & Hval & _).
  injection Ho as <-. injection Hzs as <-.
  split; [reflexivity | ]. split; [exact Hoff | ].
  split; [exact Hval | exact Hmu].
Defined.

(** ** The walk along the directories *)

Lemma py_slice_nil {A} (a b : Z) : py_slice (@nil A) a b = [].
Proof. unfold py_slice. now rewrite skipn_nil, firstn_nil. Qed.

(** A header is only read from a file that has bytes. *)
Lemma read_header_nonempty env file fb r :
  read_header env file fb = Ok r -> (length file =? 0)%nat = false.
Proof.
  destruct file as [ | b file]; [ | reflexivity].
  unfold read_header, get_uint16, get_scalar. now rewrite py_slice_nil.
Qed.

Lemma walk_chain env file o dirs :
  chain env file o dirs ->
  forall fuel IFDs usage,
    (length dirs <= fuel)%nat ->
    exists usage',
      walk env fuel file o IFDs usage
      = Some (Ok (IFDs ++ map snd dirs, usage')).
Proof.
  induction 1 as [ | o n ifd next rest Ho Hdir _ IH];
    intros fuel IFDs usage Hfuel.
  - exists usage. rewrite app_nil_r. destruct fuel; reflexivity.
  - destruct fuel as [ | fuel]; [cbn [length] in Hfuel; lia | ].
    cbn [walk]. apply Z.eqb_neq in Ho. rewrite Ho.
    unfold read_directory. rewrite Hdir. cbn [bind].
    match goal with
    | |- context [walk env fuel file next ?a ?u] =>
        destruct (IH fuel a u) as [usage' Hw];
          [cbn [length] in Hfuel; lia | ]
    end.
    exists usage'. rewrite Hw. cbn [map snd].
    now rewrite <- app_assoc.
Qed.

(** C1, the claim at a concrete file: the big-endian writing of the
    three-slice file is a well-formed chain of three directories (read
    in its own byte order the chain has three directories, and a
    big-endian machine opens it with these three), yet on a
    little-endian machine opening it gives no directory list: the magic
    number is read in the order of the machine and the file is turned
    down, whatever the fuel. *)
Lemma C1_other_byte_order_is_rejected :
  (exists dirs,
      chain (Files.plain_env big) Files.three_slice_file_be 8 dirs
      /\ length dirs = 3%nat)
  /\ (exists tiff,
         Files.opened big 3 Files.three_slice_file_be 0 = Some (Ok tiff)
         /\ length (IFD_list tiff) = 3%nat)
  /\ ~ (exists fuel tiff,
           Files.opened little fuel Files.three_slice_file_be 0
           = Some (Ok tiff)
           /\ length (IFD_list tiff) = 3%nat).
Proof.
  split; [ | split].
  - eexists. split.
    + eapply chain_link; [discriminate | vm_compute; reflexivity | ].
      eapply chain_link; [discriminate | vm_compute; reflexivity | ].
      eapply chain_link; [discriminate | vm_compute; reflexivity | ].
      apply chain_end.
    + reflexivity.
  - eexists. split; [vm_compute; reflexivity | reflexivity].
  - intros (fuel & tiff & H & _).
    assert (Hno : Files.opened little fuel Files.three_slice_file_be 0
                  = Some (Raise
                            (ValueError "wrong magic number for TIFF file")))
      by (vm_compute; reflexivity).
    rewrite Hno in H. discriminate.
Qed.

(** C1, as the code has it: every field is read in the byte order of
    the machine.  When the header, read in that order, is accepted and
    the directories of the file, decoded in that order, form a chain of
    N directories that ends with a next offset of 0, opening the file
    (with any fuel of at least N turns) returns, and [IFD] is the list
    of these N directories in the order of the chain: index 0 is the
    directory the header points to, index i+1 the one the next offset
    of directory i points to. *)
Theorem C1_chain_is_read_in_order env file fb en o dirs fuel :
  read_header env file fb = Ok (en, o) ->
  chain env file o dirs ->
  (length dirs <= fuel)%nat ->
  exists tiff,
    TIFFfile_init env fuel file "r" fb = Some (Ok tiff)
    /\ IFD0 tiff = o
    /\ IFD_list tiff = map snd dirs
    /\ length (IFD_list tiff) = length dirs
    /\ forall k, nth_error (IFD_list tiff) k
                 = option_map snd (nth_error dirs k).
Proof.
  intros Hh Hc Hfuel. unfold TIFFfile_init.
  change (negb ("r" =? "r")%string) with false. cbv iota.
  rewrite (read_header_nonempty _ _ _ _ Hh), Hh.
  destruct (walk_chain env file o dirs Hc fuel []
              [(Z.of_nat (length file), Z.of_nat (length file), "eof"%string);
               (fb, fb + 8, "file header"%string)] Hfuel) as [usage' Hw].
  rewrite Hw. eexists. split; [reflexivity | ]. cbn [IFD0 IFD_list app].
  split; [reflexivity | ]. split; [reflexivity | ].
  split; [apply length_map | ]. intros k. apply nth_error_map.
Qed.

Lemma C1_chain_is_read_in_order_witness :
  exists tiff,
    Files.opened little 3 (Files.three_slice_file 1) 0 = Some (Ok tiff)
    /\ IFD0 tiff = 8
    /\ length (IFD_list tiff) = 3%nat.
Proof.
  assert (Hc : exists dirs,
             chain (Files.plain_env little) (Files.three_slice_file 1) 8 dirs
             /\ length dirs = 3%nat).
  { eexists. split.
    - eapply chain_link; [discriminate | vm_compute; reflexivity | ].
      eapply chain_link; [discriminate | vm_compute; reflexivity | ].
      eapply chain_link; [discriminate | vm_compute; reflexivity | ].
      apply chain_end.
    - reflexivity. }
  destruct Hc as (dirs & Hc & Hlen).
  destruct (C1_chain_is_read_in_order (Files.plain_env little)
              (Files.three_slice_file 1) 0 little 8 dirs 3)
    as (tiff & Hopen & H0 & _ & Hn & _).
  - vm_compute. reflexivity.
  - exact Hc.
  - rewrite Hlen. apply le_n.
  - exists tiff. rewrite Hn, Hlen. repeat split; assumption.
Defined.

Lemma walk_in_cycle env file cyc :
  closed_cycle env file cyc ->
  forall fuel o IFDs usage, cyc o -> walk env fuel file o IFDs usage = None.
Proof.
  intros Hcyc. induction fuel as [ | fuel IH]; intros o IFDs usage Ho;
    destruct (Hcyc o Ho) as (Hnz & n & ifd & next & Hdir & Hnext);
    apply Z.eqb_neq in Hnz; cbn [walk]; rewrite Hnz; [reflexivity | ].
  unfold read_directory. rewrite Hdir. cbn [bind]. now apply IH.
Qed.

Lemma init_in_cycle env file fb en o cyc :
  read_header env file fb = Ok (en, o) ->
  cyc o -> closed_cycle env file cyc ->
  forall fuel, TIFFfile_init env fuel file "r" fb = None.
Proof.
  intros Hh Ho Hcyc fuel. unfold TIFFfile_init.
  change (negb ("r" =? "r")%string) with false. cbv iota.
  rewrite (read_header_nonempty _ _ _ _ Hh), Hh.
  now rewrite (walk_in_cycle env file cyc Hcyc).
Qed.

Lemma cyclic_file_cycle :
  closed_cycle (Files.plain_env little) Files.cyclic_file (fun o => o = 8).
Proof.
  intros o ->. split; [discriminate | ].
  exists 0, (mkIFD []), 8. split; [vm_compute | ]; reflexivity.
Qed.

(** C8, the claim at a concrete file: the only directory of the file
    has its own offset as next offset, and opening the file does not
    return, neither with a result nor with an exception. *)
Lemma C8_cyclic_file_is_not_rejected :
  ~ opening_returns (Files.plain_env little) Files.cyclic_file 0.
Proof.
  intros (fuel & r & H).
  rewrite (init_in_cycle _ _ 0 little 8 (fun o => o = 8)) in H.
  - discriminate.
  - vm_compute. reflexivity.
  - reflexivity.
  - apply cyclic_file_cycle.
Qed.

(** C8, as the code has it: the loop over the directories has no bound.
    When the header points into a cycle of next offsets (of directories
    that decode), no number of turns ends the loop: opening the file
    neither returns a result nor raises an exception. *)
Theorem C8_walk_is_unbounded env file fb en o cyc :
  read_header env file fb = Ok (en, o) ->
  cyc o -> closed_cycle env file cyc ->
  (forall fuel, TIFFfile_init env fuel file "r" fb = None)
  /\ ~ opening_returns env file fb.
Proof.
  intros Hh Ho Hcyc.
  assert (Hnone : forall fuel, TIFFfile_init env fuel file "r" fb = None)
    by (now apply (init_in_cycle env file fb en o cyc)).
  split; [exact Hnone | ].
  intros (fuel & r & H). rewrite Hnone in H. discriminate.
Qed.

Lemma C8_walk_is_unbounded_witness :
  Files.opened little 1000 Files.cyclic_file 0 = None.
Proof.
  apply (C8_walk_is_unbounded (Files.plain_env little) Files.cyclic_file
           0 little 8 (fun o => o = 8)).
  - vm_compute. reflexivity.
  - reflexivity.
  - intros o ->. split; [discriminate | ].
    exists 0, (mkIFD []), 8. split; [vm_compute | ]; reflexivity.
Defined.

(** ** The selection of the directories *)

Lemma filterM_keeps {A} (f : A -> result bool) (xs ys : list A) (x : A) :
  filterM f xs = Ok ys -> In x xs -> f x = Ok true -> In x ys.
Proof.
  revert ys. induction xs as [ | a xs IH]; intros ys H Hin Hf;
    [destruct Hin | ].
  cbn [filterM] in H. apply bind_ok in H as (keep & Hk & H).
  apply bind_ok in H as (rest & Hr & H). injection H as <-.
  destruct Hin as [-> | Hin].
  - rewrite Hf in Hk. injection Hk as <-. now left.
  - specialize (IH rest Hr Hin Hf). destruct keep; [right | ]; assumption.
Qed.

Lemma filterM_drops {A} (f : A -> result bool) (xs ys : list A) (x : A) :
  filterM f xs = Ok ys -> In x xs -> ~ In x ys -> f x = Ok false.
Proof.
  revert ys. induction xs as [ | a xs IH]; intros ys H Hin Hout;
    [destruct Hin | ].
  cbn [filterM] in H. apply bind_ok in H as (keep & Hk & H).
  apply bind_ok in H as (rest & Hr & H). injection H as <-.
  destruct Hin as [-> | Hin].
  - destruct keep; [exfalso; apply Hout; now left | exact Hk].
  - apply (IH rest Hr Hin). intros Hx. apply Hout.
    destruct keep; [right | ]; assumption.
Qed.

Lemma np_eq_PyInt (a b : Z) : np_eq (PyInt a) (PyInt b) = Ok (a =? b).
Proof. reflexivity. Qed.

(** C9: a directory without a NewSubfileType entry passes the test of
    the selection for every selector, so it is among the selected
    directories whenever the selection returns; and a directory of the
    file that is not selected carries the entry, with a value that is
    not the scalar the selector asks for. *)
Theorem C9_untagged_directories_are_selected :
  (forall subfile_type ifd,
      IFD_get ifd "NewSubfileType" = None ->
      selected subfile_type ifd = Ok true)
  /\ (forall tiff subfile_type sel,
         select_ifds tiff subfile_type = Ok sel ->
         (forall ifd, In ifd (IFD_list tiff) ->
                      IFD_get ifd "NewSubfileType" = None -> In ifd sel)
         /\ (forall ifd, In ifd (IFD_list tiff) -> ~ In ifd sel ->
                         exists e v,
                           IFD_get ifd "NewSubfileType" = Some e
                           /\ value e = Some v
                           /\ forall d, v <> NScalar d subfile_type)).
Proof.
  assert (Hsel : forall s ifd, IFD_get ifd "NewSubfileType" = None ->
                               selected s ifd = Ok true).
  { intros s ifd Hget. unfold selected, IFD_get_value. rewrite Hget.
    cbn [bind]. rewrite np_eq_PyInt. now rewrite Z.eqb_refl. }
  split; [exact Hsel | ]. intros tiff s sel Hs. unfold select_ifds in Hs. split.
  - intros ifd Hin Hget.
    apply (filterM_keeps _ _ _ _ Hs Hin). now apply Hsel.
  - intros ifd Hin Hout.
    pose proof (filterM_drops _ _ _ _ Hs Hin Hout) as Hf.
    unfold selected, IFD_get_value in Hf.
    destruct (IFD_get ifd "NewSubfileType") as [e | ] eqn:Hget.
    + unfold entry_value in Hf. destruct (value e) as [v | ] eqn:Hv;
        [ | discriminate].
      exists e, v. split; [reflexivity | ]. split; [exact Hv | ].
      intros d ->. cbn in Hf.
      unfold np_eq, np_cmp in Hf.
      destruct (is_int_num (Np d s) && is_int_num (PyInt s));
        [ | discriminate].
      cbn [num_val] in Hf. rewrite Z.eqb_refl in Hf. discriminate.
    + cbn [bind] in Hf. rewrite np_eq_PyInt, Z.eqb_refl in Hf. discriminate.
Qed.

Lemma C9_untagged_directories_are_selected_witness :
  length (entries (first_directory (Files.two_channel_file []))) = 8%nat
  /\ selected 1 (first_directory (Files.two_channel_file [])) = Ok true.
Proof.
  split; [vm_compute; reflexivity | ].
  apply (proj1 C9_untagged_directories_are_selected).
  vm_compute. reflexivity.
Defined.

(** ** Contiguity of the strips *)

Lemma py_index_0 {A} (x : A) (xs : list A) : py_index (x :: xs) 0 = Ok x.
Proof. apply py_index_nth; [lia | reflexivity]. Qed.

Lemma py_index_1 {A} (x y : A) (xs : list A) :
  py_index (x :: y :: xs) 1 = Ok y.
Proof. apply py_index_nth; [lia | reflexivity]. Qed.

Lemma py_index_shift {A} (x : A) (xs : list A) (i : Z) :
  0 <= i -> py_index (x :: xs) (i + 1) = py_index xs i.
Proof.
  intros Hi. unfold py_index. cbn [length]. rewrite Nat2Z.inj_succ.
  destruct (i + 1 <? 0) eqn:H1; [apply Z.ltb_lt in H1; lia | ].
  destruct (i <? 0) eqn:H2; [apply Z.ltb_lt in H2; lia | ].
  rewrite H1, H2. cbn [orb].
  replace (Z.succ (Z.of_nat (length xs)) <=? i + 1)
    with (Z.of_nat (length xs) <=? i)
    by (destruct (Z.leb_spec (Z.of_nat (length xs)) i);
        destruct (Z.leb_spec (Z.succ (Z.of_nat (length xs))) (i + 1));
        reflexivity || lia).
  replace (Z.to_nat (i + 1)) with (S (Z.to_nat i)) by lia. reflexivity.
Qed.

Lemma getitem_shift d (x : Z) (xs : list Z) (i : Z) :
  0 <= i -> getitem (PArr d (x :: xs)) (i + 1) = getitem (PArr d xs) i.
Proof. intros Hi. unfold getitem. now rewrite py_index_shift. Qed.

Lemma contiguous_loop_shift d d' o n offs nbs :
  forall k a, 0 <= a ->
    contiguous_loop (PArr d (o :: offs)) (PArr d' (n :: nbs))
                    (range_from (a + 1) k)
    = contiguous_loop (PArr d offs) (PArr d' nbs) (range_from a k).
Proof.
  induction k as [ | k IH]; intros a Ha; [reflexivity | ].
  cbn [range_from contiguous_loop].
  rewrite !getitem_shift by lia. rewrite (IH (a + 1)) by lia. reflexivity.
Qed.

Lemma promote_int a b c :
  promote a b = Some c ->
  is_int_num (Np a 0) = true /\ is_int_num (Np b 0) = true
  /\ is_int_num (Np c 0) = true.
Proof.
  destruct a, b; intros H; vm_compute in H; try discriminate;
    injection H as <-; repeat split; reflexivity.
Qed.

Lemma is_int_num_Np d x y : is_int_num (Np d x) = is_int_num (Np d y).
Proof. reflexivity. Qed.

(** The loop of [is_contiguous] decides the contiguity of the ranges
    whose ends are computed in the integer type of the arrays. *)
Lemma contiguous_loop_numpy d d' dp :
  promote d d' = Some dp ->
  forall offs nbs,
    length offs = length nbs ->
    contiguous_loop (PArr d offs) (PArr d' nbs)
                    (range (Z.of_nat (length offs) - 1))
    = Ok (ranges_contiguous (numpy_strip_ranges dp offs nbs)).
Proof.
  intros Hp. destruct (promote_int _ _ _ Hp) as (Hd & Hd' & Hdp).
  induction offs as [ | o offs IH]; intros nbs Hlen; [reflexivity | ].
  destruct nbs as [ | n nbs]; [discriminate | ].
  destruct offs as [ | o' offs];
    [destruct nbs; [reflexivity | discriminate] | ].
  destruct nbs as [ | n' nbs]; [discriminate | ].
  unfold range. replace (Z.to_nat (Z.of_nat (length (o :: o' :: offs)) - 1))
    with (S (length offs)) by (cbn [length]; lia).
  cbn [range_from contiguous_loop].
  unfold getitem. change (0 + 1) with 1.
  rewrite !py_index_0, py_index_1. cbn [bind].
  unfold np_add, arith. cbn [num_dtype num_val]. rewrite Hp. cbn [bind].
  unfold np_ne, np_cmp.
  rewrite (is_int_num_Np dp _ 0), (is_int_num_Np d _ 0), Hdp, Hd.
  cbn [andb bind num_val].
  change (range_from 1 (length offs)) with (range_from (0 + 1) (length offs)).
  rewrite contiguous_loop_shift by lia.
  specialize (IH (n' :: nbs)).
  unfold range in IH.
  replace (Z.to_nat (Z.of_nat (length (o' :: offs)) - 1))
    with (length offs) in IH by (cbn [length]; lia).
  rewrite IH; [ | cbn [length] in Hlen |- *; lia].
  unfold numpy_strip_ranges. cbn [combine map ranges_contiguous fst snd].
  destruct (wrap dp (o + n) =? o'); reflexivity.
Qed.

(** Sums that stay inside the integer type are the ends of the strips. *)
Lemma numpy_strip_ranges_exact dp offs nbs :
  Forall (fun r => wrap dp (snd r) = snd r) (strip_ranges offs nbs) ->
  numpy_strip_ranges dp offs nbs = strip_ranges offs nbs.
Proof.
  unfold numpy_strip_ranges, strip_ranges.
  induction (combine offs nbs) as [ | on l IH]; intros H; [reflexivity | ].
  cbn [map] in *. inversion H as [ | r rs Hr Hrs]; subst.
  cbn [snd] in Hr. rewrite Hr, (IH Hrs). reflexivity.
Qed.

Lemma foldM_app {A S} (f : S -> A -> result S) (xs ys : list A) (s : S) :
  foldM f (xs ++ ys) s = bind (foldM f xs s) (foldM f ys).
Proof.
  revert s. induction xs as [ | x xs IH]; intros s; [reflexivity | ].
  cbn [app foldM]. destruct (f s x); cbn [bind]; [apply IH | | ]; reflexivity.
Qed.

Lemma get_samples_stops_at env tiff subfile_type pre ifd post e :
  select_ifds tiff subfile_type = Ok (pre ++ ifd :: post) ->
  (forall st, loop_body env tiff st ifd = Raise e) ->
  (forall r, get_samples env tiff subfile_type <> Ok r)
  /\ (forall st, foldM (loop_body env tiff) pre initial_state = Ok st ->
                 get_samples env tiff subfile_type = Raise e).
Proof.
  intros Hsel Hbody. unfold get_samples. rewrite Hsel. cbn [bind].
  rewrite foldM_app.
  destruct (foldM (loop_body env tiff) pre initial_state) as [st | e' | ];
    cbn [bind foldM]; [rewrite Hbody; cbn [bind] | | ].
  - split; [discriminate | intros; reflexivity].
  - split; [discriminate | intros; discriminate].
  - split; discriminate.
Qed.

(** C4: [is_contiguous] adds the numpy scalars of the strip offsets
    and byte counts, so the end of a strip it compares with the start
    of the next one wraps around at the width of their integer type.
    For a directory with arrays of strip offsets and byte counts it is
    true exactly when each end so computed is the start of the next
    strip, which is the contiguity of the strips when no end leaves the
    integer type; a single strip is contiguous; the strips (0,100),
    (100,250), (250,400) are contiguous and (0,100), (110,250) are not;
    and when a selected directory is found not contiguous,
    [get_samples] returns no channels: it raises
    NotImplementedError('none contiguous strips') when it reaches that
    directory.  In the file of three strips of 5000 bytes with the
    SHORT offsets 61000, 464 and 5464 the first strip ends at byte
    66000 and the second one starts at byte 464, so the strips are not
    contiguous; yet 61000 + 5000 is 464 in uint16, [is_contiguous] is
    true, and [get_samples] does not raise the error of strips that are
    not contiguous: it goes on and fails in [reshape]. *)
Theorem C4_contiguity :
  (forall ifd d offs d' nbs dp,
      IFD_get_dot_value ifd "StripOffsets" = Ok (PArr d offs) ->
      IFD_get_dot_value ifd "StripByteCounts" = Ok (PArr d' nbs) ->
      promote d d' = Some dp ->
      length offs = length nbs ->
      IFD_is_contiguous ifd
      = Ok (ranges_contiguous (numpy_strip_ranges dp offs nbs))
      /\ (Forall (fun r => wrap dp (snd r) = snd r) (strip_ranges offs nbs) ->
          IFD_is_contiguous ifd
          = Ok (ranges_contiguous (strip_ranges offs nbs))))
  /\ (forall ifd o v,
         IFD_get_dot_value ifd "StripOffsets" = Ok (PNum o) ->
         IFD_get_dot_value ifd "StripByteCounts" = Ok v ->
         IFD_is_contiguous ifd = Ok true)
  /\ (strip_ranges [0; 100; 250] [100; 150; 150]
      = [(0, 100); (100, 250); (250, 400)]
      /\ IFD_is_contiguous (Files.strips_ifd [0; 100; 250] [100; 150; 150])
         = Ok true)
  /\ (strip_ranges [0; 110] [100; 140] = [(0, 100); (110, 250)]
      /\ IFD_is_contiguous (Files.strips_ifd [0; 110] [100; 140]) = Ok false)
  /\ (forall env tiff subfile_type pre ifd post,
         select_ifds tiff subfile_type = Ok (pre ++ ifd :: post) ->
         IFD_is_contiguous ifd = Ok false ->
         (forall r, get_samples env tiff subfile_type <> Ok r)
         /\ (forall st,
                foldM (loop_body env tiff) pre initial_state = Ok st ->
                get_samples env tiff subfile_type
                = Raise (NotImplementedError "none contiguous strips")))
  /\ (let ifd := first_directory Files.wrapping_strips_file in
      IFD_get_dot_value ifd "StripOffsets"
      = Ok (PArr uint16 [61000; 464; 5464])
      /\ IFD_get_dot_value ifd "StripByteCounts"
         = Ok (PArr uint16 [5000; 5000; 5000])
      /\ strip_ranges [61000; 464; 5464] [5000; 5000; 5000]
         = [(61000, 66000); (464, 5464); (5464, 10464)]
      /\ ranges_contiguous
           (strip_ranges [61000; 464; 5464] [5000; 5000; 5000]) = false
      /\ IFD_is_contiguous ifd = Ok true
      /\ exists tiff,
           Files.opened little 1 Files.wrapping_strips_file 0
           = Some (Ok tiff)
           /\ select_ifds tiff 0 = Ok [ifd]
           /\ get_samples (Files.plain_env little) tiff 0
              = Raise (ValueError
                         "total size of new array must be unchanged")).
Proof.
  split; [ | split; [ | split; [ | split; [ | split]]]].
  - intros ifd d offs d' nbs dp Ho Hn Hp Hlen.
    assert (H : IFD_is_contiguous ifd
                = Ok (ranges_contiguous (numpy_strip_ranges dp offs nbs))).
    { unfold IFD_is_contiguous. rewrite Ho, Hn. cbn [bind].
      now apply (contiguous_loop_numpy d d' dp). }
    split; [exact H | ].
    intros Hwrap. rewrite H.
    now rewrite (numpy_strip_ranges_exact dp offs nbs Hwrap).
  - intros ifd o v Ho Hn. unfold IFD_is_contiguous. now rewrite Ho, Hn.
  - split; reflexivity.
  - split; reflexivity.
  - intros env tiff s pre ifd post Hsel Hc.
    apply (get_samples_stops_at env tiff s pre ifd post); [exact Hsel | ].
    intros st. unfold loop_body. now rewrite Hc.
  - cbv zeta. repeat (split; [vm_compute; reflexivity | ]).
    assert (H : match Files.opened little 1 Files.wrapping_strips_file 0 with
                | Some (Ok t) =>
                    select_ifds t 0
                    = Ok [first_directory Files.wrapping_strips_file]
                    /\ get_samples (Files.plain_env little) t 0
                       = Raise (ValueError
                                  "total size of new array must be unchanged")
                | _ => False
                end)
      by (vm_compute; split; reflexivity).
    destruct (Files.opened little 1 Files.wrapping_strips_file 0)
      as [[tiff | e | ] | ]; try contradiction.
    exists tiff. split; [reflexivity | exact H].
Qed.

Lemma C4_contiguity_witness :
  IFD_is_contiguous (Files.strips_ifd [0; 110] [100; 140])
  = Ok (ranges_contiguous [(0, 100); (110, 250)])
  /\ exists tiff,
       Files.opened little 1 (Files.two_strip_file 1) 0 = Some (Ok tiff)
       /\ get_samples (Files.plain_env little) tiff 0
          = Raise (NotImplementedError "none contiguous strips").
Proof.
  destruct C4_contiguity as (Ha & _ & _ & _ & H & _). split.
  - apply (Ha (Files.strips_ifd [0; 110] [100; 140])
              uint32 [0; 110] uint32 [100; 140] uint32);
      try reflexivity.
    repeat constructor.
  - eexists. split; [vm_compute; reflexivity | ].
    match goal with
    | |- get_samples _ ?t _ = _ =>
        apply (proj2 (H (Files.plain_env little) t 0 []
                        (nth 0 (IFD_list t) (mkIFD [])) [] eq_refl eq_refl)
                     initial_state eq_refl)
    end.
Defined.

(** ** The loop of get_samples *)

Ltac bind_inv H :=
  repeat match type of H with
         | bind ?r ?k = Ok _ =>
             let a := fresh "a" in
             let E := fresh "E" in
             apply bind_ok in H as (a & E & H)
         | (if ?b then _ else Raise _) = Ok _ =>
             let E := fresh "T" in
             destruct b eqn:E; [ | discriminate H]
         | (if ?b then Raise _ else _) = Ok _ =>
             let E := fresh "T" in
             destruct b eqn:E; [discriminate H | ]
         end.

Lemma as_num_ok v n : as_num v = Ok n -> v = PNum n.
Proof.
  destruct v; simpl; intros H; try discriminate. now injection H as ->.
Qed.

Lemma arith_ok_int f a b c :
  arith f a b = Ok c ->
  is_int_num a = true /\ is_int_num b = true /\ is_int_num c = true.
Proof.
  unfold arith. intros H.
  destruct (promote (num_dtype a) (num_dtype b)) as [d | ] eqn:Hp.
  - destruct (promote_int _ _ _ Hp) as (Ha & Hb & Hd).
    assert (Hc : is_int_num c = true).
    { destruct a, b; injection H as <-; try reflexivity; exact Hd. }
    destruct a, b; repeat split; try reflexivity; try exact Hc;
      try exact Ha; try exact Hb.
  - destruct a, b; discriminate.
Qed.

(** What the first turn of the loop records of its directory. *)
Lemma first_turn_inv env tiff ifd span p m :
  first_turn env tiff ifd span = Ok (p, m) -> records_first ifd p.
Proof.
  intros H. unfold first_turn in H. bind_inv H.
  injection H as <- <-. cbn [width length_ planar_config bits_per_sample
                             strip_length].
  repeat match goal with
         | H : as_num _ = Ok _ |- _ => apply as_num_ok in H; subst
         end.
  repeat match goal with
         | H : np_mul _ _ = Ok _ |- _ => apply arith_ok_int in H
         | H : np_sub _ _ = Ok _ |- _ => apply arith_ok_int in H
         end.
  unfold records_first. cbn [width length_ planar_config bits_per_sample
                             strip_length].
  intuition.
Qed.

Lemma loop_body_first env tiff st s0 st' :
  st_i st = 0 -> loop_body env tiff st s0 = Ok st' ->
  st_i st' = 1 /\ exists p, st_first st' = Some p /\ records_first s0 p.
Proof.
  intros Hi H. unfold loop_body in H. rewrite Hi in H.
  change (0 =? 0) with true in H. change (0 <? 0) with false in H.
  cbv iota in H. bind_inv H. injection H as <-. cbn [st_i st_first].
  split; [reflexivity | ].
  apply bind_ok in E1 as ([p m] & Hft & E1). injection E1 as <-.
  exists p. split; [reflexivity | ].
  exact (first_turn_inv env tiff s0 a0 p m Hft).
Qed.

Lemma loop_body_later env tiff st ifd st' p :
  0 < st_i st -> st_first st = Some p ->
  loop_body env tiff st ifd = Ok st' ->
  st_i st' = st_i st + 1 /\ st_first st' = Some p.
Proof.
  intros Hi Hp H. unfold loop_body in H.
  destruct (st_i st =? 0) eqn:H0; [apply Z.eqb_eq in H0; lia | ].
  rewrite Hp in H. bind_inv H. injection H as <-. cbn [st_i st_first].
  split; [reflexivity | ].
  apply bind_ok in E1 as (u & _ & E1). injection E1 as <-. reflexivity.
Qed.

Lemma foldM_later env tiff p :
  forall ifds st st',
    0 < st_i st -> st_first st = Some p ->
    foldM (loop_body env tiff) ifds st = Ok st' ->
    0 < st_i st' /\ st_first st' = Some p.
Proof.
  induction ifds as [ | ifd ifds IH]; intros st st' Hi Hp H.
  - injection H as <-. now split.
  - cbn [foldM] in H. apply bind_ok in H as (st1 & H1 & H).
    destruct (loop_body_later _ _ _ _ _ _ Hi Hp H1) as [Hi1 Hp1].
    apply (IH st1 st'); [lia | exact Hp1 | exact H].
Qed.

Lemma foldM_first env tiff s0 mid st :
  foldM (loop_body env tiff) (s0 :: mid) initial_state = Ok st ->
  0 < st_i st /\ exists p, st_first st = Some p /\ records_first s0 p.
Proof.
  intros H. cbn [foldM] in H. apply bind_ok in H as (st1 & H1 & H).
  destruct (loop_body_first env tiff initial_state s0 st1 eq_refl H1)
    as (Hi & p & Hp & Hrec).
  destruct (foldM_later env tiff p mid st1 st) as [Hi' Hp'];
    [lia | exact Hp | exact H | ].
  split; [exact Hi' | ]. exists p. now split.
Qed.

(** ** The assertions of the later turns *)

Lemma later_turn_ok_inv p ifd span u :
  later_turn p ifd span = Ok u ->
  (exists w, IFD_get_value ifd "ImageWidth" (PNum (width p)) = Ok w
             /\ eq_scalar (PNum (width p)) w = Ok true)
  /\ (exists h, IFD_get_value ifd "ImageLength" (PNum (length_ p)) = Ok h
                /\ eq_scalar (PNum (length_ p)) h = Ok true)
  /\ (exists c, IFD_get_value ifd "PlanarConfiguration" (planar_config p)
                = Ok c
                /\ eq_scalar (planar_config p) c = Ok true)
  /\ (exists b, IFD_get_value ifd "BitsPerSample" (bits_per_sample p) = Ok b
                /\ same_bits (bits_per_sample p) b = Ok true).
Proof.
  intros H. unfold later_turn in H. bind_inv H.
  repeat split; eexists; (split; [eassumption | congruence]).
Qed.

Lemma declares_get_value ifd name v dflt :
  declares ifd name v -> IFD_get_value ifd name dflt = Ok v.
Proof. intros (e & Hget & Hv). unfold IFD_get_value. now rewrite Hget. Qed.

Lemma absent_get_value ifd name dflt :
  IFD_get ifd name = None -> IFD_get_value ifd name dflt = Ok dflt.
Proof. intros Hget. unfold IFD_get_value. now rewrite Hget. Qed.

Lemma np_eq_int a b :
  is_int_num a = true -> is_int_num b = true ->
  np_eq a b = Ok (num_val a =? num_val b).
Proof. intros Ha Hb. unfold np_eq, np_cmp. now rewrite Ha, Hb. Qed.

Lemma arith_int_ok f a b :
  is_int_num a = true -> is_int_num b = true ->
  exists c, arith f a b = Ok c /\ is_int_num c = true.
Proof.
  intros Ha Hb. unfold arith.
  destruct (promote (num_dtype a) (num_dtype b)) as [d | ] eqn:Hp.
  - destruct (promote_int _ _ _ Hp) as (_ & _ & Hd).
    destruct a, b; eexists; (split; [reflexivity | ]);
      try reflexivity; exact Hd.
  - exfalso. unfold is_int_num in Ha, Hb. unfold promote in Hp.
    destruct (int_kind (num_dtype a)) as [[[] x] | ]; try discriminate;
      destruct (int_kind (num_dtype b)) as [[[] y] | ]; discriminate.
Qed.

Lemma mapM_np_eq d1 d2 :
  is_int d1 = true -> is_int d2 = true ->
  forall ps : list (Z * Z),
    mapM (fun p => np_eq (Np d1 (fst p)) (Np d2 (snd p))) ps
    = Ok (map (fun p => fst p =? snd p) ps).
Proof.
  intros H1 H2. induction ps as [ | q ps IH]; [reflexivity | ].
  cbn [mapM map]. rewrite np_eq_int by assumption. cbn [bind num_val].
  now rewrite IH.
Qed.

Lemma combine_eqb_all (l1 l2 : list Z) :
  length l1 = length l2 ->
  forallb (fun b => b) (map (fun p => fst p =? snd p) (combine l1 l2)) = true ->
  l1 = l2.
Proof.
  revert l2. induction l1 as [ | x l1 IH]; intros [ | y l2] Hlen H;
    try discriminate; [reflexivity | ].
  cbn in H. apply andb_true_iff in H as [Hxy H]. apply Z.eqb_eq in Hxy.
  subst y. f_equal. apply IH; [now injection Hlen | exact H].
Qed.

Lemma same_bits_arrays d1 l1 d2 l2 :
  is_int d1 = true -> is_int d2 = true -> length l1 = length l2 ->
  same_bits (PArr d1 l1) (PArr d2 l2)
  = Ok (forallb (fun b => b)
                (map (fun p => fst p =? snd p) (combine l1 l2))).
Proof.
  intros H1 H2 Hlen. unfold same_bits.
  apply Nat.eqb_eq in Hlen. rewrite Hlen.
  now rewrite (mapM_np_eq d1 d2 H1 H2).
Qed.

(** An array against a scalar: the scalar is compared with every
    element, and [.all()] asks that all are equal. *)
Lemma same_bits_broadcast d0 l0 b :
  is_int d0 = true -> is_int_num b = true ->
  same_bits (PArr d0 l0) (PNum b)
  = Ok (forallb (fun z => z =? num_val b) l0).
Proof.
  intros H0 Hb. unfold same_bits.
  assert (H : mapM (fun z => np_eq (Np d0 z) b) l0
              = Ok (map (fun z => z =? num_val b) l0)).
  { induction l0 as [ | z l0 IH]; [reflexivity | ].
    cbn [mapM map]. rewrite np_eq_int by assumption. cbn [bind num_val].
    now rewrite IH. }
  rewrite H. cbn [bind]. f_equal. clear H.
  induction l0 as [ | z l0 IH]; [reflexivity | ].
  cbn [map forallb]. now rewrite IH.
Qed.

Lemma different_scalars a v :
  different (PNum a) v -> eq_scalar (PNum a) v <> Ok true.
Proof.
  destruct v as [ | b | d l]; cbn; try tauto.
  intros (Ha & Hb & Hne). rewrite np_eq_int by assumption.
  apply Z.eqb_neq in Hne. rewrite Hne. discriminate.
Qed.

(** A later turn does not pass when its directory declares another
    value than the first one. *)
Lemma mismatch_not_ok s0 ifd p span u :
  records_first s0 p -> declares_other s0 ifd ->
  later_turn p ifd span <> Ok u.
Proof.
  intros (Rw & Rh & Rc & Rb & _) (name & v0 & v & Hin & Hd0 & Hd & Hdiff) H.
  apply later_turn_ok_inv in H
    as ((w & Hw & Ew) & (h & Hh & Eh) & (c & Hc & Ec) & (b & Hb & Eb)).
  cbn [In] in Hin.
  destruct Hin as [<- | [<- | [<- | [<- | []]]]];
    match goal with
    | R : IFD_get_value s0 ?n _ = _, G : IFD_get_value ifd ?n _ = _ |- _ =>
        rewrite (declares_get_value _ _ _ _ Hd0) in R;
        rewrite (declares_get_value _ _ _ _ Hd) in G;
        injection R as ->; injection G as <-
    end.
  - now apply (different_scalars _ _ Hdiff).
  - now apply (different_scalars _ _ Hdiff).
  - destruct (planar_config p) as [ | a | d0 l0] eqn:Hpc;
      [destruct Hdiff | now apply (different_scalars _ _ Hdiff) | ].
    destruct v; cbn in Hdiff; try contradiction; discriminate.
  - destruct (bits_per_sample p) as [ | a | d0 l0] eqn:Hbp;
      [destruct Hdiff | | ].
    + destruct v as [ | b' | d l]; cbn in Hdiff; try contradiction.
      apply (different_scalars a (PNum b')); [exact Hdiff | exact Eb].
    + destruct v as [ | b' | d l]; cbn in Hdiff; try contradiction.
      * destruct Hdiff as (H0 & H1 & Hex).
        rewrite same_bits_broadcast in Eb by assumption.
        injection Eb as Eb. rewrite forallb_forall in Eb.
        apply Exists_exists in Hex as (z & Hz & Hne).
        apply Hne. apply Z.eqb_eq. now apply Eb.
      * destruct Hdiff as (H0 & H1 & Hlen & Hne).
        rewrite same_bits_arrays in Eb by assumption.
        injection Eb as Eb. apply Hne. now apply combine_eqb_all.
Qed.

Lemma getitem_ok v k n :
  getitem v k = Ok n -> exists d xs z, v = PArr d xs /\ n = Np d z.
Proof.
  destruct v as [ | m | d xs]; cbn; intros H; try discriminate.
  apply bind_ok in H as (z & _ & H). injection H as <-. now exists d, xs, z.
Qed.

Lemma strip_span_int ifd span :
  strip_span ifd = Ok span ->
  is_int_num (fst span) = true /\ is_int_num (snd span) = true.
Proof.
  intros H. unfold strip_span in H.
  apply bind_ok in H as (offs & _ & H). apply bind_ok in H as (nbs & _ & H).
  destruct offs as [ | o | d xs].
  - bind_inv H. discriminate.
  - bind_inv H. injection H as <-. cbn [fst snd].
    apply as_num_ok in E. injection E as <-.
    apply arith_ok_int in E1. tauto.
  - bind_inv H. injection H as <-. cbn [fst snd].
    apply getitem_ok in E as (d1 & x1 & z1 & H1 & ->).
    apply getitem_ok in E0 as (d2 & x2 & z2 & H2 & ->).
    injection H1 as <- <-. injection H2 as <- <-.
    apply arith_ok_int in E2 as (Hb & _ & He). split; [exact Hb | exact He].
Qed.

Lemma plain_tag_check ifd name a :
  plain_tag ifd name -> is_int_num a = true ->
  exists w b, IFD_get_value ifd name (PNum a) = Ok w
              /\ eq_scalar (PNum a) w = Ok b.
Proof.
  intros [Habs | (n & Hd & Hn)] Ha.
  - exists (PNum a), true. split; [now apply absent_get_value | ].
    cbn. rewrite np_eq_int by assumption. now rewrite Z.eqb_refl.
  - exists (PNum n), (num_val a =? num_val n).
    split; [now apply declares_get_value | ].
    cbn. now rewrite np_eq_int.
Qed.

Lemma plain_planar_check s0 ifd pc :
  plain_tag s0 "PlanarConfiguration" ->
  plain_tag ifd "PlanarConfiguration" ->
  IFD_get_value s0 "PlanarConfiguration" PNone = Ok pc ->
  exists c b, IFD_get_value ifd "PlanarConfiguration" pc = Ok c
              /\ eq_scalar pc c = Ok b.
Proof.
  intros H0 H R.
  assert (Hpc : pc = PNone \/ exists a, pc = PNum a /\ is_int_num a = true).
  { destruct H0 as [Habs | (a & Hd & Ha)].
    - rewrite (absent_get_value _ _ _ Habs) in R. left. congruence.
    - rewrite (declares_get_value _ _ _ _ Hd) in R. right. exists a.
      split; congruence. }
  destruct Hpc as [-> | (a & -> & Ha)].
  - destruct H as [Habs | (n & Hd & Hn)].
    + exists PNone, true. split; [now apply absent_get_value | reflexivity].
    + exists (PNum n), false.
      split; [now apply declares_get_value | reflexivity].
  - now apply plain_tag_check.
Qed.

Lemma mapM_np_eq_scalar d n :
  is_int d = true -> is_int_num n = true ->
  forall xs : list Z,
    mapM (fun z => np_eq (Np d z) n) xs
    = Ok (map (fun z => z =? num_val n) xs).
Proof.
  intros Hd Hn. induction xs as [ | x xs IH]; [reflexivity | ].
  cbn [mapM map]. rewrite np_eq_int by assumption. cbn [bind num_val].
  now rewrite IH.
Qed.

Lemma plain_bits_check s0 ifd bits :
  plain_bits s0 ifd ->
  IFD_get_value s0 "BitsPerSample" PNone = Ok bits ->
  exists v b, IFD_get_value ifd "BitsPerSample" bits = Ok v
              /\ same_bits bits v = Ok b.
Proof.
  intros (v0 & Hd0 & H) R.
  rewrite (declares_get_value _ _ _ _ Hd0) in R. injection R as <-.
  destruct v0 as [ | a | d0 l0]; [destruct H | | ].
  - destruct H as [Ha H].
    destruct (plain_tag_check ifd "BitsPerSample" a H Ha) as (w & b & Hw & Hb).
    exists w, b. split; [exact Hw | ].
    destruct w; cbn in Hb |- *; try exact Hb. discriminate.
  - destruct H as [H0 [Habs | [(b & Hd & Hb) | (d & xs & Hd & H1 & Hlen)]]].
    + eexists. eexists. split; [exact (absent_get_value _ _ _ Habs) | ].
      now apply same_bits_arrays.
    + exists (PNum b). eexists.
      split; [exact (declares_get_value _ _ _ _ Hd) | ].
      cbn. now rewrite mapM_np_eq_scalar.
    + exists (PArr d xs). eexists.
      split; [exact (declares_get_value _ _ _ _ Hd) | ].
      now apply same_bits_arrays.
Qed.

(** With plain tags a later turn passes or fails an assertion. *)
Lemma later_turn_outcome s0 ifd p span :
  records_first s0 p -> plain_slice s0 ifd ->
  is_int_num (fst span) = true -> is_int_num (snd span) = true ->
  later_turn p ifd span = Ok tt \/ later_turn p ifd span = Raise AssertionError.
Proof.
  intros (Rw & Rh & Rc & Rb & Iw & Ih & Il) (Pw & Ph & Pc0 & Pc & Pb) Ia Ie.
  unfold later_turn.
  destruct (plain_tag_check _ _ _ Pw Iw) as (w & b1 & Hw & Hb1).
  rewrite Hw. cbn [bind]. rewrite Hb1. cbn [bind].
  destruct b1; [ | now right].
  destruct (plain_tag_check _ _ _ Ph Ih) as (h & b2 & Hh & Hb2).
  rewrite Hh. cbn [bind]. rewrite Hb2. cbn [bind].
  destruct b2; [ | now right].
  destruct (plain_planar_check _ _ _ Pc0 Pc Rc) as (c & b3 & Hc & Hb3).
  rewrite Hc. cbn [bind]. rewrite Hb3. cbn [bind].
  destruct b3; [ | now right].
  destruct (arith_int_ok Z.sub _ _ Ie Ia) as (len & Hlen & Ilen).
  unfold np_sub. rewrite Hlen. cbn [bind].
  rewrite np_eq_int by assumption. cbn [bind].
  destruct (num_val (strip_length p) =? num_val len); [ | now right].
  destruct (plain_bits_check _ _ _ Pb Rb) as (v & b4 & Hv & Hb4).
  rewrite Hv. cbn [bind]. rewrite Hb4. cbn [bind].
  destruct b4; [now left | now right].
Qed.

Lemma loop_body_mismatch env tiff st s0 ifd p :
  0 < st_i st -> st_first st = Some p ->
  records_first s0 p -> declares_other s0 ifd ->
  (forall st', loop_body env tiff st ifd <> Ok st')
  /\ (IFD_is_contiguous ifd = Ok true ->
      is_ok (strip_span ifd) = true ->
      plain_slice s0 ifd ->
      loop_body env tiff st ifd = Raise AssertionError).
Proof.
  intros Hi Hp Hrec Hother. unfold loop_body.
  destruct (st_i st =? 0) eqn:H0; [apply Z.eqb_eq in H0; lia | ].
  rewrite Hp. split.
  - intros st' H. bind_inv H.
    apply bind_ok in E1 as (u & Hl & _).
    exact (mismatch_not_ok s0 ifd p _ u Hrec Hother Hl).
  - intros Hc Hs Hplain. rewrite Hc. cbn [bind negb].
    destruct (strip_span ifd) as [span | | ] eqn:Hspan; try discriminate.
    cbn [bind]. destruct (strip_span_int _ _ Hspan) as [Ia Ie].
    destruct (later_turn_outcome s0 ifd p span Hrec Hplain Ia Ie) as [Hl | Hl].
    + exfalso. exact (mismatch_not_ok s0 ifd p _ tt Hrec Hother Hl).
    + rewrite Hl. reflexivity.
Qed.

(** What the assertions of the later turns catch: when a selected
    directory after the first one declares a width, a height, a planar
    configuration or bits per sample that the comparison finds
    different from the first one, [get_samples] returns no channels;
    and when the loop reaches that directory (whose strips are
    contiguous and whose compared tags are integers or integer arrays),
    the call fails with the AssertionError of the comparison with the
    first directory. *)
Theorem mismatch_fails env tiff subfile_type s0 mid ifd post :
  select_ifds tiff subfile_type = Ok (s0 :: mid ++ ifd :: post) ->
  declares_other s0 ifd ->
  (forall r, get_samples env tiff subfile_type <> Ok r)
  /\ (forall st,
         foldM (loop_body env tiff) (s0 :: mid) initial_state = Ok st ->
         IFD_is_contiguous ifd = Ok true ->
         is_ok (strip_span ifd) = true ->
         plain_slice s0 ifd ->
         get_samples env tiff subfile_type = Raise AssertionError).
Proof.
  intros Hsel Hother. unfold get_samples. rewrite Hsel. cbn [bind].
  change (s0 :: mid ++ ifd :: post) with ((s0 :: mid) ++ ifd :: post).
  rewrite foldM_app.
  destruct (foldM (loop_body env tiff) (s0 :: mid) initial_state)
    as [st | e | ] eqn:Hpre.
  - destruct (foldM_first _ _ _ _ _ Hpre) as (Hi & p & Hp & Hrec).
    destruct (loop_body_mismatch env tiff st s0 ifd p Hi Hp Hrec Hother)
      as [Hno Hassert].
    cbn [bind foldM]. split.
    + intros r H. destruct (loop_body env tiff st ifd) as [st' | e | ] eqn:Hb;
        [now apply (Hno st') | discriminate | discriminate].
    + intros st1 Hst Hc Hs Hplain. rewrite (Hassert Hc Hs Hplain). reflexivity.
  - cbn [bind]. split; [discriminate | intros; discriminate].
  - cbn [bind]. split; [discriminate | intros; discriminate].
Qed.

(** The third directory of the file declares the width 2, the first one
    the width 1. *)
Lemma mismatch_fails_at_third_slice :
  exists tiff,
    Files.opened little 3 (Files.three_slice_file 2) 0 = Some (Ok tiff)
    /\ get_samples (Files.plain_env little) tiff 0 = Raise AssertionError.
Proof.
  eexists. split; [vm_compute; reflexivity | ].
  match goal with
  | |- get_samples _ ?t _ = _ =>
      pose (s0 := nth 0 (IFD_list t) (mkIFD []));
      pose (s1 := nth 1 (IFD_list t) (mkIFD []));
      pose (s2 := nth 2 (IFD_list t) (mkIFD []));
      destruct (mismatch_fails (Files.plain_env little) t 0 s0 [s1] s2 [])
        as [_ H]
  end.
  - reflexivity.
  - exists "ImageWidth"%string, (PNum (Np uint16 1)), (PNum (Np uint16 2)).
    split; [cbn; tauto | ].
    split; [eexists; split; reflexivity | ].
    split; [eexists; split; reflexivity | ].
    cbn. repeat split; discriminate.
  - destruct (foldM (loop_body (Files.plain_env little) _) [s0; s1]
                    initial_state) as [st | e | ] eqn:Hst;
      try (vm_compute in Hst; discriminate).
    apply (H st eq_refl).
    + reflexivity.
    + reflexivity.
    + repeat split;
        try (right; eexists; split;
             [eexists; split; reflexivity | reflexivity]).
      eexists. split; [eexists; split; reflexivity | ].
      cbn. split; [reflexivity | ].
      right. eexists. split; [eexists; split; reflexivity | reflexivity].
Defined.

(** C5: the assertion on the bits per sample compares an array of the
    first directory with the single value of a later one element by
    element ([(a == b).all()]: numpy repeats the value), so it passes
    exactly when every element of the array equals the value; a later
    directory that declares the one value 8 passes against a first one
    that declares 8, 8, 8.  In the file of two RGB directories of which
    the first declares the bits per sample 8, 8, 8 and the second the
    single value 8, both directories are selected, the loop takes both
    and raises no AssertionError, and [get_samples] goes on to read the
    samples, where it fails in [reshape]. *)
Theorem C5_scalar_bits_pass_array_check :
  (forall d0 l0 b,
      is_int d0 = true -> is_int_num b = true ->
      (same_bits (PArr d0 l0) (PNum b) = Ok true
       <-> Forall (fun z => z = num_val b) l0))
  /\ exists tiff s0 s1,
       Files.opened little 2 Files.mixed_bits_file 0 = Some (Ok tiff)
       /\ select_ifds tiff 0 = Ok [s0; s1]
       /\ declares s0 "BitsPerSample" (PArr uint16 [8; 8; 8])
       /\ declares s1 "BitsPerSample" (PNum (Np uint16 8))
       /\ (exists st,
              foldM (loop_body (Files.plain_env little) tiff) [s0; s1]
                    initial_state = Ok st
              /\ st_i st = 2)
       /\ get_samples (Files.plain_env little) tiff 0
          = Raise (ValueError "total size of new array must be unchanged").
Proof.
  split.
  - intros d0 l0 b H0 Hb. rewrite same_bits_broadcast by assumption.
    rewrite Forall_forall. split.
    + intros H z Hz. injection H as H. rewrite forallb_forall in H.
      apply Z.eqb_eq. now apply H.
    + intros H. f_equal. apply forallb_forall. intros z Hz.
      apply Z.eqb_eq. now apply H.
  - eexists. eexists. eexists.
    split; [vm_compute; reflexivity | ].
    split; [vm_compute; reflexivity | ].
    split; [eexists; split; vm_compute; reflexivity | ].
    split; [eexists; split; vm_compute; reflexivity | ].
    split; [eexists; split; vm_compute; reflexivity | ].
    vm_compute. reflexivity.
Qed.

Lemma C5_scalar_bits_pass_array_check_witness :
  same_bits (PArr uint16 [8; 8; 8]) (PNum (Np uint16 8)) = Ok true.
Proof.
  destruct C5_scalar_bits_pass_array_check as [H _].
  apply (H uint16 [8; 8; 8] (Np uint16 8)); [reflexivity | reflexivity | ].
  repeat constructor.
Defined.

(** ** The step between two directories *)

(** C10, on the code: the strip offsets of a TIFF file are unsigned
    numbers (LONG, uint32), and numpy subtracts them in uint32.  In the
    turn [i==1] the step between a span that ends at [e0] and a span
    that starts at [s1] is therefore [(s1 - e0) mod 2^32], the
    assertion [step>=0] holds whatever the spans are, and a second
    directory whose strip starts before the first one ends is not
    rejected by it: for the file with strips at bytes 189 and 188 the
    call ends in NotImplementedError(start, end, step) of the fast
    path, not in an AssertionError. *)
Theorem C10_unsigned_step_passes_assertion :
  (forall st a e0 s1 b,
      st_i st = 1 ->
      update_step st (a, Np uint32 e0) (Np uint32 s1, b)
      = Ok (Np uint32 ((s1 - e0) mod 2 ^ 32), can_return_memmap st))
  /\ exists tiff,
       Files.opened little 2 Files.overlapping_file 0 = Some (Ok tiff)
       /\ option_map (fun e => value e)
                     (IFD_get (nth 0 (IFD_list tiff) (mkIFD [])) "StripOffsets")
          = Some (Some (NScalar uint32 189))
       /\ option_map (fun e => value e)
                     (IFD_get (nth 1 (IFD_list tiff) (mkIFD [])) "StripOffsets")
          = Some (Some (NScalar uint32 188))
       /\ get_samples (Files.plain_env little) tiff 0
          = Raise (NotImplementedError "start, end, step").
Proof.
  split.
  - intros st a e0 s1 b Hi. unfold update_step. rewrite Hi.
    change (1 =? 1) with true. cbv iota.
    unfold np_sub, arith. cbn [fst snd num_dtype num_val].
    change (promote uint32 uint32) with (Some uint32).
    cbn [bind]. unfold np_ge, np_cmp.
    change (wrap uint32 (s1 - e0)) with ((s1 - e0) mod 2 ^ 32).
    change (is_int_num (Np uint32 ((s1 - e0) mod 2 ^ 32))
            && is_int_num (PyInt 0)) with true.
    cbv iota. cbn [bind num_val].
    assert (H : ((s1 - e0) mod 2 ^ 32 >=? 0) = true).
    { apply Z.geb_le. apply Z.mod_pos_bound. reflexivity. }
    rewrite H. reflexivity.
  - eexists. split; [vm_compute; reflexivity | ].
    repeat split; vm_compute; reflexivity.
Qed.

Lemma C10_unsigned_step_passes_assertion_witness :
  update_step {| st_l := [(Np uint32 189, Np uint32 190)]; st_i := 1;
                 st_step := PyInt 0; can_return_memmap := true;
                 st_first := None |}
              (Np uint32 189, Np uint32 190) (Np uint32 188, Np uint32 189)
  = Ok (Np uint32 4294967294, true).
Proof.
  apply (proj1 C10_unsigned_step_passes_assertion
           {| st_l := [(Np uint32 189, Np uint32 190)]; st_i := 1;
              st_step := PyInt 0; can_return_memmap := true;
              st_first := None |}
           (Np uint32 189) 190 188 (Np uint32 189)).
  reflexivity.
Defined.

(** ** Channels of a chunky image *)

(** C3, on the code: for the image of 2 by 2 pixels with two 8-bit
    samples per pixel, stored chunky in one strip, [get_samples]
    returns no channels.  The view on the strip is one row of the eight
    bytes; the loop of the chunky branch adds [bytes] to [k] after every
    channel, so that channel 1 is cut from column 9 on, where the row
    has ended, instead of from column 1, and the reshape of the empty
    slice raises ValueError. *)
Theorem C3_chunky_two_channels_raise (a0 b0 a1 b1 a2 b2 a3 b3 : byte) :
  let px := [a0; b0; a1; b1; a2; b2; a3; b3] in
  (exists tiff,
      Files.opened little 1 (Files.two_channel_file px) 0 = Some (Ok tiff)
      /\ py_slice (data tiff) 114 122 = px
      /\ get_samples (Files.plain_env little) tiff 0
         = Raise (ValueError "total size of new array must be unchanged"))
  /\ py_slice_step px (0 + 0) (0 + 0 + 8) 2 = [a0; a1; a2; a3]
  /\ py_slice_step px (8 + 1) (8 + 1 + 8) 2 = []
  /\ py_slice_step px (0 + 1) (0 + 1 + 8) 2 = [b0; b1; b2; b3].
Proof.
  cbv zeta. split.
  - eexists. split; [vm_compute; reflexivity | ].
    split; vm_compute; reflexivity.
  - repeat split; reflexivity.
Qed.

(** * Further properties of the module *)

(** ** get_string *)

Lemma byte_of_val (b : byte) : Files.byte_of (byte_val b) = b.
Proof. destruct b; reflexivity. Qed.

Lemma chunks_aux_1 {A} (xs : list A) :
  forall fuel, (length xs <= fuel)%nat ->
               chunks_aux fuel 1 xs = map (fun x => [x]) xs.
Proof.
  induction xs as [ | x xs IH]; intros fuel Hf.
  - destruct fuel; reflexivity.
  - destruct fuel as [ | fuel]; [cbn [length] in Hf; lia | ].
    cbn [chunks_aux map firstn skipn]. f_equal. apply IH.
    cbn [length] in Hf. lia.
Qed.

Lemma np_view_uint8 env (s : list byte) :
  np_view env uint8 s = Ok (map byte_val s).
Proof.
  unfold np_view. cbn [itemsize]. rewrite Z.mod_1_r. cbn [Z.eqb].
  f_equal. unfold chunks. change (Z.to_nat 1) with 1%nat.
  rewrite chunks_aux_1 by apply le_n. rewrite map_map.
  apply map_ext. intros b. unfold decode_elem. cbn [int_kind].
  destruct (byteorder env); cbn [rev app le_value]; lia.
Qed.

Lemma tostring_uint8 env (s : list byte) :
  tostring env (NArray uint8 (map byte_val s)) = s.
Proof.
  unfold tostring. cbn [itemsize]. change (Z.to_nat 1) with 1%nat.
  destruct (byteorder env); induction s as [ | b s IH]; try reflexivity;
    cbn [map flat_map le_bytes rev app]; rewrite byte_of_val;
    cbn [app]; f_equal; exact IH.
Qed.

Lemma get_values_BYTE env data offset n :
  get_values env data offset (TName "BYTE") n
  = Ok (Some (NArray uint8 (map byte_val
                                (py_slice data offset (offset + n))))).
Proof.
  unfold get_values.
  change (name2type "BYTE") with (Some 1). cbv beta zeta iota.
  change (type2dtype 1) with (Some uint8).
  change (type2bytes 1) with (Some 1).
  cbv beta zeta iota. rewrite Z.mul_1_l, np_view_uint8. reflexivity.
Qed.

(** X1: with an explicit length [get_string] never raises, also for a
    range that leaves the file: it returns the bytes of the slice
    [data[offset:offset+length]], which Python clips to the data; when
    the range lies in the file these are exactly [length] bytes. *)
Theorem get_string_with_length env data offset n :
  get_string env data offset (Some n)
  = Ok (py_slice data offset (offset + n))
  /\ (0 <= offset -> 0 <= n -> offset + n <= Z.of_nat (length data) ->
      Z.of_nat (length (py_slice data offset (offset + n))) = n).
Proof.
  split.
  - unfold get_string. cbn [bind]. rewrite get_values_BYTE. cbn [bind].
    now rewrite tostring_uint8.
  - intros Ho Hn Hend. rewrite py_slice_length by lia. lia.
Qed.

Lemma get_string_with_length_witness :
  get_string (Files.plain_env little) Files.cyclic_file 6 (Some 100)
  = Ok [x00; x00; x00; x00; x08; x00; x00; x00]
  /\ Z.of_nat (length (py_slice Files.cyclic_file 0 (0 + 2))) = 2.
Proof.
  split.
  - apply (get_string_with_length (Files.plain_env little)
             Files.cyclic_file 6 100).
  - apply (get_string_with_length (Files.plain_env little)
             Files.cyclic_file 0 2); vm_compute; discriminate.
Defined.

Lemma py_index_app_at {A} (pre : list A) (x : A) (rest : list A) :
  py_index (pre ++ x :: rest) (Z.of_nat (length pre)) = Ok x.
Proof.
  apply py_index_nth; [lia | ].
  rewrite Nat2Z.id, nth_error_app2, Nat.sub_diag by apply le_n. reflexivity.
Qed.

Lemma py_index_past {A} (xs : list A) (k : Z) :
  Z.of_nat (length xs) <= k -> py_index xs k = Raise IndexError.
Proof.
  intros Hk. unfold py_index.
  destruct (k <? 0) eqn:H0; [apply Z.ltb_lt in H0; lia | ].
  destruct (Z.leb_spec (Z.of_nat (length xs)) k); [ | lia].
  now rewrite orb_true_r.
Qed.

Lemma py_slice_middle {A} (pre s post : list A) :
  py_slice (pre ++ s ++ post) (Z.of_nat (length pre))
           (Z.of_nat (length pre) + Z.of_nat (length s)) = s.
Proof.
  unfold py_slice, norm_index. rewrite !length_app, !Nat2Z.inj_add.
  destruct (Z.of_nat (length pre) <? 0) eqn:H0;
    [apply Z.ltb_lt in H0; lia | ].
  destruct (Z.of_nat (length pre) + Z.of_nat (length s) <? 0) eqn:H1;
    [apply Z.ltb_lt in H1; lia | ].
  rewrite !Z.min_l by lia. rewrite Nat2Z.id.
  replace (Z.to_nat (Z.of_nat (length pre) + Z.of_nat (length s)
                     - Z.of_nat (length pre))) with (length s) by lia.
  rewrite skipn_app, skipn_all, Nat.sub_diag. cbn [app skipn].
  rewrite firstn_app, firstn_all, Nat.sub_diag. cbn [firstn].
  apply app_nil_r.
Qed.

Lemma byte_val_zero (b : byte) : byte_val b = 0 -> b = x00.
Proof. destruct b; intros H; try reflexivity; discriminate H. Qed.

Lemma scan_zero_finds (post : list byte) (offset : Z) :
  forall (s pre : list byte) (fuel : nat) (i : Z),
    Z.of_nat (length pre) = offset + i ->
    Forall (fun b => b <> x00) s ->
    (length s < fuel)%nat ->
    scan_zero fuel (pre ++ s ++ x00 :: post) offset i
    = Ok (i + Z.of_nat (length s)).
Proof.
  induction s as [ | a s IH]; intros pre fuel i Hpre Hs Hfuel;
    (destruct fuel as [ | fuel]; [lia | ]); cbn [scan_zero].
  - rewrite <- Hpre. cbn [app]. rewrite py_index_app_at. cbn [bind].
    change (byte_val x00 =? 0) with true. cbv iota. cbn [length].
    f_equal. lia.
  - rewrite <- Hpre. cbn [app]. rewrite py_index_app_at. cbn [bind].
    inversion Hs as [ | a' s' Ha Hs']; subst.
    destruct (byte_val a =? 0) eqn:Hz;
      [apply Z.eqb_eq, byte_val_zero in Hz; contradiction | ].
    change (pre ++ a :: s ++ x00 :: post)
      with (pre ++ [a] ++ s ++ x00 :: post).
    rewrite app_assoc. rewrite IH.
    + cbn [length]. f_equal. lia.
    + rewrite length_app. cbn [length]. lia.
    + exact Hs'.
    + cbn [length] in Hfuel. lia.
Qed.

Lemma scan_zero_runs_out (offset : Z) :
  forall (s pre : list byte) (fuel : nat) (i : Z),
    Z.of_nat (length pre) = offset + i ->
    Forall (fun b => b <> x00) s ->
    (length s < fuel)%nat ->
    scan_zero fuel (pre ++ s) offset i = Raise IndexError.
Proof.
  induction s as [ | a s IH]; intros pre fuel i Hpre Hs Hfuel;
    (destruct fuel as [ | fuel]; [lia | ]); cbn [scan_zero].
  - rewrite app_nil_r, py_index_past by lia. reflexivity.
  - rewrite <- Hpre. rewrite py_index_app_at. cbn [bind].
    inversion Hs as [ | a' s' Ha Hs']; subst.
    destruct (byte_val a =? 0) eqn:Hz;
      [apply Z.eqb_eq, byte_val_zero in Hz; contradiction | ].
    change (pre ++ a :: s) with (pre ++ [a] ++ s).
    rewrite app_assoc. apply IH.
    + rewrite length_app. cbn [length]. lia.
    + exact Hs'.
    + cbn [length] in Hfuel. lia.
Qed.

(** X2: without a length [get_string] reads a zero-terminated string:
    when the bytes [s] at [offset] hold no zero and a zero byte follows
    them, it returns exactly [s] (the zero byte is not part of it). *)
Theorem get_string_zero_terminated env (pre s post : list byte) :
  Forall (fun b => b <> x00) s ->
  get_string env (pre ++ s ++ x00 :: post) (Z.of_nat (length pre)) None
  = Ok s.
Proof.
  intros Hs. unfold get_string.
  rewrite (scan_zero_finds post (Z.of_nat (length pre)) s pre _ 0);
    [ | lia | exact Hs | rewrite !length_app; lia].
  cbn [bind]. rewrite get_values_BYTE. cbn [bind].
  rewrite tostring_uint8. rewrite Z.add_0_l. f_equal. apply py_slice_middle.
Qed.

Lemma get_string_zero_terminated_witness :
  get_string (Files.plain_env little)
             ([x49; x49] ++ [x2a] ++ x00 :: [x08; x00])
             (Z.of_nat (length [x49; x49])) None
  = Ok [x2a].
Proof.
  apply (get_string_zero_terminated (Files.plain_env little)
           [x49; x49] [x2a] [x08; x00]).
  repeat constructor; discriminate.
Defined.

(** X3: without a length and without a zero byte from [offset] to the
    end of the data, [get_string] runs over the end and raises
    IndexError; no string is returned. *)
Theorem get_string_unterminated env (pre s : list byte) :
  Forall (fun b => b <> x00) s ->
  get_string env (pre ++ s) (Z.of_nat (length pre)) None = Raise IndexError.
Proof.
  intros Hs. unfold get_string.
  rewrite (scan_zero_runs_out (Z.of_nat (length pre)) s pre _ 0);
    [reflexivity | lia | exact Hs | rewrite !length_app; lia].
Qed.

Lemma get_string_unterminated_witness :
  get_string (Files.plain_env little) ([x49; x49] ++ [x2a; x2a])
             (Z.of_nat (length [x49; x49])) None
  = Raise IndexError.
Proof.
  apply (get_string_unterminated (Files.plain_env little)
           [x49; x49] [x2a; x2a]).
  repeat constructor; discriminate.
Defined.

(** ** The typed reads at the bounds of the data *)

Lemma byte_val_bound (b : byte) : 0 <= byte_val b < 256.
Proof. destruct b; cbv; split; congruence. Qed.

Lemma le_value_bound (bs : list byte) :
  0 <= le_value bs < 256 ^ Z.of_nat (length bs).
Proof.
  induction bs as [ | b bs IH]; [cbn; lia | ].
  cbn [le_value length]. rewrite Nat2Z.inj_succ, Z.pow_succ_r by lia.
  pose proof (byte_val_bound b). lia.
Qed.

Lemma chunks_single {A} (w : nat) (s : list A) :
  (0 < w)%nat -> length s = w -> chunks w s = [s].
Proof.
  intros Hw Hlen. unfold chunks. destruct s as [ | x s]; [cbn in Hlen; lia | ].
  cbn [length chunks_aux]. rewrite <- Hlen, firstn_all, skipn_all.
  destruct (length s); reflexivity.
Qed.

Lemma py_slice_length_clip {A} (xs : list A) (a b : Z) :
  0 <= a <= b ->
  Z.of_nat (length (py_slice xs a b))
  = Z.min b (Z.of_nat (length xs)) - Z.min a (Z.of_nat (length xs)).
Proof.
  intros Hab. unfold py_slice, norm_index.
  destruct (a <? 0) eqn:Ha; [apply Z.ltb_lt in Ha; lia | ].
  destruct (b <? 0) eqn:Hb; [apply Z.ltb_lt in Hb; lia | ].
  rewrite length_firstn, length_skipn. lia.
Qed.

Lemma decode_elem_range env d (s : list byte) :
  Z.of_nat (length s) = itemsize d -> in_range d (decode_elem env d s).
Proof.
  intros Hlen. unfold decode_elem, in_range.
  set (u := le_value _).
  assert (Hu : 0 <= u < 256 ^ itemsize d).
  { subst u. rewrite <- Hlen.
    destruct (byteorder env); [apply le_value_bound | ].
    rewrite <- length_rev. apply le_value_bound. }
  clearbody u. clear Hlen.
  destruct d; cbn [int_kind itemsize] in *;
    try (destruct (Z.leb_spec (2 ^ (8 - 1)) u));
    try (destruct (Z.leb_spec (2 ^ (16 - 1)) u));
    try (destruct (Z.leb_spec (2 ^ (32 - 1)) u));
    try (destruct (Z.leb_spec (2 ^ (64 - 1)) u));
    cbn in *; lia.
Qed.

(** X4: a typed read ([get_uint16], [get_uint32], [get_int16],
    [get_int32]) of a range that lies in the data returns: the value is
    the element decoded from the bytes of that range, and it lies in
    the range of the element type. *)
Theorem typed_read_in_bounds env data d offset :
  0 <= offset -> offset + itemsize d <= Z.of_nat (length data) ->
  get_scalar env data d offset
  = Ok (decode_elem env d (py_slice data offset (offset + itemsize d)))
  /\ in_range d (decode_elem env d (py_slice data offset
                                             (offset + itemsize d))).
Proof.
  intros Ho Hend. pose proof (itemsize_pos d) as Hw.
  assert (Hlen : Z.of_nat (length (py_slice data offset (offset + itemsize d)))
                 = itemsize d) by (rewrite py_slice_length; lia).
  split; [ | now apply decode_elem_range].
  unfold get_scalar, np_view. rewrite Hlen, Z.mod_same by lia.
  cbn [Z.eqb bind]. rewrite chunks_single by lia. cbn [map].
  apply py_index_0.
Qed.

Lemma typed_read_in_bounds_witness :
  get_uint32 (Files.plain_env little) Files.cyclic_file 4 = Ok 8
  /\ in_range uint32 8.
Proof.
  apply (typed_read_in_bounds (Files.plain_env little) Files.cyclic_file
           uint32 4); vm_compute; discriminate.
Defined.

(** X5: a typed read at a nonnegative offset that does not lie in the
    data raises: IndexError when the offset is at or after the end of
    the data (the slice is empty), ValueError when the data end inside
    the element (the slice is shorter than the element). *)
Theorem typed_read_out_of_bounds env data d offset :
  0 <= offset -> Z.of_nat (length data) < offset + itemsize d ->
  get_scalar env data d offset
  = if Z.of_nat (length data) <=? offset
    then Raise IndexError
    else Raise (ValueError "new type not compatible with array").
Proof.
  intros Ho Hend. pose proof (itemsize_pos d) as Hw.
  pose proof (py_slice_length_clip data offset (offset + itemsize d)) as Hlen.
  unfold get_scalar, np_view.
  destruct (Z.leb_spec (Z.of_nat (length data)) offset) as [Hpast | Hin].
  - rewrite Z.min_r, Z.min_r in Hlen by lia.
    destruct (py_slice data offset (offset + itemsize d)) as [ | x xs];
      [ | cbn [length] in Hlen; lia].
    cbn [length]. rewrite Z.mod_0_l by lia. reflexivity.
  - rewrite Z.min_r, Z.min_l in Hlen by lia.
    rewrite Hlen by lia. rewrite Z.mod_small by lia.
    destruct (Z.eqb_spec (Z.of_nat (length data) - offset) 0); [lia | ].
    reflexivity.
Qed.

Lemma typed_read_out_of_bounds_witness :
  get_uint32 (Files.plain_env little) Files.cyclic_file 12
  = Raise (ValueError "new type not compatible with array")
  /\ get_uint16 (Files.plain_env little) Files.cyclic_file 14
     = Raise IndexError.
Proof.
  split.
  - apply (typed_read_out_of_bounds (Files.plain_env little)
             Files.cyclic_file uint32 12); vm_compute; [discriminate | ].
    reflexivity.
  - apply (typed_read_out_of_bounds (Files.plain_env little)
             Files.cyclic_file uint16 14); vm_compute; [discriminate | ].
    reflexivity.
Defined.

(** ** What TIFFfile.__init__ accepts and records *)

(** X6: a file that [__init__] opens was opened in mode 'r' and is not
    empty; the two bytes at [first_byte] read 0x4949 or 0x4d4d, and
    [endian] is little or big accordingly; the next two bytes read 42
    in the byte order of the machine; the object keeps the data and
    [first_byte], and [IFD0] is [first_byte] plus the offset field. *)
Theorem opened_file_invariant env fuel file mode fb tiff :
  TIFFfile_init env fuel file mode fb = Some (Ok tiff) ->
  mode = "r"%string
  /\ file <> []
  /\ data tiff = file /\ first_byte tiff = fb
  /\ (get_uint16 env file fb = Ok 0x4949 /\ endian tiff = little
      \/ get_uint16 env file fb = Ok 0x4d4d /\ endian tiff = big)
  /\ get_uint16 env file (fb + 2) = Ok 42
  /\ exists off, get_uint32 env file (fb + 4) = Ok off
                 /\ IFD0 tiff = fb + off.
Proof.
  unfold TIFFfile_init. intros H.
  destruct (String.eqb_spec mode "r") as [-> | Hm]; [ | discriminate].
  cbn [negb] in H. split; [reflexivity | ].
  destruct file as [ | b0 file]; [discriminate | ].
  split; [discriminate | ]. cbn [length Nat.eqb] in H.
  destruct (read_header env (b0 :: file) fb) as [[en o] | e | ] eqn:Hh;
    try discriminate.
  destruct (walk env fuel (b0 :: file) o _ _) as [[[ifds us] | e | ] | ];
    try discriminate.
  injection H as <-. cbn [data first_byte endian IFD0].
  split; [reflexivity | ]. split; [reflexivity | ].
  unfold read_header in Hh. apply bind_ok in Hh as (bo & Hbo & Hh).
  apply bind_ok in Hh as (en' & Hen & Hh).
  apply bind_ok in Hh as (magic & Hmagic & Hh).
  destruct (Z.eqb_spec magic 42) as [-> | Hne]; [ | discriminate].
  cbn [negb] in Hh. apply bind_ok in Hh as (off & Hoff & Hh).
  apply bind_ok in Hh as (n & _ & Hh). injection Hh as <- <-.
  split.
  - destruct (Z.eqb_spec bo 0x4949) as [-> | H1].
    + injection Hen as <-. left. now split.
    + destruct (Z.eqb_spec bo 0x4d4d) as [-> | H2]; [ | discriminate].
      injection Hen as <-. right. now split.
  - split; [exact Hmagic | ]. exists off. now split.
Qed.

Lemma opened_file_invariant_witness :
  exists tiff,
    Files.opened little 1 Files.big_header_file 2 = Some (Ok tiff)
    /\ endian tiff = big /\ IFD0 tiff = 10.
Proof.
  eexists. split; [vm_compute; reflexivity | ].
  destruct (opened_file_invariant (Files.plain_env little) 1
              Files.big_header_file "r" 2 _ eq_refl)
    as (_ & _ & _ & _ & Hen & _ & off & Hoff & H0).
  split; [reflexivity | ].
  vm_compute in Hoff. injection Hoff as <-. exact H0.
Defined.

(** X7: when the two bytes at [first_byte] of a file that is not empty
    read as a number other than 0x4949 and 0x4d4d, opening raises
    ValueError('unrecognized byteorder'), and when they read as one of
    the two but the next two bytes do not read 42, it raises
    ValueError('wrong magic number'), before any directory is read. *)
Theorem header_is_checked env fuel file fb bo :
  file <> [] ->
  get_uint16 env file fb = Ok bo ->
  (bo <> 0x4949 -> bo <> 0x4d4d ->
   TIFFfile_init env fuel file "r" fb
   = Some (Raise (ValueError "unrecognized byteorder")))
  /\ (forall magic,
         bo = 0x4949 \/ bo = 0x4d4d ->
         get_uint16 env file (fb + 2) = Ok magic -> magic <> 42 ->
         TIFFfile_init env fuel file "r" fb
         = Some (Raise (ValueError "wrong magic number for TIFF file"))).
Proof.
  intros Hne Hbo. unfold TIFFfile_init.
  change (negb ("r" =? "r")%string) with false. cbv iota.
  destruct file as [ | b0 file]; [contradiction | ]. cbn [length Nat.eqb].
  unfold read_header. rewrite Hbo. cbn [bind]. split.
  - intros H1 H2. apply Z.eqb_neq in H1, H2. now rewrite H1, H2.
  - intros magic Hor Hm Hne42. apply Z.eqb_neq in Hne42.
    destruct Hor as [-> | ->]; cbn [Z.eqb Pos.eqb bind];
      rewrite Hm; cbn [bind]; now rewrite Hne42.
Qed.

Lemma header_is_checked_witness :
  Files.opened little 0 (x00 :: Files.cyclic_file) 0
  = Some (Raise (ValueError "unrecognized byteorder")).
Proof.
  apply (proj1 (header_is_checked (Files.plain_env little) 0
                  (x00 :: Files.cyclic_file) 0 18688
                  ltac:(discriminate) eq_refl));
    discriminate.
Defined.

Lemma walk_chain_usage env file o dirs :
  chain env file o dirs ->
  forall fuel IFDs usage,
    (length dirs <= fuel)%nat ->
    exists areas,
      walk env fuel file o IFDs usage
      = Some (Ok (IFDs ++ map snd dirs, usage ++ areas))
      /\ Forall2 (directory_area env file) dirs areas.
Proof.
  induction 1 as [ | o n ifd next rest Ho Hdir _ IH];
    intros fuel IFDs usage Hfuel.
  - exists []. rewrite !app_nil_r. split; [ | constructor].
    destruct fuel; reflexivity.
  - destruct fuel as [ | fuel]; [cbn [length] in Hfuel; lia | ].
    cbn [walk]. apply Z.eqb_neq in Ho. rewrite Ho.
    unfold read_directory. rewrite Hdir. cbn [bind].
    match goal with
    | |- context [walk env fuel file next ?a (usage ++ [?r])] =>
        destruct (IH fuel a (usage ++ [r])) as (areas & Hw & Hareas);
          [cbn [length] in Hfuel; lia | ];
          exists (r :: areas)
    end.
    split;
      [etransitivity; [exact Hw | ]; cbn [map snd];
       rewrite <- !app_assoc; reflexivity | ].
    constructor; [ | exact Hareas].
    unfold directory_at in Hdir. apply bind_ok in Hdir as (n' & Hn & Hdir).
    apply bind_ok in Hdir as (es & _ & Hdir).
    apply bind_ok in Hdir as (ifd' & _ & Hdir).
    apply bind_ok in Hdir as (next' & _ & Hdir). injection Hdir as -> _ _.
    exists n. cbn [fst snd]. now repeat split.
Qed.

(** X8: after a file with a chain of N directories is opened,
    [memory_usage] holds N+2 areas: the end of the file, the eight
    bytes of the header at [first_byte], and then for every directory,
    in the order of the chain, the bytes from its offset [o] to
    [o + 2 + 12*n + 4], where [n] is its number of entries. *)
Theorem memory_usage_after_open env file fb en o dirs fuel :
  read_header env file fb = Ok (en, o) ->
  chain env file o dirs ->
  (length dirs <= fuel)%nat ->
  exists tiff areas,
    TIFFfile_init env fuel file "r" fb = Some (Ok tiff)
    /\ memory_usage tiff
       = [(Z.of_nat (length file), Z.of_nat (length file), "eof"%string);
          (fb, fb + 8, "file header"%string)] ++ areas
    /\ Forall2 (directory_area env file) dirs areas.
Proof.
  intros Hh Hc Hfuel. unfold TIFFfile_init.
  change (negb ("r" =? "r")%string) with false. cbv iota.
  rewrite (read_header_nonempty _ _ _ _ Hh), Hh.
  destruct (walk_chain_usage env file o dirs Hc fuel []
              [(Z.of_nat (length file), Z.of_nat (length file), "eof"%string);
               (fb, fb + 8, "file header"%string)] Hfuel)
    as (areas & Hw & Hareas).
  rewrite Hw. eexists. exists areas. split; [reflexivity | ].
  split; [reflexivity | exact Hareas].
Qed.

Lemma memory_usage_after_open_witness :
  exists tiff,
    Files.opened little 1 Files.unknown_type_file 0 = Some (Ok tiff)
    /\ map fst (memory_usage tiff) = [(26, 26); (0, 8); (8, 26)].
Proof.
  destruct (memory_usage_after_open (Files.plain_env little)
              Files.unknown_type_file 0 little 8
              [(8, nth 0 (match Files.opened little 1
                                  Files.unknown_type_file 0 with
                          | Some (Ok t) => IFD_list t
                          | _ => []
                          end) (mkIFD []))] 1)
    as (tiff & areas & Hopen & Hmu & Hareas).
  - vm_compute. reflexivity.
  - eapply chain_link; [discriminate | vm_compute; reflexivity | ].
    apply chain_end.
  - apply le_n.
  - exists tiff. split; [exact Hopen | ].
    vm_compute in Hopen. injection Hopen as <-. reflexivity.
Defined.

(** ** Lookup in a directory *)

Lemma find_app_first {A} (f : A -> bool) (xs ys : list A) :
  find f (xs ++ ys)
  = match find f xs with Some x => Some x | None => find f ys end.
Proof.
  induction xs as [ | x xs IH]; [reflexivity | ].
  cbn [app find]. destruct (f x); [reflexivity | exact IH].
Qed.

(** X9: [IFD.get] answers with the first entry of the tag name, so an
    entry appended to a directory is found under its tag name only when
    no entry of the directory had that name, and no lookup of another
    name changes; [get_value] gives the default for a name the
    directory lacks, the value of the first entry otherwise, and raises
    AttributeError when that entry was left without a value. *)
Theorem lookup_first_match (ifd : IFD) (e : IFDEntry) (name : string)
  (default : pyval) :
  IFD_get (IFD_append ifd e) name
  = match IFD_get ifd name with
    | Some x => Some x
    | None => if String.eqb (tag_name e) name then Some e else None
    end
  /\ IFD_len (IFD_append ifd e) = S (IFD_len ifd)
  /\ (IFD_get ifd name = None ->
      IFD_get_value ifd name default = Ok default)
  /\ (forall x, IFD_get ifd name = Some x ->
                tag_name x = name
                /\ IFD_get_value ifd name default
                   = match value x with
                     | Some v => Ok (of_npvalue v)
                     | None => Raise AttributeError
                     end).
Proof.
  split; [ | split; [ | split]].
  - unfold IFD_get, IFD_append. cbn [entries]. rewrite find_app_first.
    destruct (find _ (entries ifd)); [reflexivity | ]. cbn [find].
    now destruct (String.eqb (tag_name e) name).
  - unfold IFD_len, IFD_append. cbn [entries]. rewrite length_app.
    cbn [length]. lia.
  - intros H. unfold IFD_get_value. now rewrite H.
  - intros x H. split.
    + unfold IFD_get in H. apply find_some in H as [_ H].
      now apply String.eqb_eq.
    + unfold IFD_get_value, entry_value. now rewrite H.
Qed.

Lemma lookup_first_match_witness :
  IFD_get_value (Files.strips_ifd [1] [2]) "ImageWidth"
                (PNum (PyInt 7)) = Ok (PNum (PyInt 7))
  /\ IFD_get_value (Files.strips_ifd [1] [2]) "StripOffsets" PNone
     = Ok (PArr uint32 [1]).
Proof.
  destruct (lookup_first_match (Files.strips_ifd [1] [2])
              (nth 0 (entries (Files.strips_ifd [1] [2]))
                   (mkIFDEntry 0 0 0 None None 0 "" "" []))
              "ImageWidth" (PNum (PyInt 7))) as (_ & _ & H & _).
  destruct (lookup_first_match (Files.strips_ifd [1] [2])
              (nth 0 (entries (Files.strips_ifd [1] [2]))
                   (mkIFDEntry 0 0 0 None None 0 "" "" []))
              "StripOffsets" PNone) as (_ & _ & _ & H').
  split; [apply H; reflexivity | ].
  exact (proj2 (H' _ eq_refl)).
Defined.

(** ** IFD.finalize and the strip hook *)

Lemma StripOffsets_hook_other ifd e :
  tag_name e <> "StripOffsets"%string -> StripOffsets_hook ifd e = Ok e.
Proof.
  intros Hne. unfold StripOffsets_hook.
  apply String.eqb_neq in Hne. now rewrite Hne.
Qed.

Lemma StripOffsets_hook_finalized ifd e e' :
  StripOffsets_hook ifd e = Ok e' -> finalized e e'.
Proof.
  unfold StripOffsets_hook, finalized.
  destruct (String.eqb_spec (tag_name e) "StripOffsets") as [Hn | Hn].
  - intros H. destruct (offset e) eqn:Hoff.
    + bind_inv H. destruct a as [ | | dc lc]; try discriminate.
      destruct a0 as [ | | d_o lo]; try discriminate.
      bind_inv H. injection H as <-. unfold entry_fields. cbn.
      rewrite Hoff. split; [reflexivity | ]. split; [contradiction | eauto].
    + bind_inv H. destruct a as [ | o | ]; try discriminate.
      destruct a0 as [ | c | ]; try discriminate.
      bind_inv H. injection H as <-. unfold entry_fields. cbn.
      rewrite Hoff. split; [reflexivity | ]. split; [contradiction | eauto].
  - intros H. injection H as <-. split; [reflexivity | ].
    split; [reflexivity | ]. exists []. now rewrite app_nil_r.
Qed.

Lemma finalize_from_finalized env :
  finalize_hooks env = [] ->
  forall todo done res,
    finalize_from env done todo = Ok res ->
    exists todo', res = done ++ todo' /\ Forall2 finalized todo todo'.
Proof.
  intros Hh. induction todo as [ | e rest IH]; intros done res H.
  - injection H as <-. exists []. split; [now rewrite app_nil_r | constructor].
  - cbn [finalize_from] in H. unfold IFDEntry_finalize_hooks in H.
    rewrite Hh in H. cbn [foldM] in H.
    apply bind_ok in H as (e' & He & H).
    apply bind_ok in He as (e1 & He1 & He). injection He as <-.
    destruct (IH _ _ H) as (rest' & -> & Hrest).
    exists (e1 :: rest'). rewrite <- app_assoc. split; [reflexivity | ].
    constructor; [ | exact Hrest].
    exact (StripOffsets_hook_finalized _ _ _ He1).
Qed.

(** X10: with no hook but [StripOffsets_hook] registered, a directory
    that [finalize] returns has the entries it had, in their order and
    with all their fields (tag, type, count, offset, value, names); the
    memory areas of an entry only grow at the end, and an entry that is
    not named StripOffsets is not changed at all. *)
Theorem finalize_keeps_entries env ifd ifd' :
  finalize_hooks env = [] ->
  IFD_finalize env ifd = Ok ifd' ->
  Forall2 finalized (entries ifd) (entries ifd')
  /\ IFD_len ifd' = IFD_len ifd
  /\ forall name,
       option_map entry_fields (IFD_get ifd' name)
       = option_map entry_fields (IFD_get ifd name).
Proof.
  intros Hh H. unfold IFD_finalize in H. apply bind_ok in H as (es & Hes & H).
  injection H as <-. cbn [entries].
  destruct (finalize_from_finalized env Hh _ _ _ Hes) as (es' & -> & HF).
  cbn [app]. split; [exact HF | ]. split.
  - unfold IFD_len. cbn [entries]. symmetry. exact (Forall2_length HF).
  - intros name. unfold IFD_get. cbn [entries]. clear Hes.
    induction HF as [ | e e' l l' (Hf & _ & _) _ IH]; [reflexivity | ].
    cbn [find]. assert (Hn : tag_name e' = tag_name e).
    { unfold entry_fields in Hf. now injection Hf. }
    rewrite Hn. destruct (String.eqb (tag_name e) name); [ | exact IH].
    cbn [option_map]. now rewrite Hf.
Qed.

Lemma finalize_keeps_entries_witness :
  exists ifd',
    IFD_finalize (Files.plain_env little) (Files.strips_ifd [5; 9] [4; 1])
    = Ok ifd'
    /\ IFD_len ifd' = 2%nat
    /\ map entry_memory_usage (entries ifd')
       = [[(5, 9, "strip 0"%string); (9, 10, "strip 1"%string)]; []].
Proof.
  eexists. split; [vm_compute; reflexivity | ].
  split; [ | reflexivity].
  apply (finalize_keeps_entries (Files.plain_env little)
           (Files.strips_ifd [5; 9] [4; 1]) _ eq_refl eq_refl).
Defined.

Lemma finalize_from_needs_counts env :
  finalize_hooks env = [] ->
  forall todo done,
    (forall e, In e (done ++ todo) ->
               tag_name e <> "StripByteCounts"%string) ->
    (exists e, In e todo /\ tag_name e = "StripOffsets"%string) ->
    finalize_from env done todo = Raise AttributeError.
Proof.
  intros Hh. induction todo as [ | e rest IH]; intros done Hnone (x & Hin & Hx);
    [destruct Hin | ].
  cbn [finalize_from]. unfold IFDEntry_finalize_hooks. rewrite Hh.
  cbn [foldM].
  destruct (String.eqb_spec (tag_name e) "StripOffsets") as [Hn | Hn].
  - unfold StripOffsets_hook. apply String.eqb_eq in Hn. rewrite Hn.
    assert (Hget : IFD_get (mkIFD (done ++ e :: rest)) "StripByteCounts"
                   = None).
    { unfold IFD_get. cbn [entries].
      destruct (find _ (done ++ e :: rest)) as [c | ] eqn:Hf; [ | reflexivity].
      apply find_some in Hf as [Hc Hname]. apply String.eqb_eq in Hname.
      now destruct (Hnone c Hc). }
    rewrite Hget. destruct (offset e); cbn [bind]; [reflexivity | ].
    unfold entry_value. destruct (value e); reflexivity.
  - rewrite (StripOffsets_hook_other _ _ Hn). cbn [bind].
    change (done ++ e :: rest) with (done ++ [e] ++ rest) in Hnone.
    rewrite app_assoc in Hnone. apply IH; [exact Hnone | ].
    destruct Hin as [<- | Hin]; [contradiction | ]. now exists x.
Qed.

(** X11: with no hook but [StripOffsets_hook] registered, a directory
    with a StripOffsets entry and no StripByteCounts entry cannot be
    finalized: [finalize] raises AttributeError, so reading the
    directory, and with it opening the file, fails with that error. *)
Theorem strip_offsets_need_byte_counts env ifd :
  finalize_hooks env = [] ->
  (exists e, In e (entries ifd) /\ tag_name e = "StripOffsets"%string) ->
  (forall e, In e (entries ifd) -> tag_name e <> "StripByteCounts"%string) ->
  IFD_finalize env ifd = Raise AttributeError
  /\ forall file o n,
       get_uint16 env file o = Ok n ->
       mapM (fun k => IFDEntry_init env file (o + 2 + k * 12)) (range n)
       = Ok (entries ifd) ->
       directory_at env file o = Raise AttributeError
       /\ (o <> 0 -> forall fuel IFDs usage,
             walk env (S fuel) file o IFDs usage
             = Some (Raise AttributeError)).
Proof.
  intros Hh Hso Hnone.
  assert (Hfin : IFD_finalize env ifd = Raise AttributeError).
  { unfold IFD_finalize.
    now rewrite (finalize_from_needs_counts env Hh (entries ifd) []). }
  split; [exact Hfin | ]. intros file o n Hn Hes.
  assert (Hdir : directory_at env file o = Raise AttributeError).
  { unfold directory_at. rewrite Hn. cbn [bind]. rewrite Hes. cbn [bind].
    destruct ifd as [es]. cbn [entries]. now rewrite Hfin. }
  split; [exact Hdir | ]. intros Ho fuel IFDs usage. cbn [walk].
  apply Z.eqb_neq in Ho. rewrite Ho. unfold read_directory.
  now rewrite Hdir.
Qed.

Lemma strip_offsets_need_byte_counts_witness :
  Files.opened little 1
    (Files.header_bytes 8 ++ Files.directory_bytes [(273, 4, 1, 26)] 0) 0
  = Some (Raise AttributeError)
  /\ IFD_finalize (Files.plain_env little)
       (mkIFD [nth 0 (entries (Files.strips_ifd [5] [4]))
                   (mkIFDEntry 0 0 0 None None 0 "" "" [])])
     = Raise AttributeError.
Proof.
  split; [vm_compute; reflexivity | ].
  apply (strip_offsets_need_byte_counts (Files.plain_env little)).
  - reflexivity.
  - eexists. split; [left; reflexivity | reflexivity].
  - intros e [<- | []]. discriminate.
Defined.

(** ** check_memory_usage *)

Lemma ascii_compare_trans (a b c : ascii) (r : comparison) :
  Ascii.compare a b = r -> Ascii.compare b c = r -> Ascii.compare a c = r.
Proof.
  unfold Ascii.compare. intros H1 H2.
  destruct (N.compare_spec (N_of_ascii a) (N_of_ascii b));
    destruct (N.compare_spec (N_of_ascii b) (N_of_ascii c));
    destruct (N.compare_spec (N_of_ascii a) (N_of_ascii c));
    subst; try discriminate; try reflexivity; lia.
Qed.

Lemma string_leb_trans (a b c : string) :
  String.leb a b = true -> String.leb b c = true -> String.leb a c = true.
Proof.
  unfold String.leb. revert b c.
  induction a as [ | x a IH]; intros [ | y b] [ | z c]; cbn;
    try reflexivity; try discriminate.
  intros H1 H2.
  destruct (Ascii.compare x y) eqn:Hxy; try discriminate;
    destruct (Ascii.compare y z) eqn:Hyz; try discriminate.
  - apply Ascii.compare_eq_iff in Hxy, Hyz. subst.
    assert (Hzz : Ascii.compare z z = Eq)
      by (unfold Ascii.compare; apply N.compare_refl).
    rewrite Hzz. now apply (IH b c).
  - apply Ascii.compare_eq_iff in Hxy. subst. now rewrite Hyz.
  - apply Ascii.compare_eq_iff in Hyz. subst. now rewrite Hxy.
  - now rewrite (ascii_compare_trans x y z Lt Hxy Hyz).
Qed.

Lemma region_leb_total (a b : region) :
  region_leb a b = true \/ region_leb b a = true.
Proof.
  destruct a as [[s1 e1] r1], b as [[s2 e2] r2]. unfold region_leb.
  destruct (Z.ltb_spec s1 s2), (Z.ltb_spec s2 s1),
           (Z.eqb_spec s1 s2), (Z.eqb_spec s2 s1); try lia; cbn; auto.
  destruct (Z.ltb_spec e1 e2), (Z.ltb_spec e2 e1),
           (Z.eqb_spec e1 e2), (Z.eqb_spec e2 e1); try lia; cbn; auto.
  apply String.leb_total.
Qed.

Lemma region_leb_antisym (a b : region) :
  region_leb a b = true -> region_leb b a = true -> a = b.
Proof.
  destruct a as [[s1 e1] r1], b as [[s2 e2] r2]. unfold region_leb.
  destruct (Z.ltb_spec s1 s2), (Z.ltb_spec s2 s1),
           (Z.eqb_spec s1 s2), (Z.eqb_spec s2 s1); try lia; cbn;
    try discriminate.
  destruct (Z.ltb_spec e1 e2), (Z.ltb_spec e2 e1),
           (Z.eqb_spec e1 e2), (Z.eqb_spec e2 e1); try lia; cbn;
    try discriminate.
  intros Hab Hba. subst. f_equal. now apply String.leb_antisym.
Qed.

Lemma region_leb_trans (a b c : region) :
  region_leb a b = true -> region_leb b c = true -> region_leb a c = true.
Proof.
  destruct a as [[s1 e1] r1], b as [[s2 e2] r2], c as [[s3 e3] r3].
  unfold region_leb.
  destruct (Z.ltb_spec s1 s2), (Z.ltb_spec s2 s3), (Z.ltb_spec s1 s3),
           (Z.eqb_spec s1 s2), (Z.eqb_spec s2 s3), (Z.eqb_spec s1 s3);
    try lia; cbn; try discriminate; try reflexivity.
  destruct (Z.ltb_spec e1 e2), (Z.ltb_spec e2 e3), (Z.ltb_spec e1 e3),
           (Z.eqb_spec e1 e2), (Z.eqb_spec e2 e3), (Z.eqb_spec e1 e3);
    try lia; cbn; try discriminate; try reflexivity.
  apply string_leb_trans.
Qed.

Lemma insert_region_perm (r : region) (l : list region) :
  Permutation (insert_region r l) (r :: l).
Proof.
  induction l as [ | x l IH]; [reflexivity | ].
  cbn [insert_region]. destruct (region_leb r x); [reflexivity | ].
  rewrite IH. apply perm_swap.
Qed.

Lemma sort_regions_perm (l : list region) : Permutation (sort_regions l) l.
Proof.
  induction l as [ | r l IH]; [reflexivity | ].
  cbn [sort_regions fold_right]. fold (sort_regions l).
  rewrite insert_region_perm. now constructor.
Qed.

Lemma insert_region_sorted (r : region) (l : list region) :
  StronglySorted (fun a b => region_leb a b = true) l ->
  StronglySorted (fun a b => region_leb a b = true) (insert_region r l).
Proof.
  induction 1 as [ | x l Hs IH Hx]; [repeat constructor | ].
  cbn [insert_region]. destruct (region_leb r x) eqn:Hrx.
  - constructor; [now constructor | ]. constructor; [exact Hrx | ].
    apply Forall_forall. intros y Hy.
    apply (region_leb_trans r x y Hrx).
    now apply (proj1 (Forall_forall _ _) Hx).
  - constructor; [exact IH | ].
    apply Forall_forall. intros y Hy.
    apply (Permutation_in _ (insert_region_perm r l)) in Hy.
    destruct Hy as [<- | Hy].
    + destruct (region_leb_total x r) as [H | H]; [exact H | congruence].
    + now apply (proj1 (Forall_forall _ _) Hx).
Qed.

Lemma sort_regions_sorted (l : list region) :
  StronglySorted (fun a b => region_leb a b = true) (sort_regions l).
Proof.
  induction l as [ | r l IH]; [constructor | ].
  cbn [sort_regions fold_right]. now apply insert_region_sorted.
Qed.

(** A list of areas has one sorted arrangement only. *)
Lemma sorted_regions_unique (l1 l2 : list region) :
  StronglySorted (fun a b => region_leb a b = true) l1 ->
  StronglySorted (fun a b => region_leb a b = true) l2 ->
  Permutation l1 l2 -> l1 = l2.
Proof.
  intros H1. revert l2. induction H1 as [ | a l1 Hs1 IH Ha];
    intros l2 H2 Hp.
  - now apply Permutation_nil in Hp.
  - destruct H2 as [ | b l2 Hs2 Hb];
      [apply Permutation_sym, Permutation_nil in Hp; discriminate | ].
    assert (Hab : a = b).
    { apply region_leb_antisym.
      - assert (Hin : In b (a :: l1))
          by (apply (Permutation_in _ (Permutation_sym Hp)); now left).
        destruct Hin as [-> | Hin];
          [destruct (region_leb_total b b); assumption | ].
        now apply (proj1 (Forall_forall _ _) Ha).
      - assert (Hin : In a (b :: l2))
          by (apply (Permutation_in _ Hp); now left).
        destruct Hin as [-> | Hin];
          [destruct (region_leb_total a a); assumption | ].
        now apply (proj1 (Forall_forall _ _) Hb). }
    subst b. f_equal. apply IH; [exact Hs2 | ].
    now apply Permutation_cons_inv in Hp.
Qed.

Lemma check_regions_false (l : list region) (last : option Z) :
  check_regions last false l = false.
Proof.
  revert last. induction l as [ | [[s e] r] l IH]; intros last;
    [reflexivity | ].
  cbn [check_regions]. destruct last as [le | ]; [ | apply IH].
  destruct (le =? 0); [apply IH | ].
  destruct (negb (le =? s)); apply IH.
Qed.

Lemma check_regions_joins (l : list region) :
  forall a,
    check_regions (Some (snd (fst a))) true l = true
    <-> (forall pre x y post, a :: l = pre ++ x :: y :: post -> joins x y).
Proof.
  induction l as [ | b l IH]; intros a.
  - cbn [check_regions]. split; [ | reflexivity].
    intros _ pre x y post H. destruct pre as [ | p [ | q pre]]; discriminate.
  - destruct b as [[s e] r]. cbn [check_regions].
    pose proof (IH (s, e, r)) as IH'. cbn [fst snd] in IH'.
    assert (Hstep : joins a (s, e, r) ->
              (check_regions (Some e) true l = true
               <-> (forall pre x y post,
                       a :: (s, e, r) :: l = pre ++ x :: y :: post ->
                       joins x y))).
    { intros Hj. split.
      - intros H pre x y post Heq. destruct pre as [ | p pre].
        + injection Heq as <- <- _. exact Hj.
        + injection Heq as _ Heq.
          apply (proj1 IH' H pre x y post Heq).
      - intros H. apply (proj2 IH'). intros pre x y post Heq.
        apply (H (a :: pre) x y post). cbn [app]. now rewrite Heq. }
    destruct (Z.eqb_spec (snd (fst a)) 0) as [H0 | H0];
      [ | destruct (Z.eqb_spec (snd (fst a)) s) as [Hs | Hs]]; cbn [negb].
    + apply Hstep. now left.
    + apply Hstep. now right.
    + rewrite check_regions_false. split; [discriminate | ].
      intros H. destruct (H [] a (s, e, r) l eq_refl) as [Hj | Hj];
        cbn [fst snd] in Hj; contradiction.
Qed.

(** X12: [check_memory_usage] returns True exactly when, in the sorted
    list of all recorded areas, every area ends where the next one
    starts; one gap or one overlap anywhere makes it False.  An area
    that ends at byte 0 is the exception: the loop tests [if last_end:]
    and skips the comparison after it. *)
Theorem check_memory_usage_joins tiff :
  check_memory_usage tiff = true
  <-> (forall pre x y post,
          sort_regions (recorded_areas tiff) = pre ++ x :: y :: post ->
          joins x y).
Proof.
  unfold check_memory_usage.
  destruct (sort_regions (recorded_areas tiff)) as [ | a l].
  - split; [ | reflexivity].
    intros _ pre x y post H. destruct pre; discriminate.
  - destruct a as [[s e] r]. cbn [check_regions].
    apply (check_regions_joins l (s, e, r)).
Qed.

(** X13: the answer of [check_memory_usage] does not depend on the
    order in which the areas were recorded: two files whose recorded
    areas are the same up to their order get the same answer. *)
Theorem check_memory_usage_order tiff tiff' :
  Permutation (recorded_areas tiff) (recorded_areas tiff') ->
  sort_regions (recorded_areas tiff) = sort_regions (recorded_areas tiff')
  /\ check_memory_usage tiff = check_memory_usage tiff'.
Proof.
  intros Hp.
  assert (Hs : sort_regions (recorded_areas tiff)
               = sort_regions (recorded_areas tiff')).
  { apply sorted_regions_unique; try apply sort_regions_sorted.
    rewrite !sort_regions_perm. exact Hp. }
  split; [exact Hs | ]. unfold check_memory_usage. now rewrite Hs.
Qed.

Lemma check_memory_usage_joins_witness :
  check_memory_usage
    {| first_byte := 0; data := []; endian := little; IFD0 := 0;
       IFD_list := [];
       memory_usage := [(60, 100, "b"%string); (0, 50, "a"%string)] |}
  = false.
Proof.
  match goal with
  | |- check_memory_usage ?t = false =>
      destruct (check_memory_usage t) eqn:Hc; [ | reflexivity];
        destruct (proj1 (check_memory_usage_joins t) Hc
                        [] (0, 50, "a"%string) (60, 100, "b"%string) []
                        eq_refl) as [H | H]; discriminate H
  end.
Defined.

Lemma check_memory_usage_order_witness :
  check_memory_usage
    {| first_byte := 0; data := []; endian := little; IFD0 := 0;
       IFD_list := [];
       memory_usage := [(8, 26, "d"%string); (0, 8, "h"%string)] |}
  = check_memory_usage
      {| first_byte := 0; data := []; endian := little; IFD0 := 0;
         IFD_list := [];
         memory_usage := [(0, 8, "h"%string); (8, 26, "d"%string)] |}.
Proof.
  apply check_memory_usage_order. apply perm_swap.
Defined.

(** ** TIFFfile.is_contiguous *)




Lemma np_ne_false a b :
  np_ne a b = Ok false -> num_val a = num_val b.
Proof.
  unfold np_ne, np_cmp. destruct (is_int_num a && is_int_num b);
    [ | discriminate].
  intros H. injection H as H. apply negb_false_iff in H.
  now apply Z.eqb_eq.
Qed.

Lemma np_ne_true a b :
  np_ne a b = Ok true -> num_val a <> num_val b.
Proof.
  unfold np_ne, np_cmp. destruct (is_int_num a && is_int_num b);
    [ | discriminate].
  intros H. injection H as H. apply negb_true_iff in H.
  now apply Z.eqb_neq.
Qed.




(** ** What get_samples returns, and when it does not *)

Lemma filterM_none {A} (f : A -> result bool) (xs : list A) :
  (forall x, In x xs -> f x = Ok false) -> filterM f xs = Ok [].
Proof.
  induction xs as [ | x xs IH]; intros H; [reflexivity | ].
  cbn [filterM]. rewrite (H x) by now left. cbn [bind].
  rewrite IH by (intros y Hy; apply H; now right). reflexivity.
Qed.

(** X15: when every directory of the file carries a NewSubfileType
    entry with an integer other than the selector (and so also for a
    file without directories), no directory is selected and
    [get_samples] raises NameError (the names bound in the first turn
    of its loop are read after the loop); it does not return an empty
    list of channels. *)
Theorem get_samples_nothing_selected env tiff subfile_type :
  (forall ifd, In ifd (IFD_list tiff) ->
               exists n, declares ifd "NewSubfileType" (PNum n)
                         /\ is_int_num n = true
                         /\ num_val n <> subfile_type) ->
  select_ifds tiff subfile_type = Ok []
  /\ get_samples env tiff subfile_type = Raise NameError.
Proof.
  intros H.
  assert (Hsel : select_ifds tiff subfile_type = Ok []).
  { unfold select_ifds. apply filterM_none. intros ifd Hin.
    destruct (H ifd Hin) as (n & Hd & Hn & Hne).
    unfold selected. rewrite (declares_get_value _ _ _ _ Hd). cbn [bind].
    rewrite np_eq_int by (exact Hn || reflexivity). cbn [num_val].
    apply Z.eqb_neq in Hne. now rewrite Hne. }
  split; [exact Hsel | ]. unfold get_samples. now rewrite Hsel.
Qed.

Lemma get_samples_nothing_selected_witness :
  exists tiff,
    Files.opened little 1
      (Files.header_bytes 8 ++ Files.directory_bytes [(254, 4, 1, 1)] 0) 0
    = Some (Ok tiff)
    /\ length (IFD_list tiff) = 1%nat
    /\ get_samples (Files.plain_env little) tiff 0 = Raise NameError.
Proof.
  eexists. split; [vm_compute; reflexivity | ].
  split; [reflexivity | ].
  apply get_samples_nothing_selected.
  intros ifd [<- | []]. exists (Np uint32 1).
  split; [eexists; split; reflexivity | ]. split; [reflexivity | discriminate].
Defined.

Lemma loop_body_counts env tiff st ifd st' :
  loop_body env tiff st ifd = Ok st' ->
  st_i st' = st_i st + 1
  /\ length (st_l st') = S (length (st_l st))
  /\ (can_return_memmap st' = true -> can_return_memmap st = true).
Proof.
  intros H. unfold loop_body in H. bind_inv H. injection H as <-.
  cbn [st_i st_l can_return_memmap]. split; [reflexivity | ].
  split; [rewrite length_app; cbn [length]; lia | ].
  assert (Hpm : snd a1 = true -> can_return_memmap st = true).
  { destruct (st_i st =? 0).
    - apply bind_ok in E1 as (r & _ & E1). injection E1 as <-. cbn [snd].
      intros Hm. now apply andb_true_iff in Hm.
    - destruct (st_first st); [ | discriminate].
      apply bind_ok in E1 as (u & _ & E1). injection E1 as <-. trivial. }
  intros Hm. apply Hpm. clear Hpm E1.
  destruct (0 <? st_i st).
  - apply bind_ok in E2 as (prev & _ & E2). unfold update_step in E2.
    cbn [st_i can_return_memmap st_step] in E2.
    destruct (st_i st =? 1).
    + bind_inv E2. injection E2 as E2. subst a2. exact Hm.
    + bind_inv E2. injection E2 as E2. subst a2. cbn [snd] in Hm.
      match type of Hm with
      | (if ?b then _ else _) = true => destruct b
      end; [discriminate | exact Hm].
  - injection E2 as E2. subst a2. exact Hm.
Qed.

Lemma foldM_counts env tiff :
  forall ifds st st',
    foldM (loop_body env tiff) ifds st = Ok st' ->
    st_i st' = st_i st + Z.of_nat (length ifds)
    /\ length (st_l st') = (length (st_l st) + length ifds)%nat
    /\ (can_return_memmap st' = true -> can_return_memmap st = true).
Proof.
  induction ifds as [ | ifd ifds IH]; intros st st' H.
  - injection H as <-. cbn [length]. repeat split; [lia | lia | trivial].
  - cbn [foldM] in H. apply bind_ok in H as (st1 & H1 & H).
    destruct (loop_body_counts _ _ _ _ _ H1) as (Hi & Hl & Hm).
    destruct (IH _ _ H) as (Hi' & Hl' & Hm').
    cbn [length]. repeat split; [lia | lia | auto].
Qed.

Lemma eq_scalar_is (v : pyval) (k : Z) :
  eq_scalar v (PNum (PyInt k)) = Ok true ->
  exists n, v = PNum n /\ is_int_num n = true /\ num_val n = k.
Proof.
  destruct v as [ | n | d xs]; cbn; try discriminate.
  unfold np_eq, np_cmp. destruct (is_int_num n) eqn:Hn; [ | discriminate].
  cbn [andb]. change (is_int_num (PyInt k)) with true. cbv iota.
  intros H. injection H as H. apply Z.eqb_eq in H. cbn [num_val] in H.
  now exists n.
Qed.

Lemma get_value_declares ifd name n :
  IFD_get_value ifd name PNone = Ok (PNum n) -> declares ifd name (PNum n).
Proof.
  unfold IFD_get_value, declares.
  destruct (IFD_get ifd name) as [e | ]; [ | discriminate].
  intros H. now exists e.
Qed.

Lemma first_turn_more env tiff ifd span p m :
  first_turn env tiff ifd span = Ok (p, m) ->
  IFD_get_value ifd "Compression" PNone = Ok (compression p)
  /\ (m = true -> exists c, compression p = PNum c /\ num_val c = 1)
  /\ strips_per_image p
     = match IFD_get_value ifd "StripOffsets" PNone with
       | Ok (PArr _ offs) =>
           if is_lsm env tiff then 1 else Z.of_nat (length offs)
       | _ => 1
       end.
Proof.
  intros H. unfold first_turn in H. bind_inv H.
  injection H as <- <-. cbn [compression strips_per_image].
  split; [assumption | ]. split.
  - intros Hm. apply negb_true_iff in Hm. subst.
    destruct a as [ | c | ]; try discriminate.
    exists c. split; [reflexivity | ].
    match goal with
    | E : np_ne c (PyInt 1) = Ok false |- _ =>
        exact (np_ne_false c (PyInt 1) E)
    end.
  - match goal with
    | H : IFD_get_value ifd "StripOffsets" PNone = Ok _ |- _ => rewrite H
    end.
    reflexivity.
Qed.

Lemma foldM_first_full env tiff s0 rest st :
  foldM (loop_body env tiff) (s0 :: rest) initial_state = Ok st ->
  exists span p m,
    first_turn env tiff s0 span = Ok (p, m)
    /\ st_first st = Some p
    /\ (can_return_memmap st = true -> m = true)
    /\ st_i st = Z.of_nat (length (s0 :: rest))
    /\ length (st_l st) = length (s0 :: rest).
Proof.
  intros H. pose proof H as Hfold. cbn [foldM] in H.
  apply bind_ok in H as (st1 & H1 & H).
  destruct (foldM_counts _ _ _ _ _ Hfold) as (Hi & Hl & _).
  destruct (foldM_counts _ _ _ _ _ H) as (_ & _ & Hm).
  unfold loop_body in H1. cbn [st_i initial_state] in H1.
  change (0 =? 0) with true in H1. change (0 <? 0) with false in H1.
  cbv iota in H1. bind_inv H1. injection H1 as H1.
  apply bind_ok in E1 as ([p m] & Hft & E1). injection E1 as E1. subst a1.
  injection E2 as E2. subst a2. cbn [fst snd can_return_memmap st_first] in H1.
  assert (Hp1 : st_first st1 = Some p) by (now subst st1).
  assert (Hm1 : can_return_memmap st1 = m) by (now subst st1).
  exists a0, p, m. split; [exact Hft | ].
  destruct (foldM_later env tiff p rest st1 st) as [_ Hp];
    [subst st1; cbn; lia | exact Hp1 | exact H | ].
  split; [exact Hp | ]. split; [intros Hc; rewrite <- Hm1; now apply Hm | ].
  cbn [initial_state st_i st_l length] in Hi, Hl. cbn [length].
  split; [lia | exact Hl].
Qed.

(** What a call of [get_samples] that returns has gone through. *)
Lemma get_samples_ok_inv env tiff subfile_type r :
  get_samples env tiff subfile_type = Ok r ->
  exists s0 rest st span p m n,
    select_ifds tiff subfile_type = Ok (s0 :: rest)
    /\ foldM (loop_body env tiff) (s0 :: rest) initial_state = Ok st
    /\ first_turn env tiff s0 span = Ok (p, m)
    /\ st_first st = Some p
    /\ (can_return_memmap st = true -> m = true)
    /\ st_i st = Z.of_nat (length (s0 :: rest))
    /\ length (st_l st) = length (s0 :: rest)
    /\ as_index (samples_per_pixel p) = Ok n
    /\ (let names := map (fun j => ("sample" ++ to_dec j)%string) (range n) in
        if can_return_memmap st
        then fast_path env tiff subfile_type st p names = Ok r
        else slow_path env tiff st p names = Ok r).
Proof.
  intros H. unfold get_samples in H.
  apply bind_ok in H as (sel & Hsel & H). apply bind_ok in H as (st & Hst & H).
  destruct sel as [ | s0 rest].
  { injection Hst as <-. discriminate. }
  destruct (foldM_first_full _ _ _ _ _ Hst)
    as (span & p & m & Hft & Hp & Hm & Hi & Hl).
  rewrite Hp in H. apply bind_ok in H as (n & Hn & H).
  exists s0, rest, st, span, p, m, n.
  repeat (split; [assumption | ]). cbv zeta.
  destruct (can_return_memmap st); exact H.
Qed.

(** X16: [get_samples] returns channels only for a first selected
    directory that carries a PlanarConfiguration entry with the
    integer 1, or with the integer 2 in a file the LSM support
    recognises.  A directory without this entry (for which TIFF takes
    the chunky layout) makes it raise, as does any other value. *)
Theorem get_samples_needs_planar_config env tiff subfile_type r :
  get_samples env tiff subfile_type = Ok r ->
  exists s0 rest n,
    select_ifds tiff subfile_type = Ok (s0 :: rest)
    /\ declares s0 "PlanarConfiguration" (PNum n)
    /\ (num_val n = 1 \/ num_val n = 2 /\ is_lsm env tiff = true).
Proof.
  intros H. destruct (get_samples_ok_inv _ _ _ _ H)
    as (s0 & rest & st & span & p & m & k & Hsel & _ & Hft & _ & _ & _ & _
        & _ & Hpath).
  destruct (first_turn_inv _ _ _ _ _ _ Hft) as (_ & _ & Hpc & _).
  exists s0, rest. cbv zeta in Hpath.
  assert (Hn : exists n, planar_config p = PNum n
                         /\ (num_val n = 1
                             \/ num_val n = 2 /\ is_lsm env tiff = true)).
  { destruct (can_return_memmap st).
    - unfold fast_path in Hpath. bind_inv Hpath.
      match type of Hpath with
      | (if ?b then _ else _) = Ok _ => destruct b eqn:Hplanar
      end.
      + destruct (is_lsm env tiff) eqn:Hlsm; [ | discriminate].
        match goal with
        | E : eq_scalar (planar_config p) (PNum (PyInt 2)) = Ok true |- _ =>
            destruct (eq_scalar_is _ _ E) as (n & Hpn & _ & Hv)
        end.
        exists n. split; [exact Hpn | right; now split].
      + bind_inv Hpath.
        match goal with
        | E : eq_scalar (planar_config p) (PNum (PyInt 1)) = Ok true |- _ =>
            destruct (eq_scalar_is _ _ E) as (n & Hpn & _ & Hv)
        end.
        exists n. split; [exact Hpn | now left].
    - unfold slow_path in Hpath. bind_inv Hpath.
      match goal with
      | E : eq_scalar (planar_config p) (PNum (PyInt 1)) = Ok true |- _ =>
          destruct (eq_scalar_is _ _ E) as (n & Hpn & _ & Hv)
      end.
      exists n. split; [exact Hpn | now left]. }
  destruct Hn as (n & Hpn & Hv). exists n. split; [exact Hsel | ].
  split; [ | exact Hv]. apply get_value_declares. now rewrite Hpc, Hpn.
Qed.

Lemma get_samples_needs_planar_config_witness :
  exists tiff r s0 rest n,
    Files.opened little 3 (Files.three_slice_file 1) 0 = Some (Ok tiff)
    /\ get_samples (Files.plain_env little) tiff 0 = Ok r
    /\ select_ifds tiff 0 = Ok (s0 :: rest)
    /\ declares s0 "PlanarConfiguration" (PNum n)
    /\ (num_val n = 1
        \/ num_val n = 2 /\ is_lsm (Files.plain_env little) tiff = true).
Proof.
  eexists. eexists.
  match goal with
  | |- exists s0 rest n, ?A /\ ?B /\ _ =>
      assert (Ha : A) by (vm_compute; reflexivity);
      assert (Hb : B) by (vm_compute; reflexivity)
  end.
  destruct (get_samples_needs_planar_config _ _ _ _ Hb)
    as (s0 & rest & n & Hsel & Hd & Hv).
  exists s0, rest, n. repeat (split; [assumption | ]). exact Hv.
Defined.

(** X17: [get_samples] reads compressed data (a first selected
    directory whose Compression entry is not the integer 1, or is
    missing) only when the number of selected directories equals the
    strips per image of the first one: the copying path asserts
    [len(l)==strips_per_image], and [l] has one span per directory.
    For directories of one strip each, a compressed stack of two or
    more directories is never returned. *)
Theorem get_samples_compressed env tiff subfile_type r :
  get_samples env tiff subfile_type = Ok r ->
  exists s0 rest,
    select_ifds tiff subfile_type = Ok (s0 :: rest)
    /\ ((exists c, declares s0 "Compression" (PNum c) /\ num_val c = 1)
        \/ Z.of_nat (length (s0 :: rest)) = strips_per_image_of env tiff s0).
Proof.
  intros H. destruct (get_samples_ok_inv _ _ _ _ H)
    as (s0 & rest & st & span & p & m & k & Hsel & _ & Hft & _ & Hm & _ & Hl
        & _ & Hpath).
  destruct (first_turn_more _ _ _ _ _ _ Hft) as (Hc & Hm1 & Hs).
  exists s0, rest. split; [exact Hsel | ]. cbv zeta in Hpath.
  destruct (can_return_memmap st).
  - left. destruct (Hm1 (Hm eq_refl)) as (c & Hpc & Hv). exists c.
    split; [ | exact Hv]. apply get_value_declares. now rewrite Hc, Hpc.
  - right. unfold slow_path in Hpath. bind_inv Hpath.
    match goal with
    | T : (Z.of_nat (length (st_l st)) =? strips_per_image p) = true |- _ =>
        apply Z.eqb_eq in T; rewrite Hl in T; rewrite T
    end.
    exact Hs.
Qed.

Lemma get_samples_compressed_witness :
  exists tiff r s0 rest,
    Files.opened little 1
      (Files.header_bytes 8
       ++ Files.directory_bytes
            [(256, 3, 1, 1); (257, 3, 1, 1); (258, 3, 1, 8); (259, 3, 1, 7);
             (273, 4, 1, 98); (279, 4, 1, 1); (284, 3, 1, 1)] 0
       ++ [x11]) 0 = Some (Ok tiff)
    /\ get_samples (Files.plain_env little) tiff 0 = Ok r
    /\ select_ifds tiff 0 = Ok (s0 :: rest)
    /\ ((exists c, declares s0 "Compression" (PNum c) /\ num_val c = 1)
        \/ Z.of_nat (length (s0 :: rest))
           = strips_per_image_of (Files.plain_env little) tiff s0).
Proof.
  eexists. eexists.
  match goal with
  | |- exists s0 rest, ?A /\ ?B /\ _ =>
      assert (Ha : A) by (vm_compute; reflexivity);
      assert (Hb : B) by (vm_compute; reflexivity)
  end.
  destruct (get_samples_compressed _ _ _ _ Hb) as (s0 & rest & Hsel & Hv).
  exists s0, rest. repeat (split; [assumption | ]). exact Hv.
Defined.

Lemma chunks_aux_all_length {A} (w : nat) :
  (0 < w)%nat ->
  forall (k : nat) (xs : list A) (fuel : nat),
    length xs = (k * w)%nat -> (length xs <= fuel)%nat ->
    Forall (fun c => length c = w) (chunks_aux fuel w xs).
Proof.
  intros Hw. induction k as [ | k IH]; intros xs fuel Hlen Hfuel.
  - destruct xs; [ | discriminate]. destruct fuel; constructor.
  - rewrite Nat.mul_succ_l in Hlen.
    destruct xs as [ | x xs]; [cbn [length] in Hlen; lia | ].
    destruct fuel as [ | fuel]; [cbn [length] in Hfuel; lia | ].
    cbn [chunks_aux]. constructor.
    + rewrite length_firstn. lia.
    + apply IH; rewrite length_skipn; lia.
Qed.

Lemma split_rows_shape {A} (r c : Z) (xs : list A) :
  0 <= r -> 0 <= c -> Z.of_nat (length xs) = r * c ->
  length (split_rows r c xs) = Z.to_nat r
  /\ Forall (fun row => length row = Z.to_nat c) (split_rows r c xs).
Proof.
  intros Hr Hc Hlen. unfold split_rows.
  destruct (Z.eqb_spec c 0) as [-> | Hc0].
  - split; [apply repeat_length | ].
    apply Forall_forall. intros row Hin. now apply repeat_spec in Hin as ->.
  - assert (Hn : length xs = (Z.to_nat r * Z.to_nat c)%nat) by nia.
    unfold chunks. split.
    + apply chunks_aux_length; [lia | exact Hn | apply le_n].
    + apply (chunks_aux_all_length (Z.to_nat c)) with (k := Z.to_nat r);
        [lia | exact Hn | apply le_n].
Qed.

Lemma view_reshape3_shape d bs depth len wid s :
  view_reshape3 d bs depth len wid = Ok s ->
  s_shape s = (depth, len, wid) /\ well_shaped s.
Proof.
  unfold view_reshape3. intros H.
  destruct (negb (_ =? 0)); [discriminate | ].
  destruct ((depth <? 0) || (len <? 0) || (wid <? 0)) eqn:Hneg;
    [discriminate | ].
  apply orb_false_iff in Hneg as [Hneg Hw].
  apply orb_false_iff in Hneg as [Hd Hl].
  apply Z.ltb_ge in Hd, Hl, Hw.
  set (elems := chunks (Z.to_nat (sample_itemsize d)) bs) in *.
  destruct (Z.eqb_spec (Z.of_nat (length elems)) (depth * len * wid))
    as [Hn | Hn]; [ | discriminate].
  cbn [negb] in H. injection H as <-. split; [reflexivity | ].
  unfold well_shaped. cbn [s_shape s_array].
  destruct (split_rows_shape depth (len * wid) elems)
    as [Hplanes Hplane]; [lia | nia | lia | ].
  split; [now rewrite length_map | ].
  apply Forall_map. apply Forall_impl with (2 := Hplane).
  intros plane Hp. apply split_rows_shape; lia.
Qed.

Lemma foldM_invariant {A S} (P : S -> Prop) (f : S -> A -> result S) :
  (forall s x s', P s -> f s x = Ok s' -> P s') ->
  forall xs s s', P s -> foldM f xs s = Ok s' -> P s'.
Proof.
  intros Hstep. induction xs as [ | x xs IH]; intros s s' Hs H.
  - now injection H as <-.
  - cbn [foldM] in H. apply bind_ok in H as (s1 & H1 & H).
    apply (IH s1 s'); [now apply (Hstep s x) | exact H].
Qed.

Lemma as_index_val n z : as_index n = Ok z -> z = num_val n.
Proof.
  unfold as_index. destruct (is_int_num n); [ | discriminate].
  intros H. now injection H.
Qed.

Ltac inv_all :=
  repeat match goal with
         | H : bind _ _ = Ok _ |- _ =>
             let a := fresh "a" in
             let E := fresh "E" in
             apply bind_ok in H as (a & E & H)
         | H : (if ?b then _ else Raise _) = Ok _ |- _ =>
             destruct b eqn:?; [ | discriminate H]
         | H : (if ?b then Raise _ else _) = Ok _ |- _ =>
             destruct b eqn:?; [discriminate H | ]
         | H : (if ?b then Beyond else _) = Ok _ |- _ =>
             destruct b eqn:?; [discriminate H | ]
         end.

Section Shapes.

Variables (p : params) (depth : Z) (P : sample -> Prop).

Hypothesis Hview :
  forall d bs len wid s,
    as_index (length_ p) = Ok len -> as_index (width p) = Ok wid ->
    view_reshape3 d bs depth len wid = Ok s -> P s.

Lemma chunky_samples_shape arr k bytes ss :
  chunky_samples p arr depth k bytes = Ok ss -> Forall P ss.
Proof.
  intros H. unfold chunky_samples in H. inv_all. injection H as <-.
  match goal with
  | E : foldM _ _ ([], _) = Ok ?acc |- Forall _ (fst ?acc) =>
      apply (foldM_invariant (fun a => Forall P (fst a)) _)
        with (2 := ltac:(constructor) : Forall P (fst ([], k)))
             (3 := E)
  end.
  intros acc j acc' Hacc Hstep. inv_all. injection Hstep as <-. cbn [fst].
  apply Forall_app. split; [exact Hacc | ].
  constructor; [ | constructor]. eapply Hview; eassumption.
Qed.

Lemma planar_samples_shape arr k ss :
  planar_samples p arr depth k = Ok ss -> Forall P ss.
Proof.
  intros H. unfold planar_samples in H. inv_all.
  destruct (bits_per_sample p) as [ | b | d bl].
  - inv_all. discriminate.
  - inv_all. injection H as <-.
    match goal with
    | E : Ok (_, _) = Ok ?sk |- Forall _ [fst ?sk] => injection E as <-
    end.
    constructor; [ | constructor]. eapply Hview; eassumption.
  - inv_all. injection H as <-.
    match goal with
    | E : foldM _ _ ([], _) = Ok ?acc |- Forall _ (fst ?acc) =>
        apply (foldM_invariant (fun a => Forall P (fst a)) _)
          with (2 := ltac:(constructor) : Forall P (fst ([], k)))
               (3 := E)
    end.
    intros acc j acc' Hacc Hstep. inv_all.
    injection Hstep as <-.
    match goal with
    | E : Ok (_, _) = Ok ?sk |- _ => injection E as E; subst sk
    end.
    cbn [fst].
    apply Forall_app. split; [exact Hacc | ].
    constructor; [ | constructor]. eapply Hview; eassumption.
Qed.

End Shapes.

(** X18: every channel that [get_samples] returns has the shape
    [(depth, length, width)], where the depth is the number of selected
    directories and length and width are the ImageLength and ImageWidth
    of the first of them, and its nested lists have that many planes,
    rows and elements. *)
Theorem get_samples_shape env tiff subfile_type samples names :
  get_samples env tiff subfile_type = Ok (samples, names) ->
  exists s0 rest w h,
    select_ifds tiff subfile_type = Ok (s0 :: rest)
    /\ declares s0 "ImageWidth" (PNum w)
    /\ declares s0 "ImageLength" (PNum h)
    /\ Forall (fun s =>
                 s_shape s = (Z.of_nat (length (s0 :: rest)),
                              num_val h, num_val w)
                 /\ well_shaped s) samples.
Proof.
  intros H. destruct (get_samples_ok_inv _ _ _ _ H)
    as (s0 & rest & st & span & p & m & k & Hsel & _ & Hft & _ & _ & Hi & _
        & _ & Hpath).
  destruct (first_turn_inv _ _ _ _ _ _ Hft) as (Hw & Hh & _).
  exists s0, rest, (width p), (length_ p).
  split; [exact Hsel | ]. split; [now apply get_value_declares | ].
  split; [now apply get_value_declares | ].
  rewrite <- Hi. cbv zeta in Hpath.
  set (P := fun s : sample =>
              s_shape s = (st_i st, num_val (length_ p), num_val (width p))
              /\ well_shaped s).
  assert (Hview : forall d bs len wid s,
             as_index (length_ p) = Ok len -> as_index (width p) = Ok wid ->
             view_reshape3 d bs (st_i st) len wid = Ok s -> P s).
  { intros d bs len wid s Hl Hwd Hv.
    apply as_index_val in Hl, Hwd. subst len wid.
    exact (view_reshape3_shape _ _ _ _ _ _ Hv). }
  destruct (can_return_memmap st).
  - unfold fast_path in Hpath. inv_all.
    match type of Hpath with
    | (if ?b then _ else _) = Ok _ => destruct b
    end.
    + destruct (is_lsm env tiff); [ | discriminate]. inv_all.
      injection Hpath as <- _.
      eapply (planar_samples_shape p (st_i st) P Hview); eassumption.
    + inv_all. injection Hpath as <- _.
      eapply (chunky_samples_shape p (st_i st) P Hview); eassumption.
  - unfold slow_path in Hpath. inv_all. injection Hpath as <- _.
    constructor; [ | constructor]. eapply Hview; eassumption.
Qed.

Lemma get_samples_shape_witness :
  exists tiff samples names s0 rest w h,
    Files.opened little 3 (Files.three_slice_file 1) 0 = Some (Ok tiff)
    /\ get_samples (Files.plain_env little) tiff 0 = Ok (samples, names)
    /\ select_ifds tiff 0 = Ok (s0 :: rest)
    /\ length (s0 :: rest) = 3%nat
    /\ declares s0 "ImageWidth" (PNum w) /\ declares s0 "ImageLength" (PNum h)
    /\ Forall (fun s =>
                 s_shape s = (Z.of_nat (length (s0 :: rest)),
                              num_val h, num_val w)
                 /\ well_shaped s) samples.
Proof.
  eexists. eexists. eexists.
  match goal with
  | |- exists s0 rest w h, ?A /\ ?B /\ _ =>
      assert (Ha : A) by (vm_compute; reflexivity);
      assert (Hb : B) by (vm_compute; reflexivity)
  end.
  destruct (get_samples_shape _ _ _ _ _ Hb)
    as (s0 & rest & w & h & Hsel & Hw & Hh & Hall).
  exists s0, rest, w, h. repeat (split; [assumption | ]).
  split; [ | now repeat split].
  vm_compute in Hsel. injection Hsel as <- <-. reflexivity.
Defined.

(** ** A one-strip gray image is read back *)

(** One step of the run: the binds and the record fields are evaluated, the
    arithmetic is left to be rewritten. *)
Ltac step :=
  cbn -[Z.mul Z.add Z.sub Z.div Z.modulo Z.pow Z.eqb Z.ltb Z.leb Z.geb Z.gtb
        Z.of_nat Z.to_nat Z.max Z.min py_slice wrap chunks every_nth
        List.length repeat is_lsm view_reshape3 reshape2 py_slice_step to_dec
        np_add np_sub np_mul np_floordiv np_eq np_ne np_ge np_gt np_le
        numpy_getattr as_index range].


Lemma wrap_u32 x : 0 <= x < 2 ^ 32 -> wrap uint32 x = x.
Proof. intros H. unfold wrap. cbn [int_kind]. apply Z.mod_small. exact H. Qed.

Lemma wrap_i64 x : - 2 ^ 63 <= x < 2 ^ 63 -> wrap int64 x = x.
Proof.
  intros H. unfold wrap. cbn [int_kind]. change (64 - 1) with 63.
  rewrite Z.mod_small; lia.
Qed.

(** Arithmetic with a numpy operand gives a numpy number of the promoted
    type. *)
Lemma arith_np f a b d :
  promote (num_dtype a) (num_dtype b) = Some d ->
  match a, b with PyInt _, PyInt _ => False | _, _ => True end ->
  arith f a b = Ok (Np d (wrap d (f (num_val a) (num_val b)))).
Proof.
  intros Hp Hab. unfold arith. rewrite Hp.
  destruct a, b; try reflexivity; contradiction.
Qed.


Ltac np_step d :=
  rewrite (arith_np _ _ _ d) by (reflexivity || exact I); step.

(** The directory loop on a one-strip gray image. *)
Lemma gray_loop env data w h o :
  0 < w -> 0 < h -> 0 < o -> o + w * h < 2 ^ 32 ->
  foldM (loop_body env (gray_tiff data w h o)) [gray_ifd w h o] initial_state
  = Ok (gray_state w h o).
Proof.
  intros Hw Hh Ho Hend.
  unfold foldM, loop_body.
  change (IFD_is_contiguous (gray_ifd w h o)) with (@Ok bool true).
  unfold strip_span.
  step.
  unfold np_add at 1. np_step uint32.
  rewrite (wrap_u32 (o + w * h)) by nia.
  change (0 =? 0) with true. change (0 <? 0) with false. step.
  unfold first_turn. step.
  change (np_ne (Np uint16 1) (PyInt 1)) with (@Ok bool false). step.
  change (numpy_getattr f_uint (PNum (Np uint16 8))) with (Ok (f_uint, 8)).
  step.
  change (np_floordiv (Np uint16 8) (PyInt 8)) with (Ok (Np int64 1)). step.
  change (np_mul (PyInt 8) (Np int64 1)) with (Ok (Np int64 8)). step.
  change (np_eq (Np int64 8) (Np uint16 8)) with (@Ok bool true). step.
  unfold np_mul at 1. np_step int64.
  rewrite Z.mul_1_r, (wrap_i64 w) by nia.
  unfold np_sub at 1. np_step uint32.
  replace (o + w * h - o) with (w * h) by lia.
  rewrite (wrap_u32 (w * h)) by nia.
  unfold np_mul at 1. np_step int64.
  rewrite (wrap_i64 (h * w)) by nia.
  unfold np_mul at 1. np_step int64.
  rewrite Z.mul_1_r, (wrap_i64 w) by nia.
  unfold np_floordiv. np_step int64.
  destruct (Z.eqb_spec w 0) as [Hw0 | _]; [lia | ].
  rewrite Z.div_mul by lia. rewrite (wrap_i64 h) by nia.
  rewrite np_eq_int by reflexivity. step. rewrite Z.eqb_refl. step.
  reflexivity.
Qed.

Lemma every_nth_1 {A} (xs : list A) : every_nth 1 0 xs = xs.
Proof. induction xs as [ | x xs IH]; [reflexivity | ]. cbn. now rewrite IH. Qed.

Lemma chunks_1 {A} (xs : list A) : chunks 1 xs = map (fun x => [x]) xs.
Proof. unfold chunks. apply chunks_aux_1. apply le_n. Qed.

(** X19: an uncompressed 8-bit image of [w] by [h] pixels stored in one
    strip that starts after the first byte of the file is returned by
    [get_samples] as one uint8 channel named sample0 of shape (1, h, w),
    whose rows are the consecutive runs of [w] bytes of the strip. *)
Theorem get_samples_gray_image env pre px post w h :
  0 < w -> 0 < h -> 0 < Z.of_nat (length pre) ->
  Z.of_nat (length px) = w * h ->
  Z.of_nat (length pre) + w * h < 2 ^ 32 ->
  get_samples env
    (gray_tiff (pre ++ px ++ post) w h (Z.of_nat (length pre))) 0
  = Ok ([{| s_dtype := (f_uint, 8); s_shape := (1, h, w);
            s_array := [chunks (Z.to_nat w) (map (fun b => [b]) px)] |}],
        ["sample0"%string]).
Proof.
  intros Hw Hh Ho Hpx Hend.
  set (o := Z.of_nat (length pre)) in *.
  unfold get_samples.
  change (select_ifds (gray_tiff (pre ++ px ++ post) w h o) 0)
    with (Ok [gray_ifd w h o]).
  cbn [bind]. rewrite gray_loop by assumption.
  cbn [bind gray_state st_first samples_per_pixel can_return_memmap negb].
  change (as_index (PyInt 1)) with (Ok 1). cbn [bind].
  change (range 1) with [0]. cbn [map].
  change ("sample" ++ to_dec 0)%string with "sample0"%string.
  unfold fast_path. step.
  change (py_index [(Np uint32 o, Np uint32 (o + w * h))] 0)
    with (Ok (Np uint32 o, Np uint32 (o + w * h))).
  change (py_index [(Np uint32 o, Np uint32 (o + w * h))] (-1))
    with (Ok (Np uint32 o, Np uint32 (o + w * h))).
  step.
  unfold np_add at 1. np_step int64.
  rewrite Z.add_0_r, (wrap_i64 (w * h)) by nia.
  change (as_index (Np int64 (w * h))) with (Ok (w * h)). step.
  change (np_gt (Np uint32 o) (PyInt 0)) with (Ok (o >? 0)). step.
  replace (o >? 0) with true by (symmetry; apply Z.gtb_lt; exact Ho).
  unfold np_sub at 1. np_step int64.
  rewrite Z.sub_0_r, (wrap_i64 o) by nia.
  change (as_index (Np int64 o)) with (Ok o).
  change (as_index (Np uint32 (o + w * h))) with (Ok (o + w * h)). step.
  subst o. rewrite <- Hpx, py_slice_middle.
  unfold reshape2, split_rows. rewrite Z.mul_1_l, Z.eqb_refl.
  change (1 <? 0) with false.
  destruct (Z.ltb_spec (Z.of_nat (length px)) 0) as [? | _]; [lia | ].
  destruct (Z.eqb_spec (Z.of_nat (length px)) 0) as [? | _]; [lia | ].
  rewrite chunks_single by lia.
  step.
  change (np_eq (Np uint16 1) (PyInt 2)) with (@Ok bool false). step.
  change (np_eq (Np uint16 1) (PyInt 1)) with (@Ok bool true). step.
  unfold plane_bytes. step.
  change (np_floordiv (Np uint16 8) (PyInt 8)) with (Ok (Np int64 1)). step.
  unfold np_mul at 1. np_step int64.
  rewrite Z.mul_1_l, (wrap_i64 w) by nia.
  unfold np_mul at 1. np_step int64.
  rewrite (wrap_i64 (w * h)) by nia.
  unfold chunky_samples. step.
  change (as_index (PyInt 1)) with (Ok 1).
  change (as_index (Np uint32 h)) with (Ok h).
  change (as_index (Np uint32 w)) with (Ok w). step.
  change (range 1) with [0]. unfold foldM. step.
  change (np_add (PyInt 0) (PyInt 0)) with (Ok (PyInt 0)). step.
  unfold np_add at 1. np_step int64.
  rewrite Z.add_0_l, (wrap_i64 (w * h)) by nia.
  change (as_index (PyInt 0)) with (Ok 0).
  change (as_index (Np int64 (w * h))) with (Ok (w * h)). step.
  change (py_index [(f_uint, 8)] 0) with (Ok (f_uint, 8)). step.
  rewrite app_nil_r. unfold py_slice_step.
  replace (py_slice px 0 (w * h)) with px
    by (rewrite <- (app_nil_r px) at 2; symmetry; apply py_slice_prefix;
        symmetry; exact Hpx).
  change (Z.to_nat 1) with 1%nat. rewrite every_nth_1.
  unfold view_reshape3, sample_itemsize, split_rows.
  change (snd (f_uint, 8) / 8) with 1. change (Z.to_nat 1) with 1%nat.
  rewrite Z.mod_1_r, chunks_1, length_map. step.
  change (1 <? 0) with false.
  destruct (Z.ltb_spec h 0) as [? | _]; [lia | ].
  destruct (Z.ltb_spec w 0) as [? | _]; [lia | ].
  destruct (Z.eqb_spec w 0) as [? | _]; [lia | ].
  destruct (Z.eqb_spec (h * w) 0) as [? | _]; [nia | ].
  destruct (Z.eqb_spec (Z.of_nat (length px)) (1 * h * w)) as [_ | ?]; [ | nia].
  step.
  unfold np_add at 1. np_step int64.
  rewrite chunks_single by (rewrite ?length_map; nia).
  reflexivity.
Qed.

Lemma get_samples_gray_image_witness :
  get_samples (Files.plain_env little)
    (gray_tiff (Files.header_bytes 8
                ++ map Files.byte_of [1; 2; 3; 4; 5; 6] ++ [x00]) 3 2 8) 0
  = Ok ([{| s_dtype := (f_uint, 8); s_shape := (1, 2, 3);
            s_array := [[[[x01]; [x02]; [x03]]; [[x04]; [x05]; [x06]]]] |}],
        ["sample0"%string]).
Proof.
  apply (get_samples_gray_image (Files.plain_env little)
           (Files.header_bytes 8)
           (map Files.byte_of [1; 2; 3; 4; 5; 6]) [x00] 3 2);
    vm_compute; reflexivity.
Defined.
